(** * ip-ping: the monitoring core and the alert manager

    A shallow embedding of [core/ping_monitor.py] and [core/alert_manager.py].
    Python objects are records, attribute mutation is explicit state passing,
    exceptions travel in a state-and-error monad whose state survives a raise
    (Python does not roll mutations back), and everything the program takes
    from outside (ping3, the clock, the registered callbacks, the desktop,
    the sound card, the SMTP server, the file system) is an oracle that the
    theorems quantify over. *)

From Stdlib Require Import List String Ascii ZArith Bool Lia PeanoNat.
From Stdlib Require Import Floats.
Import ListNotations.

Local Open Scope string_scope.
Local Open Scope list_scope.

(** ** Python runtime: exceptions, the state-and-error monad, dict *)

Module Py.

(** Instances of [Exception]: what [except Exception as e] catches.
    [KeyError] is the one the modelled code raises itself (a failed
    [d[key]]); [Raised cls msg] is any exception coming out of foreign code,
    with its class name and [str(e)]. For the exceptions of the codec
    and of [open] the second field names the object concerned instead of
    spelling the message. *)
Inductive exn : Type :=
| KeyError (key : string)
| Raised (cls msg : string).

(** A computation over a mutable state [St]: it ends normally with a value
    ([inr]) or by raising ([inl]); in both cases the state reached so far is
    kept. *)
Definition M (St A : Type) : Type := St -> (exn + A) * St.

Definition ret {St A} (a : A) : M St A := fun s => (inr a, s).

Definition bind {St A B} (m : M St A) (k : A -> M St B) : M St B :=
  fun s => match m s with
           | (inr a, s') => k a s'
           | (inl e, s') => (inl e, s')
           end.

Definition raise {St A} (e : exn) : M St A := fun s => (inl e, s).

Definition get {St} : M St St := fun s => (inr s, s).

Definition modify {St} (f : St -> St) : M St unit := fun s => (inr tt, f s).

(** [try: body  except Exception as e: handler e] *)
Definition try_except {St A} (body : M St A) (handler : exn -> M St A) : M St A :=
  fun s => match body s with
           | (inr a, s') => (inr a, s')
           | (inl e, s') => handler e s'
           end.

(** [for x in l: body x] over a list that the body does not mutate. *)
Fixpoint for_each {St A} (body : A -> M St unit) (l : list A) : M St unit :=
  match l with
  | [] => ret tt
  | x :: rest => bind (body x) (fun _ => for_each body rest)
  end.

(** [if c: body] *)
Definition when {St} (c : bool) (body : M St unit) : M St unit :=
  if c then body else ret tt.

(** [enumerate(l)] *)
Definition enumerate {A} (l : list A) : list (nat * A) :=
  combine (seq 0 (List.length l)) l.

(** A [dict] with [str] keys: the entries in insertion order, as Python
    keeps and iterates them. A well-formed dict has no key twice. *)
Definition dict (V : Type) : Type := list (string * V).

Definition keys {V} (d : dict V) : list string := map fst d.

(** [key in d] *)
Fixpoint contains {V} (d : dict V) (key : string) : bool :=
  match d with
  | [] => false
  | (k, _) :: rest => if String.eqb k key then true else contains rest key
  end.

(** [d.get(key)] *)
Fixpoint lookup {V} (d : dict V) (key : string) : option V :=
  match d with
  | [] => None
  | (k, v) :: rest => if String.eqb k key then Some v else lookup rest key
  end.

(** [d[key] = v]: an existing key keeps its place, a new one goes last. *)
Fixpoint setitem {V} (d : dict V) (key : string) (v : V) : dict V :=
  match d with
  | [] => [(key, v)]
  | (k, w) :: rest =>
      if String.eqb k key then (k, v) :: rest else (k, w) :: setitem rest key v
  end.

(** [del d[key]] for a key that is present. *)
Fixpoint delitem {V} (d : dict V) (key : string) : dict V :=
  match d with
  | [] => []
  | (k, w) :: rest =>
      if String.eqb k key then rest else (k, w) :: delitem rest key
  end.

(** The number of entries stored under [key]. *)
Definition entries {V} (d : dict V) (key : string) : nat :=
  List.length (filter (fun kv => String.eqb (fst kv) key) d).

Definition wf {V} (d : dict V) : Prop := NoDup (keys d).

(** Text files opened with the default [newline=None]. Writing turns
    each line feed into [os.linesep], which is a line feed or, on Windows,
    a carriage return and a line feed; reading turns a carriage return
    with a line feed behind it, and a carriage return alone, into a line
    feed. *)
Definition LF : ascii := "010"%char.
Definition CR : ascii := "013"%char.

Fixpoint write_newlines (crlf : bool) (text : string) : string :=
  match text with
  | EmptyString => EmptyString
  | String c rest =>
      if Ascii.eqb c LF then
        if crlf then String CR (String LF (write_newlines crlf rest))
        else String LF (write_newlines crlf rest)
      else String c (write_newlines crlf rest)
  end.

Fixpoint read_newlines (content : string) : string :=
  match content with
  | EmptyString => EmptyString
  | String c rest =>
      if Ascii.eqb c CR then
        String LF
          match rest with
          | String c' rest' =>
              if Ascii.eqb c' LF then read_newlines rest'
              else read_newlines rest
          | EmptyString => EmptyString
          end
      else String c (read_newlines rest)
  end.

(** The text has no carriage return. *)
Fixpoint no_cr (text : string) : bool :=
  match text with
  | EmptyString => true
  | String c rest => negb (Ascii.eqb c CR) && no_cr rest
  end.

(** The codec [utf-8] with [errors='strict'], which a file opened with
    [encoding="utf-8"] uses in both directions. A [str] is held as its
    UTF-8 text, and a surrogate code point (U+D800 to U+DFFF), which a
    [str] can hold but the codec refuses to encode, as the three bytes
    that the general scheme gives it. So a [str] can be encoded exactly
    when its text is well-formed UTF-8, and the well-formed texts are
    also the byte sequences that the codec decodes. The reader is between
    two characters or inside one, with one, two or three bytes to come;
    after the lead bytes E0, ED, F0 and F4 the next byte has a narrower
    range (no overlong form, no surrogate, nothing above U+10FFFF). *)
Inductive utf8_state : Type :=
| AtChar
| Tail1
| Tail2
| Tail3
| AfterE0
| AfterED
| AfterF0
| AfterF4.

Definition between (lo hi n : nat) : bool := Nat.leb lo n && Nat.leb n hi.

(** One byte: the state behind it, or [None] where the codec raises. *)
Definition utf8_step (st : utf8_state) (c : ascii) : option utf8_state :=
  let n := nat_of_ascii c in
  match st with
  | AtChar =>
      if Nat.ltb n 128 then Some AtChar
      else if between 194 223 n then Some Tail1
      else if Nat.eqb n 224 then Some AfterE0
      else if Nat.eqb n 237 then Some AfterED
      else if between 225 239 n then Some Tail2
      else if Nat.eqb n 240 then Some AfterF0
      else if between 241 243 n then Some Tail3
      else if Nat.eqb n 244 then Some AfterF4
      else None
  | Tail1 => if between 128 191 n then Some AtChar else None
  | Tail2 => if between 128 191 n then Some Tail1 else None
  | Tail3 => if between 128 191 n then Some Tail2 else None
  | AfterE0 => if between 160 191 n then Some Tail1 else None
  | AfterED => if between 128 159 n then Some Tail1 else None
  | AfterF0 => if between 144 191 n then Some Tail2 else None
  | AfterF4 => if between 128 143 n then Some Tail2 else None
  end.

Fixpoint utf8_scan (st : utf8_state) (text : string) : option utf8_state :=
  match text with
  | EmptyString => Some st
  | String c rest =>
      match utf8_step st c with
      | Some st' => utf8_scan st' rest
      | None => None
      end
  end.

(** [text.encode('utf-8')] and [bytes.decode('utf-8')] succeed. *)
Definition utf8_valid (text : string) : bool :=
  match utf8_scan AtChar text with
  | Some AtChar => true
  | _ => false
  end.

(** The [f.write(chunk)] calls on a text file, in order.
    [TextIOWrapper.write] encodes a chunk before it takes any of it: the
    first chunk that cannot be encoded raises [UnicodeEncodeError] and
    ends the writing, and what the earlier calls wrote is in the file
    when it is closed. The result is the text written and the exception,
    if there is one; its message is not modelled, the field holds the
    chunk that was refused. *)
Fixpoint write_chunks (chunks : list string) : string * option exn :=
  match chunks with
  | [] => (EmptyString, None)
  | chunk :: rest =>
      if utf8_valid chunk then
        let (text, raised) := write_chunks rest in
        ((chunk ++ text)%string, raised)
      else (EmptyString, Some (Raised "UnicodeEncodeError" chunk))
  end.

End Py.

Declare Scope py_scope.
Delimit Scope py_scope with py.
Notation "x <- m ;; k" := (Py.bind m (fun x => k))
  (at level 61, m at next level, right associativity) : py_scope.
Notation "m ;;; k" := (Py.bind m (fun _ => k))
  (at level 61, right associativity) : py_scope.


(** ** The [json] module of the Python standard library

    Only what [json.dump(history, f, ensure_ascii=False, indent=2)] and
    [json.load(f)] execute: the pure-Python encoder ([json/encoder.py],
    [py_encode_basestring], [_iterencode_list], [_iterencode_dict]) on a
    list of dicts from [str] to [str], and the decoder ([json/scanner.py],
    [json/decoder.py]). A Python [str] is its UTF-8 text, so a character
    outside ASCII is the run of its bytes, which both directions copy. *)

Module Json.
Import Py.
Local Open Scope string_scope.

Definition quote : ascii := "034"%char.
Definition backslash : ascii := "092"%char.
Definition newline : ascii := LF.

(** *** Encoding *)

Definition hex_digit (n : nat) : ascii :=
  match n with
  | 0 => "0" | 1 => "1" | 2 => "2" | 3 => "3" | 4 => "4" | 5 => "5"
  | 6 => "6" | 7 => "7" | 8 => "8" | 9 => "9" | 10 => "a" | 11 => "b"
  | 12 => "c" | 13 => "d" | 14 => "e" | _ => "f"
  end%char.

(** [ESCAPE_DCT]: the replacement of a character that [ESCAPE] matches,
    that is of the quote, the backslash and the characters below 0x20. *)
Definition escape_char (c : ascii) : string :=
  let n := nat_of_ascii c in
  if Ascii.eqb c quote then String backslash (String quote "")
  else if Ascii.eqb c backslash then String backslash (String backslash "")
  else if Nat.eqb n 8 then String backslash "b"
  else if Nat.eqb n 12 then String backslash "f"
  else if Nat.eqb n 10 then String backslash "n"
  else if Nat.eqb n 13 then String backslash "r"
  else if Nat.eqb n 9 then String backslash "t"
  else if Nat.ltb n 32 then
    String backslash
      (String "u" (String "0" (String "0"
         (String (hex_digit (n / 16)) (String (hex_digit (n mod 16)) "")))))
  else String c "".

(** [ESCAPE.sub(replace, s)] *)
Fixpoint escape (s : string) : string :=
  match s with
  | EmptyString => ""
  | String c rest => escape_char c ++ escape rest
  end.

(** [py_encode_basestring(s)] *)
Definition encode_basestring (s : string) : string :=
  String quote (escape s ++ String quote "").

(** ['\n' + indent * level] with [indent = '  '] *)
Fixpoint spaces (n : nat) : string :=
  match n with
  | O => ""
  | S n' => String " " (spaces n')
  end.

Definition newline_indent (level : nat) : string :=
  String newline (spaces (2 * level)).

(** The items of a container behind the first one, each after the
    separator [',' + newline_indent]. *)
Fixpoint continued (level : nat) (items : list string) : string :=
  match items with
  | [] => ""
  | item :: rest => "," ++ newline_indent level ++ item ++ continued level rest
  end.

(** The items of a container as the loops of [_iterencode_list] and
    [_iterencode_dict] yield them: the first one after [newline_indent],
    the others after the separator. *)
Definition separated (level : nat) (items : list string) : string :=
  match items with
  | [] => ""
  | first :: others => newline_indent level ++ first ++ continued level others
  end.

(** An item of a dict: the key, [': '] and the value. *)
Definition enc_pair (kv : string * string) : string :=
  encode_basestring (fst kv) ++ ": " ++ encode_basestring (snd kv).

(** [_iterencode_dict(dct, level)] for a dict from [str] to [str] *)
Definition iterencode_dict (level : nat) (dct : dict string) : string :=
  match dct with
  | [] => "{}"
  | _ => "{" ++ separated (S level) (map enc_pair dct) ++
         newline_indent level ++ "}"
  end.

(** [_iterencode_list(lst, level)] for a list of such dicts *)
Definition iterencode_list (level : nat) (lst : list (dict string)) : string :=
  match lst with
  | [] => "[]"
  | _ =>
      "[" ++ separated (S level) (map (iterencode_dict (S level)) lst) ++
      newline_indent level ++ "]"
  end.

(** The text that [json.dump(lst, f, ensure_ascii=False, indent=2)]
    writes to [f] when every write succeeds. *)
Definition dump (lst : list (dict string)) : string := iterencode_list 0 lst.

(** [json.dump] hands the text to [f.write] piece by piece, one call for
    each string that the generators yield.

    The pieces of one item of a dict: the key, [': '] and the value. *)
Definition pair_chunks (kv : string * string) : list string :=
  [encode_basestring (fst kv); ": "; encode_basestring (snd kv)].

(** What [_iterencode_dict(dct, level)] yields. *)
Definition dict_chunks (level : nat) (dct : dict string) : list string :=
  match dct with
  | [] => ["{}"]
  | first :: others =>
      (["{"; newline_indent (S level)] ++ pair_chunks first ++
       flat_map (fun kv => ("," ++ newline_indent (S level))%string
                             :: pair_chunks kv) others ++
       [newline_indent level; "}"])%list
  end.

(** What [_iterencode_list(lst, level)] yields: the bracket or the
    separator comes in one piece with the indentation, in front of the
    pieces of each dict. *)
Definition list_chunks (level : nat) (lst : list (dict string)) : list string :=
  match lst with
  | [] => ["[]"]
  | first :: others =>
      (("[" ++ newline_indent (S level))%string
         :: dict_chunks (S level) first ++
       flat_map (fun d => ("," ++ newline_indent (S level))%string
                            :: dict_chunks (S level) d) others ++
       [newline_indent level; "]"])%list
  end.

(** [JSONEncoder(ensure_ascii=False, indent=2).iterencode(lst)] *)
Definition iterencode (lst : list (dict string)) : list string :=
  list_chunks 0 lst.

(** Every key and every value of the records is text that the codec
    [utf-8] encodes: no [str] of the history holds a surrogate. *)
Definition encodable (lst : list (dict string)) : Prop :=
  Forall (Forall (fun kv => utf8_valid (fst kv) = true /\
                            utf8_valid (snd kv) = true)) lst.

(** *** Decoding *)

#[local] Set Warnings "-register-all".

(** What the decoder builds. A number is kept as it is written: its
    conversion by [int] or [float] plays no part here. *)
Inductive value : Type :=
| Null
| Bool (b : bool)
| Number (lexeme : string)
| Str (s : string)
| Array (items : list value)
| Object (d : dict value).

(** [WHITESPACE_STR = ' \t\n\r'] *)
Definition is_ws (c : ascii) : bool :=
  let n := nat_of_ascii c in
  Nat.eqb n 32 || Nat.eqb n 9 || Nat.eqb n 10 || Nat.eqb n 13.

(** [WHITESPACE.match(s, end).end()] *)
Fixpoint skip_ws (s : string) : string :=
  match s with
  | EmptyString => ""
  | String c rest => if is_ws c then skip_ws rest else s
  end.

Definition hex_value (c : ascii) : option N :=
  let n := N_of_ascii c in
  if (48 <=? n)%N && (n <=? 57)%N then Some (n - 48)%N
  else if (97 <=? n)%N && (n <=? 102)%N then Some (n - 87)%N
  else if (65 <=? n)%N && (n <=? 70)%N then Some (n - 55)%N
  else None.

(** [_decode_uXXXX]: four hexadecimal digits *)
Definition hex4 (a b c d : ascii) : option N :=
  match hex_value a, hex_value b, hex_value c, hex_value d with
  | Some x, Some y, Some z, Some w => Some (x * 4096 + y * 256 + z * 16 + w)%N
  | _, _, _, _ => None
  end.

(** [chr(uni)] as UTF-8 text (a surrogate on its own gets the three
    bytes of the general scheme). *)
Definition chr (uni : N) : string :=
  let byte n := ascii_of_N n in
  (if uni <? 128 then String (byte uni) ""
   else if uni <? 2048 then
     String (byte (192 + uni / 64)) (String (byte (128 + uni mod 64)) "")
   else if uni <? 65536 then
     String (byte (224 + uni / 4096))
       (String (byte (128 + (uni / 64) mod 64))
          (String (byte (128 + uni mod 64)) ""))
   else
     String (byte (240 + uni / 262144))
       (String (byte (128 + (uni / 4096) mod 64))
          (String (byte (128 + (uni / 64) mod 64))
             (String (byte (128 + uni mod 64)) ""))))%N.

(** [BACKSLASH]: the one-letter escapes *)
Definition unescape (esc : ascii) : option ascii :=
  let n := nat_of_ascii esc in
  if Ascii.eqb esc quote then Some quote
  else if Ascii.eqb esc backslash then Some backslash
  else if Ascii.eqb esc "/" then Some "/"%char
  else if Ascii.eqb esc "b" then Some "008"%char
  else if Ascii.eqb esc "f" then Some "012"%char
  else if Ascii.eqb esc "n" then Some "010"%char
  else if Ascii.eqb esc "r" then Some "013"%char
  else if Ascii.eqb esc "t" then Some "009"%char
  else None.

Definition prepend (chunk : string) (r : option (string * string))
    : option (string * string) :=
  match r with
  | Some (content, rest) => Some (chunk ++ content, rest)
  | None => None
  end.

Definition is_high_surrogate (uni : N) : bool :=
  (55296 <=? uni)%N && (uni <=? 56319)%N.

Definition is_low_surrogate (uni : N) : bool :=
  (56320 <=? uni)%N && (uni <=? 57343)%N.

(** [py_scanstring(s, end, strict=True)], from behind the opening quote:
    the decoded content and the text behind the closing quote, or [None]
    where the decoder raises [JSONDecodeError]. *)
Fixpoint scanstring (s : string) : option (string * string) :=
  match s with
  | EmptyString => None                          (* Unterminated string *)
  | String c rest =>
      if Ascii.eqb c quote then Some ("", rest)
      else if Ascii.eqb c backslash then
        match rest with
        | EmptyString => None                    (* Unterminated string *)
        | String esc rest1 =>
            if Ascii.eqb esc "u" then
              match rest1 with
              | String h1 (String h2 (String h3 (String h4 rest5))) =>
                  match hex4 h1 h2 h3 h4 with
                  | None => None                 (* Invalid \uXXXX escape *)
                  | Some uni =>
                      match rest5 with
                      | String b (String u rest7) =>
                          if is_high_surrogate uni && Ascii.eqb b backslash
                             && Ascii.eqb u "u"
                          then
                            match rest7 with
                            | String k1 (String k2 (String k3 (String k4 rest11))) =>
                                match hex4 k1 k2 k3 k4 with
                                | None => None   (* Invalid \uXXXX escape *)
                                | Some uni2 =>
                                    if is_low_surrogate uni2 then
                                      prepend
                                        (chr (65536 + (uni - 55296) * 1024
                                                    + (uni2 - 56320)))
                                        (scanstring rest11)
                                    else prepend (chr uni) (scanstring rest5)
                                end
                            | _ => None          (* Invalid \uXXXX escape *)
                            end
                          else prepend (chr uni) (scanstring rest5)
                      | _ => prepend (chr uni) (scanstring rest5)
                      end
                  end
              | _ => None                        (* Invalid \uXXXX escape *)
              end
            else
              match unescape esc with
              | Some char => prepend (String char "") (scanstring rest1)
              | None => None                     (* Invalid \escape *)
              end
        end
      else if Nat.ltb (nat_of_ascii c) 32 then None  (* Invalid control character *)
      else prepend (String c "") (scanstring rest)
  end.

Definition is_digit (c : ascii) : bool :=
  let n := nat_of_ascii c in Nat.leb 48 n && Nat.leb n 57.

(** The longest run of digits at the start of [s], and what follows. *)
Fixpoint digits (s : string) : string * string :=
  match s with
  | String c rest =>
      if is_digit c then let (ds, r) := digits rest in (String c ds, r)
      else ("", s)
  | EmptyString => ("", "")
  end.

(** [NUMBER_RE]: an optional minus sign, then 0 or a digit from 1 to 9
    with any digits behind it; optionally a point with one digit or more;
    optionally e or E, an optional sign and one digit or more. The lexeme
    matched at the start of [s] and the rest, if there is a match. *)
Definition match_number (s : string) : option (string * string) :=
  let (sign, s1) :=
    match s with
    | String "-" r => ("-", r)
    | _ => ("", s)
    end in
  let integer :=
    match s1 with
    | String c r =>
        if Ascii.eqb c "0" then Some ("0", r)
        else if is_digit c then let (ds, r') := digits r in Some (String c ds, r')
        else None
    | EmptyString => None
    end in
  match integer with
  | None => None
  | Some (int, s2) =>
      let (frac, s3) :=
        match s2 with
        | String "." r =>
            match digits r with
            | (EmptyString, _) => ("", s2)
            | (ds, r') => (String "." ds, r')
            end
        | _ => ("", s2)
        end in
      let (exp, s4) :=
        match s3 with
        | String e r =>
            if Ascii.eqb e "e" || Ascii.eqb e "E" then
              let (sg, r1) :=
                match r with
                | String g r' =>
                    if Ascii.eqb g "+" || Ascii.eqb g "-"
                    then (String g "", r') else ("", r)
                | EmptyString => ("", r)
                end in
              match digits r1 with
              | (EmptyString, _) => ("", s3)
              | (ds, r') => (String e (sg ++ ds), r')
              end
            else ("", s3)
        | EmptyString => ("", s3)
        end in
      Some (sign ++ int ++ frac ++ exp, s4)
  end.

(** [s[idx:idx + len(word)] == word]: the text behind [word], if [s]
    starts with it. *)
Fixpoint after (word s : string) : option string :=
  match word, s with
  | EmptyString, _ => Some s
  | String w word', String c s' =>
      if Ascii.eqb w c then after word' s' else None
  | String _ _, EmptyString => None
  end.

(** [dict(pairs)] *)
Definition dict_of_pairs {V} (pairs : list (string * V)) : dict V :=
  fold_left (fun d kv => setitem d (fst kv) (snd kv)) pairs [].

(** [scan_once(string, idx)] of [py_make_scanner], with [JSONArray] and
    [JSONObject] of [json/decoder.py]; [None] where the decoder raises.
    Each call spends one unit of [fuel]. [array_items] and [object_items]
    are the two [while True] loops, entered in front of a value and in
    front of a key. *)
Fixpoint scan_once (fuel : nat) (s : string) {struct fuel}
    : option (value * string) :=
  match fuel with
  | O => None
  | S fuel' =>
      match s with
      | EmptyString => None                       (* StopIteration *)
      | String c rest =>
          if Ascii.eqb c quote then
            match scanstring rest with
            | Some (content, r) => Some (Str content, r)
            | None => None
            end
          else if Ascii.eqb c "{" then
            match skip_ws rest with
            | String c1 r1 =>
                if Ascii.eqb c1 "}" then Some (Object [], r1)
                else if Ascii.eqb c1 quote then
                  match object_items fuel' r1 with
                  | Some (pairs, r) => Some (Object (dict_of_pairs pairs), r)
                  | None => None
                  end
                else None      (* Expecting property name enclosed in double quotes *)
            | EmptyString => None
            end
          else if Ascii.eqb c "[" then
            match skip_ws rest with
            | String c1 r1 =>
                if Ascii.eqb c1 "]" then Some (Array [], r1)
                else
                  match array_items fuel' (String c1 r1) with
                  | Some (items, r) => Some (Array items, r)
                  | None => None
                  end
            | EmptyString => None                 (* Expecting value *)
            end
          else
            match after "null" s, after "true" s, after "false" s with
            | Some r, _, _ => Some (Null, r)
            | _, Some r, _ => Some (Bool true, r)
            | _, _, Some r => Some (Bool false, r)
            | None, None, None =>
                match match_number s with
                | Some (lexeme, r) => Some (Number lexeme, r)
                | None =>
                    match after "NaN" s, after "Infinity" s, after "-Infinity" s with
                    | Some r, _, _ => Some (Number "NaN", r)
                    | _, Some r, _ => Some (Number "Infinity", r)
                    | _, _, Some r => Some (Number "-Infinity", r)
                    | None, None, None => None    (* StopIteration *)
                    end
                end
            end
      end
  end

with array_items (fuel : nat) (s : string) {struct fuel}
    : option (list value * string) :=
  match fuel with
  | O => None
  | S fuel' =>
      match scan_once fuel' s with
      | None => None                              (* Expecting value *)
      | Some (v, r) =>
          match skip_ws r with
          | String c r1 =>
              if Ascii.eqb c "]" then Some ([v], r1)
              else if Ascii.eqb c "," then
                match array_items fuel' (skip_ws r1) with
                | Some (items, r2) => Some (v :: items, r2)
                | None => None
                end
              else None                           (* Expecting ',' delimiter *)
          | EmptyString => None
          end
      end
  end

with object_items (fuel : nat) (s : string) {struct fuel}
    : option (list (string * value) * string) :=
  match fuel with
  | O => None
  | S fuel' =>
      match scanstring s with
      | None => None
      | Some (key, r) =>
          match skip_ws r with
          | String c r1 =>
              if Ascii.eqb c ":" then
                match scan_once fuel' (skip_ws r1) with
                | None => None                    (* Expecting value *)
                | Some (v, r2) =>
                    match skip_ws r2 with
                    | String c2 r3 =>
                        if Ascii.eqb c2 "}" then Some ([(key, v)], r3)
                        else if Ascii.eqb c2 "," then
                          match skip_ws r3 with
                          | String c3 r4 =>
                              if Ascii.eqb c3 quote then
                                match object_items fuel' r4 with
                                | Some (pairs, r5) => Some ((key, v) :: pairs, r5)
                                | None => None
                                end
                              else None   (* Expecting property name ... *)
                          | EmptyString => None
                          end
                        else None                 (* Expecting ',' delimiter *)
                    | EmptyString => None
                    end
                end
              else None                           (* Expecting ':' delimiter *)
          | EmptyString => None
          end
      end
  end.

(** [json.loads(s)]: [JSONDecoder.decode], which wants one value between
    optional white space and nothing else; a text that starts with a byte
    order mark is refused. The fuel is twice the length of the text and
    two more; [JsonFacts.loads_dump] shows that it is enough for every
    text that [dump] writes. *)
Definition loads (s : string) : option value :=
  match after (String "239" (String "187" (String "191" ""))) s with
  | Some _ => None
  | None =>
      match scan_once (2 * String.length s + 2) (skip_ws s) with
      | Some (v, r) =>
          match skip_ws r with
          | EmptyString => Some v
          | String _ _ => None                    (* Extra data *)
          end
      | None => None
      end
  end.

(** The values that are lists of dicts from [str] to [str]. *)
Definition as_str (v : value) : option string :=
  match v with
  | Str s => Some s
  | _ => None
  end.

Fixpoint as_str_dict (d : dict value) : option (dict string) :=
  match d with
  | [] => Some []
  | (k, v) :: rest =>
      match as_str v, as_str_dict rest with
      | Some s, Some rest' => Some ((k, s) :: rest')
      | _, _ => None
      end
  end.

Fixpoint as_dicts (items : list value) : option (list (dict string)) :=
  match items with
  | [] => Some []
  | Object d :: rest =>
      match as_str_dict d, as_dicts rest with
      | Some d', Some rest' => Some (d' :: rest')
      | _, _ => None
      end
  | _ :: _ => None
  end.

Definition as_history (v : value) : option (list (dict string)) :=
  match v with
  | Array items => as_dicts items
  | _ => None
  end.

(** A list of dicts from [str] to [str] as a value. *)
Definition to_pair (kv : string * string) : string * value :=
  (fst kv, Str (snd kv)).

Definition to_object (d : dict string) : value :=
  Object (dict_of_pairs (map to_pair d)).

(** Fuel that is enough for [array_items] on the text of these dicts. *)
Fixpoint need (ds : list (dict string)) : nat :=
  match ds with
  | [] => 0
  | d :: rest => S (Nat.max (List.length d + 2) (need rest))
  end.

End Json.
(** ** core/ping_monitor.py *)

Module Monitor.
Import Py.
Local Open Scope py_scope.

(** [datetime]: an instant, as the clock hands it out. *)
Definition datetime : Type := Z.

(** [@dataclass class IPStatus]. [response_time] is a Python [float]
    (binary64), [consecutive_failures] an unbounded Python [int]. *)
Record IPStatus : Type := mkIPStatus {
  ip : string;
  is_online : bool;
  response_time : float;
  last_success : option datetime;
  last_failure : option datetime;
  consecutive_failures : Z;
  group : string
}.

(** The records sent to [self.logger], one constructor per call site, with
    the values its f-string interpolates. *)
Inductive log_record : Type :=
| Info_added (ip group : string)            (* info:    添加IP地址: {ip} (组: {group}) *)
| Info_removed (ip : string)                (* info:    移除IP地址: {ip} *)
| Warning_failures (ip : string) (n : Z)    (* warning: IP {ip} 连续失败 {n} 次 *)
| Error_ping (ip : string) (e : exn)        (* error:   Ping {ip} 时发生错误: {str(e)} *)
| Info_started                              (* info:    监控已启动 *)
| Info_stopped.                             (* info:    监控已停止 *)

(** What [ping3.ping(ip, timeout=...)] does: it returns the round trip
    in seconds, [None] when no reply came in time, or [False] when the
    probe failed otherwise (the name does not resolve, the destination
    is unreachable, the time to live ran out), or it raises. *)
Inductive ping_result : Type :=
| Reply (seconds : float)
| NoReply
| ReturnsFalse
| Raises (e : exn).

(** A registered callable [Callable[[str, IPStatus], None]]: given the
    number of the probe it is called for and its two arguments, it returns
    ([None]) or raises ([Some e]). The probe number lets one callable behave
    differently from call to call. Callbacks observe; they do not write to
    the monitor or to the status they are handed. That is the callback
    the program registers, [MainWindow.on_status_update], which reads
    the status and writes to the alert manager; a callable that changed
    the registry is outside this model. *)
Definition callback : Type := nat -> string -> IPStatus -> option exn.

(** The outside world of the monitor: the answer of the [n]-th call of
    [ping3.ping], the instant [datetime.now()] returns during the [n]-th
    probe, and what the operating system does with a pause of a given
    length: it returns when the pause is over ([None]) or refuses the
    length, which reaches Python as an [OSError]. *)
Record Env : Type := mkEnv {
  ping3_ping : nat -> string -> float -> ping_result;
  datetime_now : nat -> datetime;
  os_sleep : float -> option exn
}.

(** What an execution does, oldest first: the [n]-th call of [ping3.ping],
    the call of the [i]-th registered callback with its arguments, the
    call of [time.sleep], and two marks of the controlling thread: it called
    [start()], its call of [stop()] returned. *)
Inductive event : Type :=
| EvPing (n : nat) (ip : string)
| EvCallback (i : nat) (ip : string) (status : IPStatus)
| EvSleep (seconds : float)
| EvStartCalled
| EvStopReturned.

(** [class PingMonitor]: the attributes set by [__init__], the records
    written to [self.logger] (oldest first), and two ghost fields: the
    number of probes issued so far and the trace of events. The thread
    behind [_monitor_thread] is named by its index in the thread table of
    [Threads]; [_status_queue] is never used and is left out. *)
Record PingMonitor : Type := mkPingMonitor {
  timeout : float;
  interval : float;
  failure_threshold : Z;
  monitored_ips : dict IPStatus;
  _stop_event : bool;
  _monitor_thread : option nat;
  _callbacks : list callback;
  logger : list log_record;
  probes : nat;
  trace : list event
}.

(** [PingMonitor(timeout, interval, failure_threshold)] *)
Definition __init__ (timeout interval : float) (failure_threshold : Z) : PingMonitor :=
  {| timeout := timeout; interval := interval;
     failure_threshold := failure_threshold;
     monitored_ips := []; _stop_event := false; _monitor_thread := None;
     _callbacks := []; logger := []; probes := 0; trace := [] |}.

Definition set_monitored_ips (d : dict IPStatus) (self : PingMonitor) : PingMonitor :=
  {| timeout := timeout self; interval := interval self;
     failure_threshold := failure_threshold self;
     monitored_ips := d; _stop_event := _stop_event self;
     _monitor_thread := _monitor_thread self;
     _callbacks := _callbacks self; logger := logger self;
     probes := probes self; trace := trace self |}.

Definition set_stop_event (b : bool) (self : PingMonitor) : PingMonitor :=
  {| timeout := timeout self; interval := interval self;
     failure_threshold := failure_threshold self;
     monitored_ips := monitored_ips self; _stop_event := b;
     _monitor_thread := _monitor_thread self;
     _callbacks := _callbacks self; logger := logger self;
     probes := probes self; trace := trace self |}.

Definition set_monitor_thread (t : option nat) (self : PingMonitor) : PingMonitor :=
  {| timeout := timeout self; interval := interval self;
     failure_threshold := failure_threshold self;
     monitored_ips := monitored_ips self; _stop_event := _stop_event self;
     _monitor_thread := t;
     _callbacks := _callbacks self; logger := logger self;
     probes := probes self; trace := trace self |}.

Definition set_callbacks (l : list callback) (self : PingMonitor) : PingMonitor :=
  {| timeout := timeout self; interval := interval self;
     failure_threshold := failure_threshold self;
     monitored_ips := monitored_ips self; _stop_event := _stop_event self;
     _monitor_thread := _monitor_thread self;
     _callbacks := l; logger := logger self;
     probes := probes self; trace := trace self |}.

(** [self.logger.<level>(...)] *)
Definition log (r : log_record) (self : PingMonitor) : PingMonitor :=
  {| timeout := timeout self; interval := interval self;
     failure_threshold := failure_threshold self;
     monitored_ips := monitored_ips self; _stop_event := _stop_event self;
     _monitor_thread := _monitor_thread self;
     _callbacks := _callbacks self; logger := logger self ++ [r];
     probes := probes self; trace := trace self |}.

Definition emit (ev : event) (self : PingMonitor) : PingMonitor :=
  {| timeout := timeout self; interval := interval self;
     failure_threshold := failure_threshold self;
     monitored_ips := monitored_ips self; _stop_event := _stop_event self;
     _monitor_thread := _monitor_thread self;
     _callbacks := _callbacks self; logger := logger self;
     probes := probes self; trace := trace self ++ [ev] |}.

Definition count_probe (self : PingMonitor) : PingMonitor :=
  {| timeout := timeout self; interval := interval self;
     failure_threshold := failure_threshold self;
     monitored_ips := monitored_ips self; _stop_event := _stop_event self;
     _monitor_thread := _monitor_thread self;
     _callbacks := _callbacks self; logger := logger self;
     probes := S (probes self); trace := trace self |}.

(** The [IPStatus] that [add_ip] constructs. *)
Definition fresh_status (ip group : string) : IPStatus :=
  {| ip := ip; is_online := false; response_time := 0%float;
     last_success := None; last_failure := None;
     consecutive_failures := 0; group := group |}.

(** The status [add_ip] inserts, field by field. *)
Definition is_fresh (ip group : string) (status : IPStatus) : Prop :=
  Monitor.ip status = ip /\ is_online status = false /\
  consecutive_failures status = 0%Z /\ response_time status = 0%float /\
  last_success status = None /\ last_failure status = None /\
  Monitor.group status = group.

(** The invariant of the data model: an online host has no failures and a
    response time that is not negative, an offline host has response time
    0, and the failure count is never negative. *)
Definition status_inv (status : IPStatus) : Prop :=
  (is_online status = true ->
     consecutive_failures status = 0%Z /\
     (0 <=? response_time status)%float = true) /\
  (is_online status = false -> response_time status = 0%float) /\
  (0 <= consecutive_failures status)%Z.

(** [def add_ip(self, ip, group="默认")] *)
Definition add_ip (ip group : string) (self : PingMonitor) : PingMonitor :=
  if negb (contains (monitored_ips self) ip) then
    log (Info_added ip group)
      (set_monitored_ips (setitem (monitored_ips self) ip (fresh_status ip group)) self)
  else self.

Definition default_group : string := "默认".

(** [def remove_ip(self, ip)] *)
Definition remove_ip (ip : string) (self : PingMonitor) : PingMonitor :=
  if contains (monitored_ips self) ip then
    log (Info_removed ip)
      (set_monitored_ips (delitem (monitored_ips self) ip) self)
  else self.

(** [def register_callback(self, callback)] *)
Definition register_callback (cb : callback) (self : PingMonitor) : PingMonitor :=
  set_callbacks (_callbacks self ++ [cb]) self.

(** [def get_status(self, ip)] *)
Definition get_status (ip : string) (self : PingMonitor) : option IPStatus :=
  lookup (monitored_ips self) ip.

(** [def get_all_status(self)]: a shallow copy of the dict. *)
Definition get_all_status (self : PingMonitor) : dict IPStatus :=
  monitored_ips self.

(** Lines 75-78: the four assignments of the reply branch. *)
Definition on_reply (seconds : float) (now : datetime) (status : IPStatus) : IPStatus :=
  {| ip := ip status; is_online := true;
     response_time := (seconds * 1000)%float;
     last_success := Some now; last_failure := last_failure status;
     consecutive_failures := 0; group := group status |}.

(** [False] where a number is expected. The product [False * 1000] of
    line 76 is the [int] 0; the [float] field holds it as the 0.0 that
    it equals. *)
Definition False_as_number : float := 0%float.

(** Lines 80-83: the four assignments of the no-reply branch. *)
Definition on_no_reply (now : datetime) (status : IPStatus) : IPStatus :=
  {| ip := ip status; is_online := false; response_time := 0%float;
     last_success := last_success status; last_failure := Some now;
     consecutive_failures := consecutive_failures status + 1;
     group := group status |}.

(** The lengths that [time.sleep(secs)] refuses by itself, before any
    pause (CPython 3.11). It converts [secs] to a whole number of
    nanoseconds in 64 bits, which fails for a NaN and for a product
    outside the range from -2^63 to 2^63, and then wants the number not
    to be negative; the product 2^63 itself passes the range test and
    comes out of the conversion as -2^63. *)
Definition sleep_length_error (secs : float) : option exn :=
  let ns := (secs * 1e9)%float in
  if is_nan secs then
    Some (Raised "ValueError" "Invalid value NaN (not a number)")
  else if (ns <? - 0x1p63)%float || (0x1p63 <? ns)%float then
    Some (Raised "OverflowError" "timestamp too large to convert to C _PyTime_t")
  else if (secs <? 0)%float || (ns =? 0x1p63)%float then
    Some (Raised "ValueError" "sleep length must be non-negative")
  else None.

Section WithEnv.

Variable env : Env.

(** [time.sleep(secs)]: it returns ([None]) or raises. *)
Definition time_sleep (secs : float) : option exn :=
  match sleep_length_error secs with
  | Some e => Some e
  | None => os_sleep env secs
  end.

(** [ping3.ping(ip, timeout=self.timeout)]: the call is counted and
    recorded, then it returns or raises as the oracle says. The probe
    number comes back with the answer, which is [None] for [None] and
    the number for a number. [False] is a number: [bool] is a subclass
    of [int] and [False] is 0, so the test of line 74 takes it for a
    reply and line 76 multiplies it like one. *)
Definition call_ping (ip : string) : M PingMonitor (nat * option float) :=
  fun self =>
    let n := probes self in
    let self' := count_probe (emit (EvPing n ip) self) in
    match ping3_ping env n ip (timeout self) with
    | Reply seconds => (inr (n, Some seconds), self')
    | NoReply => (inr (n, None), self')
    | ReturnsFalse => (inr (n, Some False_as_number), self')
    | Raises e => (inl e, self')
    end.

(** [self.monitored_ips[ip]] *)
Definition getitem_status (ip : string) : M PingMonitor IPStatus :=
  fun self =>
    match lookup (monitored_ips self) ip with
    | Some status => (inr status, self)
    | None => (inl (KeyError ip), self)
    end.

(** The attribute assignments on [status], which is the object stored in
    the dict: the entry changes in place. *)
Definition assign_status (ip : string) (status : IPStatus) : M PingMonitor unit :=
  modify (fun self => set_monitored_ips (setitem (monitored_ips self) ip status) self).

(** [callback(ip, status)] for the [i]-th registered callback. *)
Definition invoke (n : nat) (ip : string) (status : IPStatus)
    (icb : nat * callback) : M PingMonitor unit :=
  fun self =>
    let self' := emit (EvCallback (fst icb) ip status) self in
    match snd icb n ip status with
    | None => (inr tt, self')
    | Some e => (inl e, self')
    end.

(** The callbacks that the loop of lines 89-90 reaches during probe [n]:
    those up to and including the first one that raises. *)
Fixpoint called (n : nat) (ip : string) (status : IPStatus)
    (l : list (nat * callback)) : list (nat * callback) :=
  match l with
  | [] => []
  | icb :: rest =>
      icb :: match snd icb n ip status with
             | None => called n ip status rest
             | Some _ => []
             end
  end.

(** The exception of the first callback that raises, if one does. *)
Fixpoint first_raise (n : nat) (ip : string) (status : IPStatus)
    (l : list (nat * callback)) : option exn :=
  match l with
  | [] => None
  | icb :: rest =>
      match snd icb n ip status with
      | None => first_raise n ip status rest
      | Some e => Some e
      end
  end.

Definition emits (evs : list event) (self : PingMonitor) : PingMonitor :=
  fold_left (fun s ev => emit ev s) evs self.

(** The events of the callbacks that probe [n] reaches. *)
Definition callback_events (n : nat) (ip : string) (status : IPStatus)
    (l : list (nat * callback)) : list event :=
  map (fun icb => EvCallback (fst icb) ip status) (called n ip status l).

(** The monitor after the probe of a registered host has updated its
    status to [status'] and the callbacks have run. *)
Definition probed (self : PingMonitor) (ip : string) (status' : IPStatus)
    (warn : bool) : PingMonitor :=
  let n := probes self in
  let cbs := enumerate (_callbacks self) in
  {| timeout := timeout self; interval := interval self;
     failure_threshold := failure_threshold self;
     monitored_ips := setitem (monitored_ips self) ip status';
     _stop_event := _stop_event self;
     _monitor_thread := _monitor_thread self;
     _callbacks := _callbacks self;
     logger :=
       (logger self ++
        if warn then [Warning_failures ip (consecutive_failures status')] else []) ++
       match first_raise n ip status' cbs with
       | None => []
       | Some e => [Error_ping ip e]
       end;
     probes := S n;
     trace := trace self ++ EvPing n ip :: callback_events n ip status' cbs |}.

(** The monitor after a probe that ended in the exception [e] before any
    status was touched. *)
Definition probe_failed (self : PingMonitor) (ip : string) (e : exn) : PingMonitor :=
  log (Error_ping ip e) (count_probe (emit (EvPing (probes self) ip) self)).

(** [def _ping_ip(self, ip)] *)
Definition _ping_ip (ip : string) : M PingMonitor unit :=
  try_except
    (r <- call_ping ip ;;
     status <- getitem_status ip ;;
     status' <-
       match snd r with
       | Some seconds =>
           let status' := on_reply seconds (datetime_now env (fst r)) status in
           assign_status ip status' ;;;
           ret status'
       | None =>
           let status' := on_no_reply (datetime_now env (fst r)) status in
           assign_status ip status' ;;;
           threshold <- (fun self => (inr (failure_threshold self), self)) ;;
           when (threshold <=? consecutive_failures status')%Z
             (modify (log (Warning_failures ip (consecutive_failures status')))) ;;;
           ret status'
       end ;;
     callbacks <- (fun self => (inr (_callbacks self), self)) ;;
     for_each (invoke (fst r) ip status') (enumerate callbacks))
    (fun e => modify (log (Error_ping ip e))).

(** *** The worker thread and the thread that controls it

    [_monitor_loop] runs in a thread of its own; it is cut into the steps
    between which another thread can run. *)
Inductive worker_pc : Type :=
| AtWhile                                  (* line 97: about to test the [while] condition *)
| AtFor (rest : list string)               (* lines 98-99: hosts of the snapshot still to visit *)
| AtPing (ip : string) (rest : list string) (* line 101: the stop test was negative *)
| AtSleep                                  (* line 102 *)
| Finished                                 (* [_monitor_loop] returned *)
| Died (e : exn).                          (* an exception left [_monitor_loop] *)

(** [Thread.is_alive()] *)
Definition is_alive (pc : worker_pc) : bool :=
  match pc with
  | Finished | Died _ => false
  | _ => true
  end.

(** One step of [def _monitor_loop(self)]; [None] when the thread is
    dead. [_ping_ip] catches what is raised inside it; [time.sleep] in
    line 102 is inside no [try], so what it raises leaves [_monitor_loop]
    and ends the thread. *)
Definition _monitor_loop_step (pc : worker_pc) (self : PingMonitor)
    : option (worker_pc * PingMonitor) :=
  match pc with
  | AtWhile =>
      if negb (_stop_event self)
      then Some (AtFor (keys (monitored_ips self)), self)
      else Some (Finished, self)
  | AtFor [] => Some (AtSleep, self)
  | AtFor (ip :: rest) =>
      if _stop_event self then Some (AtSleep, self)      (* break *)
      else Some (AtPing ip rest, self)
  | AtPing ip rest =>
      match _ping_ip ip self with
      | (inr _, self') => Some (AtFor rest, self')
      | (inl e, self') => Some (Died e, self')
      end
  | AtSleep =>
      let self' := emit (EvSleep (interval self)) self in
      match time_sleep (interval self) with
      | None => Some (AtWhile, self')
      | Some e => Some (Died e, self')
      end
  | Finished | Died _ => None
  end.

(** The calls the controlling thread (the GUI) makes on the monitor. *)
Inductive call : Type :=
| Start
| Stop
| AddIp (ip group : string)
| RemoveIp (ip : string)
| RegisterCallback (cb : callback).

(** The monitor object, the table of the threads created so far (a
    [Thread] is named by its index), the calls the controlling thread
    still has to make, and whether it is inside [stop()], past line 115. *)
Record system : Type := mkSystem {
  monitor : PingMonitor;
  threads : list worker_pc;
  script : list call;
  in_stop : bool
}.

Definition thread_alive (threads : list worker_pc) (tid : nat) : bool :=
  is_alive (nth tid threads Finished).

(** [def start(self)] *)
Definition start (sys : system) : system :=
  let self := emit EvStartCalled (monitor sys) in
  if match _monitor_thread self with
     | None => true
     | Some tid => negb (thread_alive (threads sys) tid)
     end
  then
    let tid := List.length (threads sys) in
    {| monitor := log Info_started
                    (set_monitor_thread (Some tid) (set_stop_event false self));
       threads := threads sys ++ [AtWhile];
       script := script sys; in_stop := in_stop sys |}
  else
    {| monitor := self; threads := threads sys;
       script := script sys; in_stop := in_stop sys |}.

(** [def stop(self)], line 115: [self._stop_event.set()] *)
Definition stop_set (sys : system) : system :=
  {| monitor := set_stop_event true (monitor sys); threads := threads sys;
     script := script sys; in_stop := true |}.

(** [def stop(self)], lines 116-119. [join()] returns once the thread is
    dead; until then the caller is blocked ([None]). *)
Definition stop_join (sys : system) : option system :=
  let self := monitor sys in
  let finish self' :=
    {| monitor := emit EvStopReturned (log Info_stopped self');
       threads := threads sys; script := script sys; in_stop := false |} in
  match _monitor_thread self with
  | Some tid =>
      if thread_alive (threads sys) tid then None
      else Some (finish (set_monitor_thread None self))
  | None => Some (finish self)
  end.

Definition with_monitor (f : PingMonitor -> PingMonitor) (sys : system) : system :=
  {| monitor := f (monitor sys); threads := threads sys;
     script := script sys; in_stop := in_stop sys |}.

Definition pop_script (sys : system) : system :=
  {| monitor := monitor sys; threads := threads sys;
     script := tl (script sys); in_stop := in_stop sys |}.

(** One step of the controlling thread: it finishes the [stop()] it is in,
    or makes its next call. A blocked or idle controller stays as it is. *)
Definition controller_step (sys : system) : system :=
  if in_stop sys then
    match stop_join sys with
    | Some sys' => sys'
    | None => sys
    end
  else
    match script sys with
    | [] => sys
    | Start :: _ => start (pop_script sys)
    | Stop :: _ => stop_set (pop_script sys)
    | AddIp ip group :: _ => with_monitor (add_ip ip group) (pop_script sys)
    | RemoveIp ip :: _ => with_monitor (remove_ip ip) (pop_script sys)
    | RegisterCallback cb :: _ => with_monitor (register_callback cb) (pop_script sys)
    end.

Fixpoint set_nth {A} (n : nat) (x : A) (l : list A) : list A :=
  match l, n with
  | [], _ => []
  | _ :: rest, O => x :: rest
  | y :: rest, S n' => y :: set_nth n' x rest
  end.

(** Who moves next: the controlling thread or the thread [tid]. *)
Inductive actor : Type :=
| Controller
| Worker (tid : nat).

Definition step (a : actor) (sys : system) : system :=
  match a with
  | Controller => controller_step sys
  | Worker tid =>
      match nth_error (threads sys) tid with
      | Some pc =>
          match _monitor_loop_step pc (monitor sys) with
          | Some (pc', self') =>
              {| monitor := self'; threads := set_nth tid pc' (threads sys);
                 script := script sys; in_stop := in_stop sys |}
          | None => sys
          end
      | None => sys
      end
  end.

(** An execution: the schedule says who moves at each step. *)
Definition run (schedule : list actor) (sys : system) : system :=
  fold_left (fun s a => step a s) schedule sys.

(** A program: a new monitor and the calls the controlling thread makes. *)
Definition boot (timeout interval : float) (failure_threshold : Z)
    (script : list call) : system :=
  {| monitor := __init__ timeout interval failure_threshold;
     threads := []; script := script; in_stop := false |}.

(** [n] probes of one host in a row. *)
Fixpoint ping_times (n : nat) (ip : string) (self : PingMonitor) : PingMonitor :=
  match n with
  | O => self
  | S n' => ping_times n' ip (snd (_ping_ip ip self))
  end.

End WithEnv.

(** Every status in the registry satisfies the invariant. *)
Definition registry_ok (self : PingMonitor) : Prop :=
  Forall (fun kv => status_inv (snd kv)) (monitored_ips self).

(** Every round trip that [ping3.ping] reports is zero or more. *)
Definition latencies_nonnegative (env : Env) : Prop :=
  forall n ip timeout seconds,
    ping3_ping env n ip timeout = Reply seconds ->
    (0 <=? seconds)%float = true.

(** Reading a trace from its start. The first component tells whether
    the last mark of the controlling thread is a return of [stop()], the
    second whether no [ping3.ping] was called while that was so. *)
Definition watch (st : bool * bool) (ev : event) : bool * bool :=
  match ev with
  | EvStopReturned => (true, snd st)
  | EvStartCalled => (false, snd st)
  | EvPing _ _ => (fst st, snd st && negb (fst st))
  | _ => st
  end.

Definition watched (tr : list event) : bool * bool :=
  fold_left watch tr (false, true).

(** No probe after [stop()] has returned, until [start()] is called
    again. *)
Definition silent_after_stop (tr : list event) : Prop :=
  forall pre post,
    tr = pre ++ EvStopReturned :: post ->
    ~ In EvStartCalled post ->
    forall n ip, ~ In (EvPing n ip) post.

(** The events a worker thread produces. *)
Definition worker_event (ev : event) : Prop :=
  match ev with
  | EvStartCalled | EvStopReturned => False
  | _ => True
  end.

(** What holds of the monitor and its threads throughout: a live thread
    is the one [_monitor_thread] refers to, after a return of [stop()]
    [_monitor_thread] is [None], and no probe fell into such a period. *)
Definition threads_ok (sys : system) : Prop :=
  (forall tid, thread_alive (threads sys) tid = true ->
               _monitor_thread (monitor sys) = Some tid) /\
  (fst (watched (trace (monitor sys))) = true ->
   _monitor_thread (monitor sys) = None) /\
  snd (watched (trace (monitor sys))) = true.

End Monitor.

(** ** core/alert_manager.py *)

Module Alerts.
Import Py.
Local Open Scope py_scope.

(** [@dataclass class AlertConfig]. [email_recipients] is the list that
    [_load_config] leaves there ([None] has become a list). *)
Record AlertConfig : Type := mkAlertConfig {
  email_enabled : bool;
  email_smtp_server : string;
  email_smtp_port : Z;
  email_username : string;
  email_password : string;
  email_recipients : list string;
  desktop_notification : bool;
  sound_alert : bool;
  sound_file : string
}.

(** [AlertConfig()] *)
Definition default_config : AlertConfig :=
  {| email_enabled := false; email_smtp_server := ""; email_smtp_port := 587;
     email_username := ""; email_password := ""; email_recipients := [];
     desktop_notification := true; sound_alert := true; sound_file := "" |}.

(** An element of [alert_history]: a dict from [str] to [str]. *)
Definition alert_dict : Type := dict string.

(** The records sent to [self.logger], one constructor per call site. *)
Inductive alert_log : Type :=
| Error_desktop (e : exn)           (* error: 发送桌面通知失败: {str(e)} *)
| Error_sound (e : exn)             (* error: 播放声音报警失败: {str(e)} *)
| Info_email_sent (ip : string)     (* info:  邮件报警已发送: {ip} *)
| Error_email (e : exn)             (* error: 发送邮件报警失败: {str(e)} *)
| Info_saved (filepath : string)    (* info:  报警历史记录已保存到: {filepath} *)
| Error_save (e : exn)              (* error: 保存报警历史记录失败: {str(e)} *)
| Info_loaded (filepath : string)   (* info:  已从 {filepath} 加载报警历史记录 *)
| Error_load (e : exn).             (* error: 加载报警历史记录失败: {str(e)} *)

(** The [MIMEMultipart] message of [_send_email_alert]. *)
Record email : Type := mkEmail {
  msg_from : string;
  msg_to : string;
  msg_subject : string;
  msg_body : string
}.

(** The calls that reach a channel, oldest first. *)
Inductive alert_event : Type :=
| EvNotify (title message app_name : string)
| EvPlaySound (file : string)
| EvBeep (frequency duration : Z)
| EvSmtpConnect (server : string) (port : Z)
| EvStartTls
| EvLogin (username password : string)
| EvSendMessage (msg : email)
| EvSmtpQuit.

(** The three channels. *)
Inductive channel : Type := Desktop | Sound | Email.

(** The channel an event belongs to, for the call that opens the
    channel's attempt. *)
Definition opens (ev : alert_event) : option channel :=
  match ev with
  | EvNotify _ _ _ => Some Desktop
  | EvPlaySound _ | EvBeep _ _ => Some Sound
  | EvSmtpConnect _ _ => Some Email
  | _ => None
  end.

(** The outside world of the alert manager. The first argument of a
    channel call is the number of the [send_alert] it happens in;
    [None] means the call returns, [Some e] that it raises [e]. *)
Record AlertEnv : Type := mkAlertEnv {
  now_isoformat : nat -> string;      (* datetime.now().isoformat() *)
  now_strftime : nat -> string;       (* datetime.now().strftime('%Y-%m-%d %H:%M:%S') *)
  notification_notify : nat -> string -> string -> string -> option exn;
  winsound_PlaySound : nat -> string -> option exn;
  winsound_Beep : nat -> Z -> Z -> option exn;
  smtplib_SMTP : nat -> string -> Z -> option exn;
  smtp_starttls : nat -> option exn;
  smtp_login : nat -> string -> string -> option exn;
  smtp_send_message : nat -> email -> option exn;
  smtp_quit : nat -> option exn;
  open_error : string -> string -> option exn; (* open(filepath, mode) *)
  windows : bool                               (* os.linesep is '\r\n' *)
}.

(** [class AlertManager]: its attributes, the records written to
    [self.logger], and two ghost fields, the number of [send_alert] calls
    so far and the trace of channel calls. *)
Record AlertManager : Type := mkAlertManager {
  config : AlertConfig;
  alert_history : list alert_dict;
  logger : list alert_log;
  alerts : nat;
  trace : list alert_event
}.

(** The manager and the files it can see: their content by path. *)
Record World : Type := mkWorld {
  self : AlertManager;
  files : dict string
}.

Definition on_self (f : AlertManager -> AlertManager) : M World unit :=
  modify (fun w => {| self := f (self w); files := files w |}).

Definition write_log (r : alert_log) : M World unit :=
  on_self (fun m =>
    {| config := config m; alert_history := alert_history m;
       logger := logger m ++ [r]; alerts := alerts m; trace := trace m |}).

Definition set_history (h : list alert_dict) (m : AlertManager) : AlertManager :=
  {| config := config m; alert_history := h;
     logger := logger m; alerts := alerts m; trace := trace m |}.

(** A call of foreign code: it is recorded, then returns or raises. *)
Definition foreign_call (ev : alert_event) (outcome : option exn)
    : M World unit :=
  fun w =>
    let m := self w in
    let w' := {| self := {| config := config m; alert_history := alert_history m;
                            logger := logger m; alerts := alerts m;
                            trace := trace m ++ [ev] |};
                 files := files w |} in
    match outcome with
    | None => (inr tt, w')
    | Some e => (inl e, w')
    end.

(** The number of the [send_alert] call that begins. *)
Definition begin_alert : M World nat :=
  fun w =>
    let m := self w in
    (inr (alerts m),
     {| self := {| config := config m; alert_history := alert_history m;
                   logger := logger m; alerts := S (alerts m);
                   trace := trace m |};
        files := files w |}).

(** Truth value of a [str] and of a [list]. *)
Definition truthy (s : string) : bool := negb (String.eqb s "").

Definition nonempty {A} (l : list A) : bool :=
  match l with [] => false | _ => true end.

(** [os.path.exists(path)] *)
Definition os_path_exists (path : string) (w : World) : bool :=
  contains (files w) path.

Definition nl : string := String LF "".

(** The channels that a run of events attempts, in order. *)
Fixpoint attempts (evs : list alert_event) : list channel :=
  match evs with
  | [] => []
  | ev :: rest =>
      match opens ev with
      | Some ch => ch :: attempts rest
      | None => attempts rest
      end
  end.

(** The channels that the configuration switches on: the desktop and the
    sound by their flags, the email by its flag and a recipient. *)
Definition enabled (c : AlertConfig) : list channel :=
  (if desktop_notification c then [Desktop] else []) ++
  (if sound_alert c then [Sound] else []) ++
  (if email_enabled c && nonempty (email_recipients c) then [Email] else []).

(** [w'] is [w] after the channel calls [evs] and some log records;
    nothing else differs. *)
Definition extends (w w' : World) (evs : list alert_event) : Prop :=
  files w' = files w /\ config (self w') = config (self w) /\
  alert_history (self w') = alert_history (self w) /\
  alerts (self w') = alerts (self w) /\
  trace (self w') = trace (self w) ++ evs /\
  exists records, logger (self w') = logger (self w) ++ records.

Section WithEnv.

Variable env : AlertEnv.

(** [with smtplib.SMTP(server, port) as server: body]: leaving the block
    sends QUIT, also when [body] raised; an exception of the exit wins. *)
Definition with_smtp (n : nat) (server : string) (port : Z)
    (body : M World unit) : M World unit :=
  foreign_call (EvSmtpConnect server port) (smtplib_SMTP env n server port) ;;;
  (fun w =>
     match body w with
     | (r, w1) =>
         match foreign_call EvSmtpQuit (smtp_quit env n) w1 with
         | (inl e, w2) => (inl e, w2)
         | (inr _, w2) => (r, w2)
         end
     end).

(** [def _send_email_alert(self, ip, message)], called in the [n]-th
    [send_alert] *)
Definition _send_email_alert (n : nat) (ip message : string) : M World unit :=
  try_except
    (w <- get ;;
     let c := config (self w) in
     let msg :=
       {| msg_from := email_username c;
          msg_to := String.concat ", " (email_recipients c);
          msg_subject := ("IP监控报警 - " ++ ip)%string;
          msg_body :=
            (nl ++ "            IP地址: " ++ ip ++
             nl ++ "            时间: " ++ now_strftime env n ++
             nl ++ "            报警信息: " ++ message ++
             nl ++ "            ")%string |} in
     with_smtp n (email_smtp_server c) (email_smtp_port c)
       (foreign_call EvStartTls (smtp_starttls env n) ;;;
        foreign_call (EvLogin (email_username c) (email_password c))
          (smtp_login env n (email_username c) (email_password c)) ;;;
        foreign_call (EvSendMessage msg) (smtp_send_message env n msg)) ;;;
     write_log (Info_email_sent ip))
    (fun e => write_log (Error_email e)).

(** The dict that [send_alert] builds. *)
Definition alert_data (timestamp ip message alert_type : string) : alert_dict :=
  [("timestamp", timestamp); ("ip", ip); ("message", message);
   ("type", alert_type)].

(** [def send_alert(self, ip, message, alert_type="error")] *)
Definition send_alert (ip message alert_type : string) : M World unit :=
  n <- begin_alert ;;
  on_self (fun m =>
    set_history
      (alert_history m ++ [alert_data (now_isoformat env n) ip message alert_type])
      m) ;;;
  w <- get ;;
  let c := config (self w) in
  when (desktop_notification c)
    (try_except
       (foreign_call
          (EvNotify ("IP监控报警 - " ++ ip)%string message "IP Ping Monitor")
          (notification_notify env n ("IP监控报警 - " ++ ip)%string message
             "IP Ping Monitor"))
       (fun e => write_log (Error_desktop e))) ;;;
  when (sound_alert c)
    (try_except
       (if truthy (sound_file c) && os_path_exists (sound_file c) w
        then foreign_call (EvPlaySound (sound_file c))
               (winsound_PlaySound env n (sound_file c))
        else foreign_call (EvBeep 1000 1000) (winsound_Beep env n 1000 1000))
       (fun e => write_log (Error_sound e))) ;;;
  when (email_enabled c && nonempty (email_recipients c))
    (_send_email_alert n ip message).

Definition default_alert_type : string := "error".

(** [l[start:]] for a Python list of length [len(l)]: a negative [start]
    counts from the end, and both ends are clipped. *)
Definition slice_from {A} (start : Z) (l : list A) : list A :=
  let len := Z.of_nat (List.length l) in
  let first :=
    if (start <? 0)%Z then Z.max (start + len) 0 else Z.min start len in
  skipn (Z.to_nat first) l.

(** The last [n] elements of [l], in their order; all of [l] when it has
    fewer. *)
Definition last_records {A} (n : nat) (l : list A) : list A :=
  skipn (List.length l - n) l.

(** [def get_alert_history(self, limit=100)] *)
Definition get_alert_history (limit : Z) (m : AlertManager) : list alert_dict :=
  slice_from (- limit) (alert_history m).

(** [def clear_alert_history(self)] *)
Definition clear_alert_history (m : AlertManager) : AlertManager :=
  set_history [] m.

(** [open(filepath, "w", encoding="utf-8")], the writes of [json.dump]
    and the close at the end of the [with] block. Opening creates or
    empties the file; then the chunks go in, line ends translated, up to
    the first one that the codec refuses, whose exception leaves the
    block after the file is closed. *)
Definition write_text (filepath : string) (chunks : list string)
    : M World unit :=
  fun w =>
    match open_error env filepath "w" with
    | Some e => (inl e, w)
    | None =>
        let (text, raised) := write_chunks chunks in
        let w' :=
          {| self := self w;
             files := setitem (files w) filepath
                        (write_newlines (windows env) text) |} in
        match raised with
        | None => (inr tt, w')
        | Some e => (inl e, w')
        end
    end.

(** [def save_alert_history(self, filepath)] *)
Definition save_alert_history (filepath : string) : M World unit :=
  try_except
    (w <- get ;;
     write_text filepath (Json.iterencode (alert_history (self w))) ;;;
     write_log (Info_saved filepath))
    (fun e => write_log (Error_save e)).

(** [open(filepath, "r", encoding="utf-8")] and [f.read()], which
    decodes the bytes of the file and raises [UnicodeDecodeError] when
    they are not UTF-8 (the field for the message holds the bytes). *)
Definition read_text (filepath : string) : M World string :=
  fun w =>
    match open_error env filepath "r", lookup (files w) filepath with
    | Some e, _ => (inl e, w)
    | None, Some content =>
        if utf8_valid content then (inr (read_newlines content), w)
        else (inl (Raised "UnicodeDecodeError" content), w)
    | None, None =>
        (inl (Raised "FileNotFoundError" filepath), w)
    end.

(** [def load_alert_history(self, filepath)]. [json.load] raises
    [JSONDecodeError] on a text that is not JSON. The result is [None]
    when the file holds JSON that is not a list of dicts from [str] to
    [str]: Python would store that value in [alert_history], whose type
    here has no place for it. *)
Definition load_alert_history (filepath : string) (w : World)
    : option ((exn + unit) * World) :=
  if os_path_exists filepath w then
    match read_text filepath w with
    | (inl e, w1) => Some (write_log (Error_load e) w1)
    | (inr text, w1) =>
        match Json.loads text with
        | None =>
            Some (write_log (Error_load (Raised "JSONDecodeError" text)) w1)
        | Some v =>
            match Json.as_history v with
            | None => None
            | Some h =>
                Some ((on_self (set_history h) ;;;
                       write_log (Info_loaded filepath)) w1)
            end
        end
    end
  else Some (inr tt, w).

End WithEnv.

End Alerts.

(** ** Concrete inputs *)

Module Examples.
Import Py Monitor.

(** The host fails twice, then answers in half a second. *)
Definition env_two_failures : Env :=
  {| ping3_ping := fun n _ _ => if Nat.ltb n 2 then NoReply else Reply 0.5%float;
     datetime_now := fun n => Z.of_nat n;
     os_sleep := fun _ => None |}.

(** The host times out twice; from then on the network is unreachable
    and [ping3.ping] returns [False]. *)
Definition env_unreachable : Env :=
  {| ping3_ping := fun n _ _ => if Nat.ltb n 2 then NoReply else ReturnsFalse;
     datetime_now := fun n => Z.of_nat n;
     os_sleep := fun _ => None |}.

(** [ping3.ping] raises on every call. *)
Definition env_ping_raises : Env :=
  {| ping3_ping := fun _ _ _ => Raises (Raised "OSError" "Network is unreachable");
     datetime_now := fun n => Z.of_nat n;
     os_sleep := fun _ => None |}.

(** Every host answers in a quarter of a second. *)
Definition env_all_reply : Env :=
  {| ping3_ping := fun _ _ _ => Reply 0.25%float;
     datetime_now := fun n => Z.of_nat n;
     os_sleep := fun _ => None |}.

(** A callback that raises on every call, and one that never does. *)
Definition cb_raising : callback :=
  fun _ _ _ => Some (Raised "RuntimeError" "observer failed").

Definition cb_quiet : callback := fun _ _ _ => None.

(** One registered host, observed by [cb_raising] and then [cb_quiet]. *)
Definition monitor_two_observers : PingMonitor :=
  register_callback cb_quiet
    (register_callback cb_raising
       (add_ip "10.0.0.1" "A" (__init__ 1 5 3))).

(** The scenario of the specification: 10.0.0.1 never answers,
    10.0.0.2 always does. *)
Definition env_scenario : Env :=
  {| ping3_ping := fun _ ip _ =>
       if String.eqb ip "10.0.0.1" then NoReply else Reply 0.015625%float;
     datetime_now := fun n => Z.of_nat n;
     os_sleep := fun _ => None |}.

(** Both hosts are added, a callback is registered and the monitor is
    started; then the worker runs three full cycles of seven steps. *)
Definition scenario_script : list call :=
  [AddIp "10.0.0.1" "A"; AddIp "10.0.0.2" "B"; RegisterCallback cb_quiet; Start].

Definition scenario_schedule : list actor :=
  repeat Controller 4 ++ repeat (Worker 0) 21.

(** A manager whose history holds two alerts. *)
Definition manager_two_alerts : Alerts.AlertManager :=
  {| Alerts.config := Alerts.default_config;
     Alerts.alert_history :=
       [Alerts.alert_data "2024-05-01T10:00:00" "10.0.0.1" "IP 10.0.0.1 down" "error";
        Alerts.alert_data "2024-05-01T10:00:05" "10.0.0.1" "IP 10.0.0.1 down" "error"];
     Alerts.logger := []; Alerts.alerts := 2; Alerts.trace := [] |}.

(** A manager whose history holds one alert, with a message that ends
    in the surrogate U+D800 (as [json.load] makes it from [\ud800]). *)
Definition manager_surrogate : Alerts.AlertManager :=
  {| Alerts.config := Alerts.default_config;
     Alerts.alert_history :=
       [Alerts.alert_data "2024-05-01T10:00:00" "10.0.0.1"
          ("IP 10.0.0.1 down " ++ Json.chr 55296) "error"];
     Alerts.logger := []; Alerts.alerts := 1; Alerts.trace := [] |}.

(** Every channel works and every file can be opened. *)
Definition alert_env_quiet : Alerts.AlertEnv :=
  {| Alerts.now_isoformat := fun _ => "2024-05-01T10:00:10";
     Alerts.now_strftime := fun _ => "2024-05-01 10:00:10";
     Alerts.notification_notify := fun _ _ _ _ => None;
     Alerts.winsound_PlaySound := fun _ _ => None;
     Alerts.winsound_Beep := fun _ _ _ => None;
     Alerts.smtplib_SMTP := fun _ _ _ => None;
     Alerts.smtp_starttls := fun _ => None;
     Alerts.smtp_login := fun _ _ _ => None;
     Alerts.smtp_send_message := fun _ _ => None;
     Alerts.smtp_quit := fun _ => None;
     Alerts.open_error := fun _ _ => None;
     Alerts.windows := true |}.

(** A manager as [AlertManager()] makes it, before any alert. *)
Definition manager_new : Alerts.AlertManager :=
  {| Alerts.config := Alerts.default_config; Alerts.alert_history := [];
     Alerts.logger := []; Alerts.alerts := 0; Alerts.trace := [] |}.

End Examples.

(** * The rest of the two core files and their caller *)

From Stdlib Require Import DecimalString.

(** ** Python [str] and [int] builtins *)

Module PyStr.
Import Py.

(** [s.split(sep)] for a separator of one character: the pieces between
    the separators, of which there is one more than separators. *)
Fixpoint split_on (sep : ascii) (s : string) : list string :=
  match s with
  | EmptyString => [EmptyString]
  | String c rest =>
      if Ascii.eqb c sep then EmptyString :: split_on sep rest
      else
        match split_on sep rest with
        | piece :: pieces => String c piece :: pieces
        | [] => [String c EmptyString]
        end
  end.

(** The number of occurrences of [c] in [s]. *)
Fixpoint occurrences (c : ascii) (s : string) : nat :=
  match s with
  | EmptyString => 0
  | String d rest =>
      (if Ascii.eqb d c then 1 else 0) + occurrences c rest
  end.

(** The characters for which [str.isspace()] holds, in UTF-8: the ASCII
    ones (0x09-0x0D, 0x1C-0x20), U+0085 and U+00A0 in two bytes, and
    U+1680, U+2000-U+200A, U+2028, U+2029, U+202F, U+205F and U+3000 in
    three. *)
Definition space1 (a : ascii) : bool :=
  let n := nat_of_ascii a in
  (Nat.leb 9 n && Nat.leb n 13) || (Nat.leb 28 n && Nat.leb n 32).

Definition space2 (a b : ascii) : bool :=
  let m := nat_of_ascii b in
  Nat.eqb (nat_of_ascii a) 194 && (Nat.eqb m 133 || Nat.eqb m 160).

Definition space3 (a b c : ascii) : bool :=
  let x := nat_of_ascii a in
  let y := nat_of_ascii b in
  let z := nat_of_ascii c in
  (Nat.eqb x 225 && Nat.eqb y 154 && Nat.eqb z 128) ||
  (Nat.eqb x 226 && Nat.eqb y 128 &&
   ((Nat.leb 128 z && Nat.leb z 138) || Nat.eqb z 168 || Nat.eqb z 169 ||
    Nat.eqb z 175)) ||
  (Nat.eqb x 226 && Nat.eqb y 129 && Nat.eqb z 159) ||
  (Nat.eqb x 227 && Nat.eqb y 128 && Nat.eqb z 128).

(** [s.lstrip()] *)
Fixpoint lstrip (s : string) : string :=
  match s with
  | EmptyString => EmptyString
  | String a r =>
      if space1 a then lstrip r
      else
        match r with
        | String b r1 =>
            if space2 a b then lstrip r1
            else
              match r1 with
              | String c r2 => if space3 a b c then lstrip r2 else s
              | EmptyString => s
              end
        | EmptyString => s
        end
  end.

Fixpoint reversed (s acc : string) : string :=
  match s with
  | EmptyString => acc
  | String a r => reversed r (String a acc)
  end.

(** [lstrip] on the text read from its end. *)
Fixpoint lstrip_reversed (s : string) : string :=
  match s with
  | EmptyString => EmptyString
  | String c r =>
      if space1 c then lstrip_reversed r
      else
        match r with
        | String b r1 =>
            if space2 b c then lstrip_reversed r1
            else
              match r1 with
              | String a r2 => if space3 a b c then lstrip_reversed r2 else s
              | EmptyString => s
              end
        | EmptyString => s
        end
  end.

(** [s.rstrip()] *)
Definition rstrip (s : string) : string :=
  reversed (lstrip_reversed (reversed s EmptyString)) EmptyString.

(** [s.strip()] *)
Definition strip (s : string) : string := lstrip (rstrip s).

(** [str(n)] for an [int] *)
Definition str_of_int (n : Z) : string := NilZero.string_of_int (Z.to_int n).

End PyStr.

(** ** core/ping_monitor.py: runs of the worker *)

Module MonitorRuns.
Import Py Monitor.

(** The thread of [_monitor_loop] running on its own for [k] steps; a
    dead thread stays as it is. *)
Fixpoint worker_run (env : Env) (k : nat) (pc : worker_pc) (self : PingMonitor)
    : worker_pc * PingMonitor :=
  match k with
  | O => (pc, self)
  | S k' =>
      match _monitor_loop_step env pc self with
      | Some (pc', self') => worker_run env k' pc' self'
      | None => (pc, self)
      end
  end.

(** The hosts that [ping3.ping] was called for, oldest call first. *)
Fixpoint pinged (tr : list event) : list string :=
  match tr with
  | [] => []
  | EvPing _ ip :: rest => ip :: pinged rest
  | _ :: rest => pinged rest
  end.

(** The number of threshold warnings logged for [ip]. *)
Fixpoint warnings_for (ip : string) (records : list log_record) : nat :=
  match records with
  | [] => 0
  | Warning_failures ip' _ :: rest =>
      (if String.eqb ip' ip then 1 else 0) + warnings_for ip rest
  | _ :: rest => warnings_for ip rest
  end.

(** A status is stored under its own address. *)
Definition keyed (kv : string * IPStatus) : Prop := ip (snd kv) = fst kv.

(** The timestamps agree with the state: an online host has a last
    success, a host with failures has a last failure. *)
Definition dated (kv : string * IPStatus) : Prop :=
  (is_online (snd kv) = true -> last_success (snd kv) <> None) /\
  (consecutive_failures (snd kv) <> 0%Z -> last_failure (snd kv) <> None).

(** The registry has no key twice and all its entries satisfy [P]. *)
Definition holds (P : string * IPStatus -> Prop) (self : PingMonitor) : Prop :=
  wf (monitored_ips self) /\ Forall P (monitored_ips self).

End MonitorRuns.

(** ** core/alert_manager.py: construction *)

Module AlertSetup.
Import Py PyStr Alerts.

(** [os.getenv(name, "")] once [load_dotenv()] has run, given the
    environment as a function from names to values. *)
Definition os_getenv (environ : string -> option string) (name : string) : string :=
  match environ name with
  | Some v => v
  | None => EmptyString
  end.

Section WithEnviron.

Variable environ : string -> option string.

(** [def _load_config(self)]: each of the four fields is taken from the
    environment when it is empty. *)
Definition _load_config (c : AlertConfig) : AlertConfig :=
  let username :=
    if negb (truthy (email_username c))
    then os_getenv environ "ALERT_EMAIL_USERNAME" else email_username c in
  let password :=
    if negb (truthy (email_password c))
    then os_getenv environ "ALERT_EMAIL_PASSWORD" else email_password c in
  let server :=
    if negb (truthy (email_smtp_server c))
    then os_getenv environ "ALERT_EMAIL_SMTP_SERVER" else email_smtp_server c in
  let recipients :=
    if negb (nonempty (email_recipients c)) then
      let recipients := os_getenv environ "ALERT_EMAIL_RECIPIENTS" in
      if truthy recipients
      then map strip (split_on "," recipients)
      else []
    else email_recipients c in
  {| email_enabled := email_enabled c;
     email_smtp_server := server;
     email_smtp_port := email_smtp_port c;
     email_username := username;
     email_password := password;
     email_recipients := recipients;
     desktop_notification := desktop_notification c;
     sound_alert := sound_alert c;
     sound_file := sound_file c |}.

(** [def __init__(self, config=None)]: [config or AlertConfig()], an
    empty history, then [_load_config]. *)
Definition __init__ (config : option AlertConfig) : AlertManager :=
  {| Alerts.config :=
       _load_config match config with
                    | Some c => c
                    | None => default_config
                    end;
     alert_history := []; logger := []; alerts := 0; trace := [] |}.

End WithEnviron.

(** [n] alerts one after the other, each with its address, message and
    type. *)
Fixpoint send_alerts (env : AlertEnv) (l : list (string * string * string))
    (w : World) : World :=
  match l with
  | [] => w
  | (ip, message, alert_type) :: rest =>
      send_alerts env rest (snd (send_alert env ip message alert_type w))
  end.

(** The records that [send_alerts] appends when the first alert is the
    [n]-th one of the manager. *)
Fixpoint alert_records (env : AlertEnv) (n : nat)
    (l : list (string * string * string)) : list alert_dict :=
  match l with
  | [] => []
  | (ip, message, alert_type) :: rest =>
      alert_data (now_isoformat env n) ip message alert_type ::
      alert_records env (S n) rest
  end.

(** The events of an SMTP session. *)
Definition smtp_event (ev : alert_event) : bool :=
  match ev with
  | EvSmtpConnect _ _ | EvStartTls | EvLogin _ _ | EvSendMessage _
  | EvSmtpQuit => true
  | _ => false
  end.

Definition is_login (ev : alert_event) : bool :=
  match ev with EvLogin _ _ => true | _ => false end.

Definition is_send (ev : alert_event) : bool :=
  match ev with EvSendMessage _ => true | _ => false end.

Definition is_quit (ev : alert_event) : bool :=
  match ev with EvSmtpQuit => true | _ => false end.

(** The call returned. *)
Definition ok (outcome : option exn) : bool :=
  match outcome with None => true | Some _ => false end.

(** The message that [_send_email_alert] composes in the [n]-th alert. *)
Definition email_message (env : AlertEnv) (n : nat) (c : AlertConfig)
    (ip message : string) : email :=
  {| msg_from := email_username c;
     msg_to := String.concat ", " (email_recipients c);
     msg_subject := ("IP监控报警 - " ++ ip)%string;
     msg_body :=
       (nl ++ "            IP地址: " ++ ip ++
        nl ++ "            时间: " ++ now_strftime env n ++
        nl ++ "            报警信息: " ++ message ++
        nl ++ "            ")%string |}.

(** The event of the sound channel: the configured file when it is set
    and exists, the default tone otherwise. *)
Definition sound_event (c : AlertConfig) (w : World) : alert_event :=
  if truthy (sound_file c) && os_path_exists (sound_file c) w
  then EvPlaySound (sound_file c)
  else EvBeep 1000 1000.

Definition is_info_email_sent (r : alert_log) : bool :=
  match r with Info_email_sent _ => true | _ => false end.

Definition is_play (ev : alert_event) : bool :=
  match ev with EvPlaySound _ => true | _ => false end.

Definition is_beep (ev : alert_event) : bool :=
  match ev with EvBeep _ _ => true | _ => false end.

End AlertSetup.

(** ** gui/main_window.py: the callback that raises the alerts *)

Module MainWindow.
Import Py PyStr Monitor Alerts.

(** [def on_status_update(self, ip, status)], with [self.monitor] and, as
    the state, [self.alert_manager]. *)
Definition on_status_update (env : AlertEnv) (monitor : PingMonitor)
    (ip : string) (status : IPStatus) : M World unit :=
  if (failure_threshold monitor <=? consecutive_failures status)%Z then
    send_alert env ip
      ("IP " ++ ip ++ " 连续失败 " ++
       str_of_int (consecutive_failures status) ++ " 次")%string
      default_alert_type
  else ret tt.

(** The calls of the callback registered first (in [MainWindow] that is
    [on_status_update]) that a trace of the monitor holds: their
    arguments, oldest call first. *)
Fixpoint updates (tr : list Monitor.event) : list (string * IPStatus) :=
  match tr with
  | [] => []
  | EvCallback O ip status :: rest => (ip, status) :: updates rest
  | _ :: rest => updates rest
  end.

(** [on_status_update] called with each of these arguments in turn. *)
Fixpoint on_status_updates (env : AlertEnv) (monitor : PingMonitor)
    (l : list (string * IPStatus)) (w : World) : World :=
  match l with
  | [] => w
  | (ip, status) :: rest =>
      on_status_updates env monitor rest
        (snd (on_status_update env monitor ip status w))
  end.

(** The statuses of a host after each of [n] probes without a reply, the
    first of which is probe number [p]. *)
Fixpoint failed_updates (menv : Monitor.Env) (n p : nat) (ip : string)
    (status : IPStatus) : list (string * IPStatus) :=
  match n with
  | O => []
  | S n' =>
      let status' := on_no_reply (datetime_now menv p) status in
      (ip, status') :: failed_updates menv n' (S p) ip status'
  end.

End MainWindow.

(** ** More concrete inputs *)

Module MoreExamples.
Import Py Monitor Examples.

(** Two registered hosts, the first of which has failed twice. *)
Definition monitor_two_hosts : PingMonitor :=
  ping_times env_two_failures 2 "10.0.0.1"
    (add_ip "10.0.0.2" "B" (add_ip "10.0.0.1" "A" (__init__ 1 5 3))).

(** No host ever answers. *)
Definition env_silent : Env :=
  {| ping3_ping := fun _ _ _ => NoReply;
     datetime_now := fun n => Z.of_nat n;
     os_sleep := fun _ => None |}.

(** No file can be opened for writing. *)
Definition alert_env_readonly : Alerts.AlertEnv :=
  {| Alerts.now_isoformat := fun _ => "2024-05-01T10:00:10";
     Alerts.now_strftime := fun _ => "2024-05-01 10:00:10";
     Alerts.notification_notify := fun _ _ _ _ => None;
     Alerts.winsound_PlaySound := fun _ _ => None;
     Alerts.winsound_Beep := fun _ _ _ => None;
     Alerts.smtplib_SMTP := fun _ _ _ => None;
     Alerts.smtp_starttls := fun _ => None;
     Alerts.smtp_login := fun _ _ _ => None;
     Alerts.smtp_send_message := fun _ _ => None;
     Alerts.smtp_quit := fun _ => None;
     Alerts.open_error := fun _ mode =>
       if String.eqb mode "w"
       then Some (Raised "PermissionError" "Permission denied")
       else None;
     Alerts.windows := true |}.

(** A manager with two alerts and a file that is not JSON. *)
Definition world_broken_file : Alerts.World :=
  {| Alerts.self := manager_two_alerts;
     Alerts.files := [("alerts.json", "{oops")] |}.

(** An environment whose recipients variable holds a comma only. *)
Definition environ_comma (name : string) : option string :=
  if String.eqb name "ALERT_EMAIL_RECIPIENTS" then Some "," else None.

(** A new monitor with one host and one callback that never raises, as
    [on_status_update] never does. *)
Definition monitor_with_gui : PingMonitor :=
  register_callback cb_quiet (add_ip "10.0.0.1" "A" (__init__ 1 5 3)).

End MoreExamples.

(** * Properties *)

(** ** binary64 multiplication keeps the sign *)

Module FloatFacts.

Lemma shr_1_nonneg mrs : (0 <= shr_m mrs)%Z -> (0 <= shr_m (shr_1 mrs))%Z.
Proof.
  destruct mrs as [m r s]; simpl. destruct m as [|p|p]; simpl; try lia.
  destruct p; simpl; lia.
Qed.

Lemma iter_pos_shr_1_nonneg p : forall mrs,
  (0 <= shr_m mrs)%Z -> (0 <= shr_m (iter_pos shr_1 p mrs))%Z.
Proof.
  induction p; intros mrs H; simpl; auto using shr_1_nonneg.
Qed.

Lemma shr_fexp_nonneg pr em m e l :
  (0 <= m)%Z -> (0 <= shr_m (fst (shr_fexp pr em m e l)))%Z.
Proof.
  intros Hm. unfold shr_fexp, shr.
  assert (H0 : (0 <= shr_m (shr_record_of_loc m l))%Z).
  { unfold shr_record_of_loc. destruct l as [|[]]; simpl; exact Hm. }
  destruct (fexp pr em (Zdigits2 m + e) - e)%Z; simpl;
    auto using iter_pos_shr_1_nonneg.
Qed.

Lemma round_nearest_even_nonneg m l :
  (0 <= m)%Z -> (0 <= round_nearest_even m l)%Z.
Proof.
  intros H. unfold round_nearest_even. destruct l as [|[]]; try lia.
  destruct (IntDef.Z.even m); lia.
Qed.

(** Rounding a positive significand gives +0, a positive number or
    +infinity, never a NaN. *)
Lemma binary_round_aux_nonneg pr em m e l :
  (0 <= m)%Z ->
  SFleb (S754_zero false) (binary_round_aux pr em false m e l) = true.
Proof.
  intros Hm. unfold binary_round_aux.
  pose proof (shr_fexp_nonneg pr em m e l Hm) as H1.
  destruct (shr_fexp pr em m e l) as [mrs' e'] eqn:E1. simpl in H1.
  pose proof (shr_fexp_nonneg pr em _ e' loc_Exact
                (round_nearest_even_nonneg _ (loc_of_shr_record mrs') H1)) as H2.
  destruct (shr_fexp pr em
              (round_nearest_even (shr_m mrs') (loc_of_shr_record mrs'))
              e' loc_Exact) as [mrs'' e''] eqn:E2.
  simpl in H2.
  destruct (shr_m mrs'') as [|p|p]; try reflexivity.
  - destruct (e'' <=? em - pr)%Z; reflexivity.
  - lia.
Qed.

(** [seconds * 1000] is not negative when [seconds] is not. *)
Lemma mul_1000_nonneg (seconds : float) :
  (0 <=? seconds)%float = true -> (0 <=? seconds * 1000)%float = true.
Proof.
  rewrite !leb_spec, mul_spec.
  change (Prim2SF 0) with (S754_zero false).
  change (Prim2SF 1000) with (S754_finite false 8796093022208000 (-43)).
  destruct (Prim2SF seconds) as [sg|sg| |sg m e]; simpl; try discriminate.
  - intros _. reflexivity.
  - destruct sg; [discriminate | reflexivity].
  - destruct sg; [discriminate | intros _].
    apply binary_round_aux_nonneg. lia.
Qed.

End FloatFacts.



(** ** The dict operations *)

Module PyFacts.
Import Py.

Lemma contains_lookup {V} (d : dict V) key :
  contains d key = match lookup d key with Some _ => true | None => false end.
Proof.
  induction d as [|[k v] d IH]; simpl; [reflexivity|].
  destruct (String.eqb k key); [reflexivity | exact IH].
Qed.

Lemma lookup_setitem_same {V} (d : dict V) key v :
  lookup (setitem d key v) key = Some v.
Proof.
  induction d as [|[k w] d IH]; simpl.
  - now rewrite String.eqb_refl.
  - destruct (String.eqb k key) eqn:E; simpl; rewrite E; [reflexivity | exact IH].
Qed.

Lemma lookup_setitem_other {V} (d : dict V) key key' v :
  key <> key' -> lookup (setitem d key v) key' = lookup d key'.
Proof.
  intros Hne. induction d as [|[k w] d IH]; simpl.
  - destruct (String.eqb_spec key key'); [contradiction | reflexivity].
  - destruct (String.eqb_spec k key) as [->|Hk]; simpl.
    + destruct (String.eqb_spec key key'); [contradiction | reflexivity].
    + destruct (String.eqb k key'); [reflexivity | exact IH].
Qed.

Lemma keys_setitem_present {V} (d : dict V) key v :
  contains d key = true -> keys (setitem d key v) = keys d.
Proof.
  induction d as [|[k w] d IH]; simpl; [discriminate|].
  destruct (String.eqb_spec k key) as [->|Hk]; simpl; [reflexivity|].
  intros H. now rewrite (IH H).
Qed.

Lemma keys_setitem_absent {V} (d : dict V) key v :
  contains d key = false -> keys (setitem d key v) = keys d ++ [key].
Proof.
  induction d as [|[k w] d IH]; simpl; [reflexivity|].
  destruct (String.eqb_spec k key) as [->|Hk]; simpl; [discriminate|].
  intros H. now rewrite (IH H).
Qed.

Lemma contains_In {V} (d : dict V) key :
  contains d key = true <-> In key (keys d).
Proof.
  induction d as [|[k w] d IH]; simpl; [split; [discriminate | tauto]|].
  destruct (String.eqb_spec k key) as [->|Hk].
  - split; auto.
  - rewrite IH. split; [auto | intros [H|H]; [contradiction | exact H]].
Qed.

Lemma entries_absent {V} (d : dict V) key :
  contains d key = false -> entries d key = 0.
Proof.
  unfold entries. induction d as [|[k w] d IH]; simpl; [reflexivity|].
  destruct (String.eqb k key); [discriminate | exact IH].
Qed.

Lemma entries_wf_present {V} (d : dict V) key :
  wf d -> contains d key = true -> entries d key = 1.
Proof.
  unfold wf, entries. induction d as [|[k w] d IH]; simpl; [discriminate|].
  intros Hnd. inversion Hnd as [|? ? Hnotin Hnd']; subst.
  destruct (String.eqb_spec k key) as [->|Hk]; simpl.
  - intros _. f_equal. apply (entries_absent d key).
    destruct (contains d key) eqn:E; [|reflexivity].
    apply contains_In in E. contradiction.
  - intros H. now apply IH.
Qed.

Lemma entries_setitem_absent {V} (d : dict V) key v :
  contains d key = false -> entries (setitem d key v) key = 1.
Proof.
  unfold entries. induction d as [|[k w] d IH]; simpl.
  - now rewrite String.eqb_refl.
  - destruct (String.eqb k key) eqn:E; [discriminate|].
    simpl. rewrite E. exact IH.
Qed.

Lemma wf_setitem {V} (d : dict V) key v : wf d -> wf (setitem d key v).
Proof.
  unfold wf. intros Hwf. destruct (contains d key) eqn:E.
  - now rewrite keys_setitem_present.
  - rewrite keys_setitem_absent by exact E.
    apply NoDup_app; [exact Hwf | repeat constructor; intros [] | ].
    intros x Hx [<-|[]]. apply contains_In in Hx. congruence.
Qed.

End PyFacts.

(** ** The registry *)

Module MonitorFacts.
Import Py PyFacts Monitor Examples.

(** C7. Adding an address twice, with whatever groups, leaves exactly one
    entry for it. An address that was absent gets a status that is offline,
    with no failures, response time 0 and no timestamps; for an address
    that was present [add_ip] returns the monitor as it was, so the record
    and its group stay. *)
Theorem add_ip_twice_one_entry :
  forall (self : PingMonitor) (ip g1 g2 : string),
    wf (monitored_ips self) ->
    entries (monitored_ips (add_ip ip g2 (add_ip ip g1 self))) ip = 1 /\
    (contains (monitored_ips self) ip = false ->
       exists status,
         get_status ip (add_ip ip g1 self) = Some status /\
         is_fresh ip g1 status /\
         add_ip ip g2 (add_ip ip g1 self) = add_ip ip g1 self) /\
    (contains (monitored_ips self) ip = true ->
       add_ip ip g1 self = self /\
       add_ip ip g2 (add_ip ip g1 self) = self).
Proof.
  intros self ip g1 g2 Hwf.
  assert (Hin : forall g s, contains (monitored_ips s) ip = true -> add_ip ip g s = s).
  { intros g s H. unfold add_ip. now rewrite H. }
  assert (Hout : contains (monitored_ips self) ip = false ->
                 contains (monitored_ips (add_ip ip g1 self)) ip = true).
  { intros H. unfold add_ip. rewrite H. simpl.
    rewrite contains_lookup, lookup_setitem_same. reflexivity. }
  destruct (contains (monitored_ips self) ip) eqn:E.
  - rewrite !(Hin _ self E). repeat split; try discriminate.
    now apply entries_wf_present.
  - specialize (Hout eq_refl). rewrite (Hin g2 _ Hout).
    split; [|split; [|discriminate]].
    + unfold add_ip. rewrite E. simpl. now apply entries_setitem_absent.
    + intros _. exists (fresh_status ip g1). split; [|split; [|reflexivity]].
      * unfold get_status, add_ip. rewrite E. simpl. apply lookup_setitem_same.
      * repeat split.
Qed.

Lemma add_ip_twice_one_entry_witness :
  let self := add_ip "10.0.0.2" "B" (__init__ 1 5 3) in
  wf (monitored_ips self) /\
  entries (monitored_ips (add_ip "10.0.0.1" "A2" (add_ip "10.0.0.1" "A" self))) "10.0.0.1" = 1.
Proof.
  split.
  - repeat constructor; simpl; intuition discriminate.
  - apply (add_ip_twice_one_entry _ "10.0.0.1" "A" "A2").
    repeat constructor; simpl; intuition discriminate.
Defined.


(** ** One probe *)

Section Probe.

Variable env : Env.

Lemma emits_app evs evs' self :
  emits (evs ++ evs') self = emits evs' (emits evs self).
Proof. unfold emits. apply fold_left_app. Qed.

Lemma emits_frame evs self :
  emits evs self =
  {| timeout := timeout self; interval := interval self;
     failure_threshold := failure_threshold self;
     monitored_ips := monitored_ips self; _stop_event := _stop_event self;
     _monitor_thread := _monitor_thread self;
     _callbacks := _callbacks self; logger := logger self;
     probes := probes self; trace := trace self ++ evs |}.
Proof.
  revert self. induction evs as [|ev evs IH]; intros self; simpl.
  - rewrite app_nil_r. now destruct self.
  - unfold emits in *. simpl. rewrite IH. simpl.
    now rewrite <- app_assoc.
Qed.

Lemma for_each_invoke n ip status l self :
  for_each (invoke n ip status) l self =
  (match first_raise n ip status l with
   | None => inr tt
   | Some e => inl e
   end,
   emits (callback_events n ip status l) self).
Proof.
  revert self. induction l as [|icb l IH]; intros self; [reflexivity|].
  unfold callback_events. simpl. unfold bind, invoke at 1.
  destruct (snd icb n ip status) as [e|]; [reflexivity|].
  apply IH.
Qed.

Lemma _ping_ip_reply self ip status seconds :
  lookup (monitored_ips self) ip = Some status ->
  ping3_ping env (probes self) ip (timeout self) = Reply seconds ->
  _ping_ip env ip self =
  (inr tt,
   probed self ip (on_reply seconds (datetime_now env (probes self)) status) false).
Proof.
  intros Hl Hp. unfold _ping_ip, try_except, bind, call_ping.
  rewrite Hp. simpl. unfold getitem_status. simpl. rewrite Hl. simpl.
  rewrite for_each_invoke, emits_frame. unfold probed. simpl.
  destruct (first_raise _ _ _ _); unfold modify, log; simpl;
    rewrite ?app_nil_r, <- ?app_assoc; reflexivity.
Qed.

Lemma _ping_ip_false self ip status :
  lookup (monitored_ips self) ip = Some status ->
  ping3_ping env (probes self) ip (timeout self) = ReturnsFalse ->
  _ping_ip env ip self =
  (inr tt,
   probed self ip
     (on_reply False_as_number (datetime_now env (probes self)) status) false).
Proof.
  intros Hl Hp. unfold _ping_ip, try_except, bind, call_ping.
  rewrite Hp. simpl. unfold getitem_status. simpl. rewrite Hl. simpl.
  rewrite for_each_invoke, emits_frame. unfold probed. simpl.
  destruct (first_raise _ _ _ _); unfold modify, log; simpl;
    rewrite ?app_nil_r, <- ?app_assoc; reflexivity.
Qed.

Lemma _ping_ip_no_reply self ip status :
  lookup (monitored_ips self) ip = Some status ->
  ping3_ping env (probes self) ip (timeout self) = NoReply ->
  _ping_ip env ip self =
  (inr tt,
   let status' := on_no_reply (datetime_now env (probes self)) status in
   probed self ip status'
     (failure_threshold self <=? consecutive_failures status')%Z).
Proof.
  intros Hl Hp. unfold _ping_ip, try_except, bind, call_ping.
  rewrite Hp. simpl. unfold getitem_status. simpl. rewrite Hl. simpl.
  destruct (failure_threshold self <=? consecutive_failures status + 1)%Z; simpl;
    rewrite for_each_invoke, emits_frame; unfold probed; simpl;
    destruct (first_raise _ _ _ _); unfold modify, log; simpl;
    rewrite ?app_nil_r, <- ?app_assoc; reflexivity.
Qed.

Lemma _ping_ip_raises self ip e :
  ping3_ping env (probes self) ip (timeout self) = Raises e ->
  _ping_ip env ip self = (inr tt, probe_failed self ip e).
Proof.
  intros Hp. unfold _ping_ip, try_except, bind, call_ping.
  rewrite Hp. reflexivity.
Qed.

Lemma _ping_ip_unregistered self ip :
  lookup (monitored_ips self) ip = None ->
  (forall e, ping3_ping env (probes self) ip (timeout self) <> Raises e) ->
  _ping_ip env ip self = (inr tt, probe_failed self ip (KeyError ip)).
Proof.
  intros Hl Hp. unfold _ping_ip, try_except, bind, call_ping.
  destruct (ping3_ping env (probes self) ip (timeout self)) as [s| | |e];
    [| | |now elim (Hp e)];
    simpl; unfold getitem_status; simpl; rewrite Hl; reflexivity.
Qed.

(** No exception leaves [_ping_ip]. *)
Lemma _ping_ip_returns self ip : fst (_ping_ip env ip self) = inr tt.
Proof.
  destruct (ping3_ping env (probes self) ip (timeout self)) as [s| | |e] eqn:Hp.
  - destruct (lookup (monitored_ips self) ip) as [status|] eqn:Hl.
    + now rewrite (_ping_ip_reply _ _ _ _ Hl Hp).
    + rewrite _ping_ip_unregistered; [reflexivity | exact Hl | congruence].
  - destruct (lookup (monitored_ips self) ip) as [status|] eqn:Hl.
    + now rewrite (_ping_ip_no_reply _ _ _ Hl Hp).
    + rewrite _ping_ip_unregistered; [reflexivity | exact Hl | congruence].
  - destruct (lookup (monitored_ips self) ip) as [status|] eqn:Hl.
    + now rewrite (_ping_ip_false _ _ _ Hl Hp).
    + rewrite _ping_ip_unregistered; [reflexivity | exact Hl | congruence].
  - now rewrite (_ping_ip_raises _ _ _ Hp).
Qed.

(** What one probe does to the registry. *)
Lemma _ping_ip_registry self ip :
  monitored_ips (snd (_ping_ip env ip self)) =
  match ping3_ping env (probes self) ip (timeout self),
        lookup (monitored_ips self) ip with
  | Reply seconds, Some status =>
      setitem (monitored_ips self) ip
        (on_reply seconds (datetime_now env (probes self)) status)
  | NoReply, Some status =>
      setitem (monitored_ips self) ip
        (on_no_reply (datetime_now env (probes self)) status)
  | ReturnsFalse, Some status =>
      setitem (monitored_ips self) ip
        (on_reply False_as_number (datetime_now env (probes self)) status)
  | _, _ => monitored_ips self
  end.
Proof.
  destruct (ping3_ping env (probes self) ip (timeout self)) as [s| | |e] eqn:Hp.
  - destruct (lookup (monitored_ips self) ip) as [status|] eqn:Hl.
    + now rewrite (_ping_ip_reply _ _ _ _ Hl Hp).
    + rewrite _ping_ip_unregistered; [reflexivity | exact Hl | congruence].
  - destruct (lookup (monitored_ips self) ip) as [status|] eqn:Hl.
    + now rewrite (_ping_ip_no_reply _ _ _ Hl Hp).
    + rewrite _ping_ip_unregistered; [reflexivity | exact Hl | congruence].
  - destruct (lookup (monitored_ips self) ip) as [status|] eqn:Hl.
    + now rewrite (_ping_ip_false _ _ _ Hl Hp).
    + rewrite _ping_ip_unregistered; [reflexivity | exact Hl | congruence].
  - now rewrite (_ping_ip_raises _ _ _ Hp).
Qed.

(** A probe leaves the configuration alone and counts itself. *)
Lemma _ping_ip_frame self ip :
  let self' := snd (_ping_ip env ip self) in
  timeout self' = timeout self /\ interval self' = interval self /\
  failure_threshold self' = failure_threshold self /\
  _callbacks self' = _callbacks self /\ _stop_event self' = _stop_event self /\
  _monitor_thread self' = _monitor_thread self /\
  probes self' = S (probes self).
Proof.
  destruct (ping3_ping env (probes self) ip (timeout self)) as [s| | |e] eqn:Hp.
  - destruct (lookup (monitored_ips self) ip) as [status|] eqn:Hl.
    + rewrite (_ping_ip_reply _ _ _ _ Hl Hp). now repeat split.
    + rewrite _ping_ip_unregistered; [now repeat split | exact Hl | congruence].
  - destruct (lookup (monitored_ips self) ip) as [status|] eqn:Hl.
    + rewrite (_ping_ip_no_reply _ _ _ Hl Hp). now repeat split.
    + rewrite _ping_ip_unregistered; [now repeat split | exact Hl | congruence].
  - destruct (lookup (monitored_ips self) ip) as [status|] eqn:Hl.
    + rewrite (_ping_ip_false _ _ _ Hl Hp). now repeat split.
    + rewrite _ping_ip_unregistered; [now repeat split | exact Hl | congruence].
  - rewrite (_ping_ip_raises _ _ _ Hp). now repeat split.
Qed.

(** The events of one probe: the call of [ping3.ping], then calls of
    callbacks. *)
Lemma _ping_ip_trace self ip :
  exists evs,
    trace (snd (_ping_ip env ip self)) = trace self ++ EvPing (probes self) ip :: evs /\
    Forall (fun ev => exists i a status, ev = EvCallback i a status) evs.
Proof.
  assert (Hcb : forall n a status l,
            Forall (fun ev => exists i a status, ev = EvCallback i a status)
                   (callback_events n a status l)).
  { intros n a status l. unfold callback_events. apply Forall_map, Forall_forall.
    intros icb _. now exists (fst icb), a, status. }
  destruct (ping3_ping env (probes self) ip (timeout self)) as [s| | |e] eqn:Hp;
    destruct (lookup (monitored_ips self) ip) as [status|] eqn:Hl;
    try (rewrite (_ping_ip_raises _ _ _ Hp));
    try (rewrite (_ping_ip_unregistered _ _ Hl) by congruence);
    try (rewrite (_ping_ip_reply _ _ _ _ Hl Hp));
    try (rewrite (_ping_ip_no_reply _ _ _ Hl Hp));
    try (rewrite (_ping_ip_false _ _ _ Hl Hp));
    simpl; eexists; (split; [reflexivity|]); try apply Hcb; constructor.
Qed.

End Probe.

(** ** Failure counting *)

Section Counting.

Variable env : Env.

Lemma ping_times_S n ip self :
  ping_times env (S n) ip self = ping_times env n ip (snd (_ping_ip env ip self)).
Proof. reflexivity. Qed.

(** [n] probes without a reply, one after the other. *)
Lemma ping_times_no_reply n : forall self ip status,
  lookup (monitored_ips self) ip = Some status ->
  (forall k, k < n ->
     ping3_ping env (probes self + k) ip (timeout self) = NoReply) ->
  let self' := ping_times env n ip self in
  timeout self' = timeout self /\ probes self' = probes self + n /\
  exists status',
    lookup (monitored_ips self') ip = Some status' /\
    consecutive_failures status' =
      (consecutive_failures status + Z.of_nat n)%Z /\
    (0 < n ->
       is_online status' = false /\ response_time status' = 0%float /\
       last_failure status' = Some (datetime_now env (probes self + n - 1))).
Proof.
  induction n as [|n IH]; intros self ip status Hl Hp.
  - simpl. repeat split; try lia. exists status.
    repeat split; try lia. exact Hl.
  - rewrite ping_times_S.
    assert (Hp0 : ping3_ping env (probes self) ip (timeout self) = NoReply).
    { rewrite <- (Nat.add_0_r (probes self)). apply Hp. lia. }
    pose proof (_ping_ip_no_reply env self ip status Hl Hp0) as Hstep.
    set (status1 := on_no_reply (datetime_now env (probes self)) status) in *.
    cbv zeta in Hstep. rewrite Hstep. cbn [snd].
    set (self1 := probed self ip status1 _).
    assert (Hl1 : lookup (monitored_ips self1) ip = Some status1)
      by apply lookup_setitem_same.
    destruct (IH self1 ip status1 Hl1) as (Ht & Hpr & status' & Hl' & Hcf & Hpos).
    { intros k Hk. change (probes self1) with (S (probes self)).
      change (timeout self1) with (timeout self).
      replace (S (probes self) + k) with (probes self + S k) by lia.
      apply Hp. lia. }
    cbv zeta. split; [exact Ht|]. split; [rewrite Hpr; simpl; lia|].
    exists status'. split; [exact Hl'|]. split.
    + rewrite Hcf. subst status1. simpl consecutive_failures. lia.
    + intros _. destruct n as [|n].
      * cbn [ping_times] in Hl'. rewrite Hl1 in Hl'. injection Hl' as <-.
        subst status1. simpl. repeat split. do 2 f_equal. lia.
      * destruct Hpos as (Ho & Hr & Hf); [lia|]. repeat split; trivial.
        rewrite Hf. change (probes self1) with (S (probes self)).
        do 2 f_equal. lia.
Qed.

(** The probes that fail by timing out are counted. From any status of
    a registered host, [n >= 1] probes in a row for which [ping3.ping]
    returns [None] add [n] to [consecutive_failures] and leave the host
    offline with response time 0 and [last_failure] set to the instant of
    the last probe; one probe with a reply after that resets
    [consecutive_failures] to 0, puts the host online and sets
    [last_success]. *)
Lemma failures_accumulate_then_reset :
  forall (self : PingMonitor) (ip : string) (status : IPStatus) (n : nat),
    lookup (monitored_ips self) ip = Some status ->
    0 < n ->
    (forall k, k < n ->
       ping3_ping env (probes self + k) ip (timeout self) = NoReply) ->
    let self' := ping_times env n ip self in
    exists status',
      get_status ip self' = Some status' /\
      consecutive_failures status' =
        (consecutive_failures status + Z.of_nat n)%Z /\
      is_online status' = false /\
      response_time status' = 0%float /\
      last_failure status' = Some (datetime_now env (probes self + n - 1)) /\
      forall seconds,
        ping3_ping env (probes self + n) ip (timeout self) = Reply seconds ->
        exists status'',
          get_status ip (snd (_ping_ip env ip self')) = Some status'' /\
          consecutive_failures status'' = 0%Z /\
          is_online status'' = true /\
          last_success status'' = Some (datetime_now env (probes self + n)).
Proof.
  intros self ip status n Hl Hn Hp self'.
  destruct (ping_times_no_reply n self ip status Hl Hp)
    as (Ht & Hpr & status' & Hl' & Hcf & Hpos).
  fold self' in Ht, Hpr, Hl'. destruct (Hpos Hn) as (Ho & Hr & Hf).
  exists status'. unfold get_status. repeat (split; [assumption|]).
  intros seconds Hreply. rewrite <- Hpr, <- Ht in Hreply.
  rewrite (_ping_ip_reply env self' ip status' seconds Hl' Hreply). cbn [snd].
  eexists. split; [apply lookup_setitem_same|].
  simpl. rewrite Hpr. repeat split.
Qed.

(** C2. The probes that fail with [ping3.ping] returning [False] (the
    name does not resolve, the destination is unreachable) are not
    counted. Line 74 tests the answer against [None] only, so such a
    probe takes the branch of a reply: whatever the status was, the host
    is put online with response time 0, [consecutive_failures] goes back
    to 0, [last_success] is set, [last_failure] stays as it was and no
    warning is logged, where a failed probe should add one to the count
    and put the host offline. *)
Theorem failed_probe_returning_False_counts_as_reply :
  forall (self : PingMonitor) (ip : string) (status : IPStatus),
    lookup (monitored_ips self) ip = Some status ->
    ping3_ping env (probes self) ip (timeout self) = ReturnsFalse ->
    let self' := snd (_ping_ip env ip self) in
    exists status',
      get_status ip self' = Some status' /\
      is_online status' = true /\
      consecutive_failures status' = 0%Z /\
      response_time status' = 0%float /\
      last_success status' = Some (datetime_now env (probes self)) /\
      last_failure status' = last_failure status /\
      forall n, ~ In (Warning_failures ip n) (skipn (List.length (logger self)) (logger self')).
Proof.
  intros self ip status Hl Hp self'. subst self'.
  rewrite (_ping_ip_false env self ip status Hl Hp). cbn [snd].
  eexists. split; [apply lookup_setitem_same|].
  repeat (split; [reflexivity|]).
  intros n. unfold probed. cbn [logger]. rewrite app_nil_r.
  rewrite skipn_app, skipn_all, Nat.sub_diag. cbn [skipn app].
  destruct (first_raise _ _ _ _); simpl; [|tauto].
  intros [H|[]]. discriminate H.
Qed.

End Counting.

Lemma failures_accumulate_then_reset_witness :
  let self := add_ip "10.0.0.1" "A" (__init__ 1 5 3) in
  exists status',
    get_status "10.0.0.1" (ping_times env_two_failures 2 "10.0.0.1" self)
      = Some status' /\
    consecutive_failures status' = 2%Z.
Proof.
  intros self.
  destruct (failures_accumulate_then_reset env_two_failures self "10.0.0.1"
              (fresh_status "10.0.0.1" "A") 2) as (status' & H1 & H2 & _).
  - reflexivity.
  - lia.
  - intros k Hk. simpl. destruct k as [|[|k]]; [reflexivity | reflexivity | lia].
  - exists status'. split; [exact H1 | exact H2].
Defined.

Lemma failed_probe_returning_False_counts_as_reply_witness :
  let self := ping_times env_unreachable 2 "10.0.0.1"
                (add_ip "10.0.0.1" "A" (__init__ 1 5 3)) in
  (exists status, get_status "10.0.0.1" self = Some status /\
                  consecutive_failures status = 2%Z /\
                  is_online status = false) /\
  exists status',
    get_status "10.0.0.1" (snd (_ping_ip env_unreachable "10.0.0.1" self))
      = Some status' /\
    is_online status' = true /\
    consecutive_failures status' = 0%Z.
Proof.
  intros self. split.
  - eexists. split; [reflexivity|]. split; reflexivity.
  - destruct (failed_probe_returning_False_counts_as_reply env_unreachable
                self "10.0.0.1" _ eq_refl eq_refl)
      as (status' & H1 & H2 & H3 & _).
    exists status'. repeat split; assumption.
Defined.

(** ** Exceptions during a probe *)

(** C8. When [ping3.ping] raises, the exception is caught and logged, the
    worker goes on to the next host of the cycle, no callback is called,
    and the registry is exactly what it was: no status changes, so no
    failure is counted. *)
Theorem ping_exception_leaves_status :
  forall (env : Env) (self : PingMonitor) (ip : string) (rest : list string)
         (e : exn),
    ping3_ping env (probes self) ip (timeout self) = Raises e ->
    exists self',
      _monitor_loop_step env (AtPing ip rest) self = Some (AtFor rest, self') /\
      monitored_ips self' = monitored_ips self /\
      logger self' = logger self ++ [Error_ping ip e] /\
      trace self' = trace self ++ [EvPing (probes self) ip].
Proof.
  intros env self ip rest e Hp. exists (probe_failed self ip e).
  unfold _monitor_loop_step. rewrite (_ping_ip_raises env self ip e Hp).
  repeat split.
Qed.

Lemma ping_exception_leaves_status_witness :
  let self := add_ip "10.0.0.1" "A" (__init__ 1 5 3) in
  exists self',
    _monitor_loop_step env_ping_raises (AtPing "10.0.0.1" ["10.0.0.2"]) self
      = Some (AtFor ["10.0.0.2"], self') /\
    get_status "10.0.0.1" self' = Some (fresh_status "10.0.0.1" "A").
Proof.
  intros self.
  destruct (ping_exception_leaves_status env_ping_raises self "10.0.0.1"
              ["10.0.0.2"] (Raised "OSError" "Network is unreachable") eq_refl)
    as (self' & Hstep & Hreg & _).
  exists self'. split; [exact Hstep|].
  unfold get_status. rewrite Hreg. reflexivity.
Defined.

(** C1. The comment of line 88 says that all callbacks are notified,
    but the loop of lines 89-90 has no handler of its own: the one
    [try] of [_ping_ip] catches the exception of a callback outside the
    loop, which is over by then. With two callbacks of which the first
    raises, the probe of a registered host that answers calls the first
    callback and never the second. *)
Lemma raising_observer_silences_later_ones :
  let self' := snd (_ping_ip env_all_reply "10.0.0.1" monitor_two_observers) in
  (exists status, In (EvCallback 0 "10.0.0.1" status) (trace self')) /\
  ~ (exists status, In (EvCallback 1 "10.0.0.1" status) (trace self')).
Proof.
  split.
  - eexists. right. left. reflexivity.
  - intros [status H]. vm_compute in H.
    destruct H as [H|[H|[]]]; discriminate H.
Qed.

Lemma called_all n ip status l :
  first_raise n ip status l = None -> called n ip status l = l.
Proof.
  induction l as [|icb l IH]; simpl; [reflexivity|].
  destruct (snd icb n ip status); [discriminate|].
  intros H. now rewrite IH.
Qed.

Lemma called_prefix n ip status l :
  exists later, l = called n ip status l ++ later.
Proof.
  induction l as [|icb l [later IH]]; simpl; [now exists []|].
  destruct (snd icb n ip status).
  - now exists l.
  - exists later. now rewrite <- IH.
Qed.

(** What the loop of lines 89-90 does in general. When the probe of a
    registered host completes, with or without a reply, the status is
    updated and the callbacks are called with the address and the
    updated status in registration order, up to and including the first
    one that raises; the ones registered after it are not called for
    this probe. If none raises, all are called. In every case the
    exception is caught and logged and the worker goes on to the next
    host of the cycle. *)
Lemma observers_called_until_first_raise :
  forall (env : Env) (self : PingMonitor) (ip : string) (rest : list string)
         (status status' : IPStatus),
    lookup (monitored_ips self) ip = Some status ->
    let n := probes self in
    let cbs := enumerate (_callbacks self) in
    ((exists seconds,
        ping3_ping env n ip (timeout self) = Reply seconds /\
        status' = on_reply seconds (datetime_now env n) status) \/
     (ping3_ping env n ip (timeout self) = NoReply /\
      status' = on_no_reply (datetime_now env n) status) \/
     (ping3_ping env n ip (timeout self) = ReturnsFalse /\
      status' = on_reply False_as_number (datetime_now env n) status)) ->
    exists self',
      _monitor_loop_step env (AtPing ip rest) self = Some (AtFor rest, self') /\
      get_status ip self' = Some status' /\
      trace self' =
        trace self ++ EvPing n ip ::
          map (fun icb => EvCallback (fst icb) ip status')
              (called n ip status' cbs) /\
      (exists later, cbs = called n ip status' cbs ++ later) /\
      (first_raise n ip status' cbs = None -> called n ip status' cbs = cbs) /\
      (forall e, first_raise n ip status' cbs = Some e ->
                 exists records, logger self' = records ++ [Error_ping ip e]).
Proof.
  intros env self ip rest status status' Hl n cbs Hp.
  assert (Hrun : exists warn,
             _ping_ip env ip self = (inr tt, probed self ip status' warn)).
  { destruct Hp as [(seconds & Hp & ->)|[(Hp & ->)|(Hp & ->)]].
    - exists false. now apply _ping_ip_reply.
    - eexists. now apply _ping_ip_no_reply.
    - exists false. now apply _ping_ip_false. }
  destruct Hrun as [warn Hrun].
  exists (probed self ip status' warn). unfold _monitor_loop_step. rewrite Hrun.
  split; [reflexivity|]. split; [apply lookup_setitem_same|].
  split; [reflexivity|]. split; [apply called_prefix|].
  split; [apply called_all|].
  intros e He. simpl. fold n cbs. rewrite He. eexists. reflexivity.
Qed.

Lemma observers_called_until_first_raise_witness :
  exists self',
    _monitor_loop_step env_all_reply (AtPing "10.0.0.1" []) monitor_two_observers
      = Some (AtFor [], self') /\
    trace self' =
      [EvPing 0 "10.0.0.1";
       EvCallback 0 "10.0.0.1"
         (on_reply 0.25 0%Z (fresh_status "10.0.0.1" "A"))].
Proof.
  destruct (observers_called_until_first_raise env_all_reply
              monitor_two_observers "10.0.0.1" []
              (fresh_status "10.0.0.1" "A")
              (on_reply 0.25 0%Z (fresh_status "10.0.0.1" "A")) eq_refl)
    as (self' & Hstep & _ & Htrace & _).
  - left. exists 0.25%float. split; reflexivity.
  - exists self'. split; [exact Hstep | exact Htrace].
Defined.

(** ** The invariant of the status records *)

Lemma status_inv_fresh ip group : status_inv (fresh_status ip group).
Proof. repeat split; simpl; try discriminate; lia. Qed.

Lemma status_inv_on_reply seconds now status :
  (0 <=? seconds)%float = true -> status_inv (on_reply seconds now status).
Proof.
  intros H. repeat split; simpl; try discriminate; try lia.
  now apply FloatFacts.mul_1000_nonneg.
Qed.

Lemma status_inv_on_no_reply now status :
  status_inv status -> status_inv (on_no_reply now status).
Proof.
  intros (_ & _ & H). repeat split; simpl; try discriminate; lia.
Qed.

Lemma Forall_setitem {V} (P : V -> Prop) (d : dict V) key v :
  Forall (fun kv => P (snd kv)) d -> P v ->
  Forall (fun kv => P (snd kv)) (setitem d key v).
Proof.
  intros Hd Hv. induction d as [|[k w] d IH]; simpl.
  - repeat constructor. exact Hv.
  - inversion Hd; subst. destruct (String.eqb k key); constructor; auto.
Qed.

Lemma Forall_delitem {V} (P : V -> Prop) (d : dict V) key :
  Forall (fun kv => P (snd kv)) d ->
  Forall (fun kv => P (snd kv)) (delitem d key).
Proof.
  intros Hd. induction d as [|[k w] d IH]; simpl; [constructor|].
  inversion Hd; subst. destruct (String.eqb k key); [assumption|].
  constructor; auto.
Qed.

Lemma Forall_lookup {V} (P : V -> Prop) (d : dict V) key v :
  Forall (fun kv => P (snd kv)) d -> lookup d key = Some v -> P v.
Proof.
  intros Hd. induction d as [|[k w] d IH]; simpl; [discriminate|].
  inversion Hd; subst. destruct (String.eqb k key); [|auto].
  intros [= <-]. assumption.
Qed.

Section Invariant.

Variable env : Env.
Hypothesis Hlat : latencies_nonnegative env.

Lemma registry_ok_add_ip ip group self :
  registry_ok self -> registry_ok (add_ip ip group self).
Proof.
  unfold registry_ok, add_ip. intros H.
  destruct (contains (monitored_ips self) ip); simpl; [exact H|].
  apply Forall_setitem; [exact H | apply status_inv_fresh].
Qed.

Lemma registry_ok_remove_ip ip self :
  registry_ok self -> registry_ok (remove_ip ip self).
Proof.
  unfold registry_ok, remove_ip. intros H.
  destruct (contains (monitored_ips self) ip); simpl; [|exact H].
  now apply Forall_delitem.
Qed.

Lemma registry_ok__ping_ip ip self :
  registry_ok self -> registry_ok (snd (_ping_ip env ip self)).
Proof.
  unfold registry_ok. intros H. rewrite _ping_ip_registry.
  destruct (ping3_ping env (probes self) ip (timeout self)) as [s| | |e] eqn:Hp;
    [| | |exact H];
    destruct (lookup (monitored_ips self) ip) as [status|] eqn:Hl;
    try exact H; apply Forall_setitem; try exact H.
  - apply status_inv_on_reply. exact (Hlat _ _ _ _ Hp).
  - apply status_inv_on_no_reply. exact (Forall_lookup _ _ _ _ H Hl).
  - apply status_inv_on_reply. reflexivity.
Qed.

Lemma registry_ok_step a sys :
  registry_ok (monitor sys) -> registry_ok (monitor (step env a sys)).
Proof.
  intros H. destruct a as [|tid]; simpl.
  - unfold controller_step. destruct (in_stop sys).
    + unfold stop_join.
      destruct (_monitor_thread (monitor sys)) as [tid|];
        [destruct (thread_alive (threads sys) tid)|]; exact H.
    + destruct (script sys) as [|[| |ip group|ip|cb] rest]; simpl; try exact H.
      * unfold start. simpl.
        destruct (_monitor_thread (monitor sys)) as [tid|];
          [destruct (thread_alive (threads sys) tid)|]; exact H.
      * now apply registry_ok_add_ip.
      * now apply registry_ok_remove_ip.
  - destruct (nth_error (threads sys) tid) as [pc|]; [|exact H].
    destruct pc as [|[|ip rest]|ip rest| | |e]; simpl; try exact H.
    + destruct (_stop_event (monitor sys)); exact H.
    + destruct (_stop_event (monitor sys)); exact H.
    + pose proof (registry_ok__ping_ip ip (monitor sys) H) as H'.
      destruct (_ping_ip env ip (monitor sys)) as [[e|u] self']; exact H'.
    + destruct (time_sleep env (interval (monitor sys))); exact H.
Qed.

Lemma registry_ok_run schedule : forall sys,
  registry_ok (monitor sys) -> registry_ok (monitor (run env schedule sys)).
Proof.
  unfold run. induction schedule as [|a schedule IH]; intros sys H; simpl.
  - exact H.
  - apply IH. now apply registry_ok_step.
Qed.

(** C4. In every state that a program reaches from a new monitor (the
    controlling thread adds and removes hosts, registers callbacks, starts
    and stops; the worker probes), under any schedule and with round trips
    that are not negative, every registered status satisfies: online
    implies no consecutive failures and a response time that is not
    negative; offline implies response time 0; the failure count is not
    negative. *)
Theorem status_invariant :
  forall (timeout interval : float) (failure_threshold : Z)
         (script : list call) (schedule : list actor)
         (ip : string) (status : IPStatus),
    get_status ip
      (monitor (run env schedule
                  (boot timeout interval failure_threshold script)))
      = Some status ->
    (is_online status = true ->
       consecutive_failures status = 0%Z /\
       (0 <=? response_time status)%float = true) /\
    (is_online status = false -> response_time status = 0%float) /\
    (0 <= consecutive_failures status)%Z.
Proof.
  intros t i f script schedule ip status Hget.
  change (status_inv status).
  refine (Forall_lookup _ _ _ _ _ Hget).
  apply registry_ok_run. constructor.
Qed.

End Invariant.

Lemma status_invariant_witness :
  exists status,
    get_status "10.0.0.1"
      (monitor (run env_all_reply
                  [Controller; Controller; Worker 0; Worker 0; Worker 0]
                  (boot 1 5 3 [AddIp "10.0.0.1" "A"; Start])))
      = Some status /\
    is_online status = true /\ consecutive_failures status = 0%Z.
Proof.
  assert (Hlat : latencies_nonnegative env_all_reply).
  { intros n ip t s [= <-]. reflexivity. }
  eexists. split; [reflexivity|].
  pose proof (status_invariant env_all_reply Hlat 1%float 5%float 3%Z
                [AddIp "10.0.0.1" "A"; Start]
                [Controller; Controller; Worker 0; Worker 0; Worker 0]
                "10.0.0.1" _ eq_refl) as H.
  split; [reflexivity|]. exact (proj1 (proj1 H eq_refl)).
Defined.

(** ** Stopping the worker *)

Lemma watched_app tr evs :
  watched (tr ++ evs) = fold_left watch evs (watched tr).
Proof. unfold watched. apply fold_left_app. Qed.

Lemma watch_failed_sticks evs : forall b,
  snd (fold_left watch evs (b, false)) = false.
Proof.
  induction evs as [|ev evs IH]; intros b; [reflexivity|].
  destruct ev; simpl; apply IH.
Qed.

Lemma watch_stopped_no_ping post : forall ok,
  ~ In EvStartCalled post ->
  snd (fold_left watch post (true, ok)) = true ->
  forall n ip, ~ In (EvPing n ip) post.
Proof.
  induction post as [|ev post IH]; intros ok Hstart Hok n ip; [intros []|].
  assert (Hstart' : ~ In EvStartCalled post) by (intros H; apply Hstart; now right).
  intros [->|Hin].
  - simpl in Hok. rewrite andb_false_r, watch_failed_sticks in Hok. discriminate.
  - destruct ev; simpl in Hok.
    + rewrite andb_false_r, watch_failed_sticks in Hok. discriminate.
    + exact (IH _ Hstart' Hok n ip Hin).
    + exact (IH _ Hstart' Hok n ip Hin).
    + apply Hstart. now left.
    + exact (IH _ Hstart' Hok n ip Hin).
Qed.

Lemma watched_silent tr : snd (watched tr) = true -> silent_after_stop tr.
Proof.
  intros Hok pre post -> Hstart.
  rewrite watched_app in Hok. simpl in Hok.
  exact (watch_stopped_no_ping post _ Hstart Hok).
Qed.

Lemma watch_worker_events evs : forall ok,
  Forall worker_event evs -> fold_left watch evs (false, ok) = (false, ok).
Proof.
  induction evs as [|ev evs IH]; intros ok H; [reflexivity|].
  inversion H as [|? ? Hev Hevs]; subst.
  destruct ev; simpl in *; try contradiction; rewrite ?andb_true_r; now apply IH.
Qed.

Lemma nth_set_nth {A} (l : list A) : forall tid k x d,
  nth k (set_nth tid x l) d =
  if Nat.eqb k tid then (if Nat.ltb tid (List.length l) then x else d)
  else nth k l d.
Proof.
  induction l as [|y l IH]; intros tid k x d.
  - destruct tid, k; simpl; try reflexivity.
    now destruct (Nat.eqb k tid).
  - destruct tid as [|tid], k as [|k]; simpl; try reflexivity.
    rewrite IH. change (Nat.ltb (S tid) (S (List.length l)))
      with (Nat.ltb tid (List.length l)). reflexivity.
Qed.

Section Stopping.

Variable env : Env.

(** A step of the worker touches neither [_monitor_thread] nor the marks
    of the controlling thread. *)
Lemma _monitor_loop_step_frame pc self pc' self' :
  _monitor_loop_step env pc self = Some (pc', self') ->
  is_alive pc = true /\
  _monitor_thread self' = _monitor_thread self /\
  exists evs, trace self' = trace self ++ evs /\ Forall worker_event evs.
Proof.
  destruct pc as [|[|ip rest]|ip rest| | |e]; simpl; try discriminate.
  - destruct (_stop_event self); intros [= <- <-]; repeat split;
      exists []; now rewrite app_nil_r.
  - intros [= <- <-]. repeat split. exists []. now rewrite app_nil_r.
  - destruct (_stop_event self); intros [= <- <-]; repeat split;
      exists []; now rewrite app_nil_r.
  - pose proof (_ping_ip_frame env self ip) as (_ & _ & _ & _ & _ & Hthr & _).
    assert (Htr : exists evs, trace (snd (_ping_ip env ip self)) = trace self ++ evs
                              /\ Forall worker_event evs).
    { destruct (_ping_ip_trace env self ip) as (evs & Htr & Hevs).
      eexists. split; [exact Htr|]. constructor; [exact I|].
      apply Forall_forall. intros ev Hin.
      destruct (proj1 (Forall_forall _ _) Hevs ev Hin) as (i & a & st & ->).
      exact I. }
    destruct (_ping_ip env ip self) as [[e|u] self1]; simpl in *;
      intros [= <- <-]; repeat split; assumption.
  - destruct (time_sleep env (interval self)); intros [= <- <-];
      repeat split; exists [EvSleep (interval self)];
      (split; [reflexivity | repeat constructor]).
Qed.

(** The one exception that can leave [_monitor_loop] is an exception of
    [time.sleep]: a step ends in [Died] at line 102 only. *)
Lemma _monitor_loop_step_died pc self e self' :
  _monitor_loop_step env pc self = Some (Died e, self') ->
  pc = AtSleep /\ time_sleep env (interval self) = Some e.
Proof.
  destruct pc as [|[|ip rest]|ip rest| | |e0]; simpl; try discriminate.
  - destruct (_stop_event self); discriminate.
  - destruct (_stop_event self); discriminate.
  - pose proof (_ping_ip_returns env self ip) as Hret.
    destruct (_ping_ip env ip self) as [[e0|u] self1]; [discriminate Hret|].
    discriminate.
  - destruct (time_sleep env (interval self)) as [e0|]; [|discriminate].
    intros [= <- <-]. split; reflexivity.
Qed.

Lemma threads_ok_worker tid sys :
  threads_ok sys -> threads_ok (step env (Worker tid) sys).
Proof.
  intros (I1 & I2 & I3). simpl.
  destruct (nth_error (threads sys) tid) as [pc|] eqn:Hnth; [|now repeat split].
  destruct (_monitor_loop_step env pc (monitor sys)) as [[pc' self']|] eqn:Hstep;
    [|now repeat split].
  destruct (_monitor_loop_step_frame _ _ _ _ Hstep) as (Halive & Hthr & evs & Htr & Hevs).
  assert (Hpc : nth tid (threads sys) Finished = pc)
    by (now apply nth_error_nth).
  assert (Hmine : _monitor_thread (monitor sys) = Some tid).
  { apply I1. unfold thread_alive. now rewrite Hpc. }
  assert (Hrun : fst (watched (trace (monitor sys))) = false).
  { destruct (fst (watched (trace (monitor sys)))); [|reflexivity].
    rewrite I2 in Hmine by reflexivity. discriminate. }
  assert (Hw : watched (trace self') = watched (trace (monitor sys))).
  { rewrite Htr, watched_app.
    destruct (watched (trace (monitor sys))) as [b ok]. simpl in Hrun. subst b.
    now apply watch_worker_events. }
  unfold threads_ok. simpl. rewrite Hw, Hthr. split; [|split; assumption].
  intros k Hk. unfold thread_alive in Hk. rewrite nth_set_nth in Hk.
  destruct (Nat.eqb k tid) eqn:Hkt; [|now apply I1].
  apply Nat.eqb_eq in Hkt. now subst k.
Qed.

Lemma no_thread_alive_after_start sys k :
  (forall tid, thread_alive (threads sys) tid = true ->
               _monitor_thread (monitor sys) = Some tid) ->
  match _monitor_thread (monitor sys) with
  | None => true
  | Some tid => negb (thread_alive (threads sys) tid)
  end = true ->
  thread_alive (threads sys ++ [AtWhile]) k = true ->
  k = List.length (threads sys).
Proof.
  intros I1 Hcond Hk. unfold thread_alive in Hk.
  destruct (Nat.lt_trichotomy k (List.length (threads sys))) as [Hlt|[Heq|Hgt]].
  - rewrite app_nth1 in Hk by exact Hlt.
    pose proof (I1 k Hk) as Hmine. rewrite Hmine in Hcond.
    unfold thread_alive in Hcond. rewrite Hk in Hcond. discriminate.
  - exact Heq.
  - rewrite nth_overflow in Hk; [discriminate|].
    rewrite length_app. simpl. lia.
Qed.

Lemma threads_ok_controller sys :
  threads_ok sys -> threads_ok (step env Controller sys).
Proof.
  intros H0. pose proof H0 as (I1 & I2 & I3). simpl. unfold controller_step.
  destruct (in_stop sys).
  - unfold stop_join.
    destruct (_monitor_thread (monitor sys)) as [tid|] eqn:Hthr.
    + destruct (thread_alive (threads sys) tid) eqn:Halive;
        [exact H0|].
      unfold threads_ok. simpl. rewrite watched_app. simpl.
      repeat split; [|exact I3].
      intros k Hk. pose proof (I1 k Hk) as Hmine.
      injection Hmine as <-. congruence.
    + unfold threads_ok. simpl. rewrite watched_app, Hthr. simpl.
      repeat split; [|exact I3].
      intros k Hk. pose proof (I1 k Hk) as Hmine. congruence.
  - destruct (script sys) as [|[| |ip group|ip|cb] rest];
      [exact H0| | | | |].
    + unfold start. cbn [pop_script monitor threads emit _monitor_thread].
      destruct (match _monitor_thread (monitor sys) with
                | None => true
                | Some tid => negb (thread_alive (threads sys) tid)
                end) eqn:Hcond.
      * unfold threads_ok. simpl. rewrite watched_app. simpl.
        split; [|split; [discriminate | exact I3]].
        intros k Hk. f_equal. symmetry.
        now apply (no_thread_alive_after_start sys k).
      * unfold threads_ok. simpl. rewrite watched_app. simpl.
        split; [exact I1 | split; [discriminate | exact I3]].
    + exact H0.
    + unfold threads_ok, with_monitor, add_ip. simpl.
      destruct (contains (monitored_ips (monitor sys)) ip); exact H0.
    + unfold threads_ok, with_monitor, remove_ip. simpl.
      destruct (contains (monitored_ips (monitor sys)) ip); exact H0.
    + exact H0.
Qed.

Lemma threads_ok_run schedule : forall sys,
  threads_ok sys -> threads_ok (run env schedule sys).
Proof.
  unfold run. induction schedule as [|a schedule IH]; intros sys H; simpl.
  - exact H.
  - apply IH. destruct a; [now apply threads_ok_controller
                          | now apply threads_ok_worker].
Qed.

Lemma threads_ok_boot timeout interval failure_threshold script :
  threads_ok (boot timeout interval failure_threshold script).
Proof.
  repeat split; simpl; try discriminate.
  intros tid. unfold thread_alive. simpl. destruct tid; discriminate.
Qed.

(** C9. In every execution of a program (a new monitor, any calls of the
    controlling thread, any schedule): once [stop()] has returned and until
    [start()] is called again, [ping3.ping] is not called, and right after
    that return no thread of the monitor is alive. A worker that finds the
    stop flag set between two hosts leaves the [for] loop without probing
    the hosts that remain, and leaves the [while] loop after its sleep. *)
Theorem stop_returns_after_worker_exit :
  forall (timeout interval : float) (failure_threshold : Z)
         (script : list call) (schedule : list actor),
    let sys := run env schedule
                 (boot timeout interval failure_threshold script) in
    silent_after_stop (trace (monitor sys)) /\
    (forall pre,
       trace (monitor sys) = pre ++ [EvStopReturned] ->
       forall tid, thread_alive (threads sys) tid = false) /\
    (forall self rest,
       _stop_event self = true ->
       _monitor_loop_step env (AtFor rest) self = Some (AtSleep, self) /\
       _monitor_loop_step env AtWhile self = Some (Finished, self)).
Proof.
  intros t i f script schedule sys.
  destruct (threads_ok_run schedule _ (threads_ok_boot t i f script))
    as (I1 & I2 & I3). fold sys in I1, I2, I3.
  split; [now apply watched_silent|]. split.
  - intros pre Htr tid. destruct (thread_alive (threads sys) tid) eqn:Hk;
      [|reflexivity].
    rewrite (I1 tid Hk) in I2. rewrite Htr, watched_app in I2.
    discriminate I2. reflexivity.
  - intros self rest Hstop. simpl. rewrite Hstop.
    split; [now destruct rest | reflexivity].
Qed.

End Stopping.

(** The scenario of section 8 of the specification, run: after three
    cycles 10.0.0.1 is offline with three consecutive failures, 10.0.0.2
    is online with none, and the callback saw 10.0.0.1 at three failures. *)
Example scenario_three_cycles :
  let self := monitor (run env_scenario scenario_schedule
                         (boot 1 5 3 scenario_script)) in
  (exists status,
     get_status "10.0.0.1" self = Some status /\
     consecutive_failures status = 3%Z /\ is_online status = false /\
     In (EvCallback 0 "10.0.0.1" status) (trace self)) /\
  (exists status,
     get_status "10.0.0.2" self = Some status /\
     consecutive_failures status = 0%Z /\ is_online status = true) /\
  probes self = 6 /\
  In (Warning_failures "10.0.0.1" 3) (logger self).
Proof.
  vm_compute. split; [|split; [|split]].
  - eexists. split; [reflexivity|]. split; [reflexivity|].
    split; [reflexivity|]. do 12 right. left. reflexivity.
  - eexists. split; [reflexivity|]. split; reflexivity.
  - reflexivity.
  - do 3 right. left. reflexivity.
Qed.

End MonitorFacts.

(** ** Sending an alert *)

Module AlertFacts.
Import Py PyFacts Alerts Examples.

Lemma extends_refl w : extends w w [].
Proof.
  repeat split; rewrite ?app_nil_r; trivial. exists []. now rewrite app_nil_r.
Qed.

Lemma extends_trans w w1 w2 evs1 evs2 :
  extends w w1 evs1 -> extends w1 w2 evs2 -> extends w w2 (evs1 ++ evs2).
Proof.
  intros (F1 & C1 & H1 & A1 & T1 & l1 & L1) (F2 & C2 & H2 & A2 & T2 & l2 & L2).
  repeat split; try congruence.
  - rewrite T2, T1. now rewrite app_assoc.
  - exists (l1 ++ l2). rewrite L2, L1. now rewrite app_assoc.
Qed.

Lemma attempts_app evs1 evs2 :
  attempts (evs1 ++ evs2) = attempts evs1 ++ attempts evs2.
Proof.
  induction evs1 as [|ev evs1 IH]; simpl; [reflexivity|].
  destruct (opens ev); simpl; now rewrite IH.
Qed.

(** Closes a goal [exists w' evs, run = (inr tt, w') /\ extends w w' evs
    /\ attempts evs = chs] once the run has been evaluated. *)
Ltac close_block :=
  do 2 eexists; split; [reflexivity|]; split;
  [ unfold extends; cbn [self files config alert_history logger alerts trace];
    repeat split; rewrite <- ?app_assoc; try reflexivity;
    first [ eexists; rewrite <- ?app_assoc; reflexivity
          | exists []; rewrite app_nil_r; reflexivity ]
  | reflexivity ].

Section Channels.

Variable env : AlertEnv.

Lemma desktop_block n title message app w :
  exists w' evs,
    try_except
      (foreign_call (EvNotify title message app)
         (notification_notify env n title message app))
      (fun e => write_log (Error_desktop e)) w = (inr tt, w') /\
    extends w w' evs /\ attempts evs = [Desktop].
Proof.
  unfold try_except, foreign_call, write_log, on_self, modify.
  destruct (notification_notify env n title message app); simpl; close_block.
Qed.

Lemma sound_block n c w0 w :
  exists w' evs,
    try_except
      (if truthy (sound_file c) && os_path_exists (sound_file c) w0
       then foreign_call (EvPlaySound (sound_file c))
              (winsound_PlaySound env n (sound_file c))
       else foreign_call (EvBeep 1000 1000) (winsound_Beep env n 1000 1000))
      (fun e => write_log (Error_sound e)) w = (inr tt, w') /\
    extends w w' evs /\ attempts evs = [Sound].
Proof.
  unfold try_except, foreign_call, write_log, on_self, modify.
  destruct (truthy (sound_file c) && os_path_exists (sound_file c) w0);
    [destruct (winsound_PlaySound env n (sound_file c))
    |destruct (winsound_Beep env n 1000 1000)];
    simpl; close_block.
Qed.

Lemma email_block n ip message w :
  exists w' evs,
    _send_email_alert env n ip message w = (inr tt, w') /\
    extends w w' evs /\ attempts evs = [Email].
Proof.
  unfold _send_email_alert, with_smtp, try_except, bind, get, foreign_call,
    write_log,
    on_self, modify.
  set (c := config (self w)).
  destruct (smtplib_SMTP env n (email_smtp_server c) (email_smtp_port c));
    simpl; [close_block|].
  destruct (smtp_starttls env n); simpl;
    [destruct (smtp_quit env n); simpl; close_block|].
  destruct (smtp_login env n (email_username c) (email_password c)); simpl;
    [destruct (smtp_quit env n); simpl; close_block|].
  destruct (smtp_send_message env n _); simpl;
    destruct (smtp_quit env n); simpl; close_block.
Qed.


End Channels.

(** ** Reading the history *)

Lemma last_records_suffix {A} (n : nat) (l : list A) :
  exists older,
    l = older ++ last_records n l /\
    List.length (last_records n l) = Nat.min n (List.length l).
Proof.
  unfold last_records. exists (firstn (List.length l - n) l). split.
  - now rewrite firstn_skipn.
  - rewrite length_skipn. lia.
Qed.

(** For a positive [limit], [get_alert_history] returns the last [limit]
    records, oldest first, and the whole history when it is shorter. *)
Lemma get_alert_history_positive (m : AlertManager) (limit : Z) :
  (0 < limit)%Z ->
  get_alert_history limit m = last_records (Z.to_nat limit) (alert_history m).
Proof.
  intros Hpos. unfold get_alert_history, slice_from, last_records.
  destruct (Z.ltb_spec (- limit) 0) as [_|H]; [|lia].
  f_equal. lia.
Qed.

(** C10. With [limit = 0] the slice is [alert_history[-0:]], which is the
    whole list: a history that is not empty comes back entire and in
    order, not as the empty list. *)
Theorem get_alert_history_zero_is_everything :
  forall m : AlertManager,
    alert_history m <> [] ->
    get_alert_history 0 m = alert_history m /\
    get_alert_history 0 m <> [].
Proof.
  intros m Hne.
  assert (H : get_alert_history 0 m = alert_history m).
  { unfold get_alert_history, slice_from. simpl.
    destruct (alert_history m); reflexivity. }
  split; [exact H | now rewrite H].
Qed.

Lemma get_alert_history_zero_is_everything_witness :
  get_alert_history 0 manager_two_alerts = alert_history manager_two_alerts.
Proof.
  apply (get_alert_history_zero_is_everything manager_two_alerts).
  discriminate.
Defined.

(** C6 at [limit = 0]: the last 0 records of a history of two are none,
    and [get_alert_history(0)] returns both. *)
Theorem get_alert_history_zero_differs_from_last_zero :
  last_records 0 (alert_history manager_two_alerts) = [] /\
  get_alert_history 0 manager_two_alerts = alert_history manager_two_alerts /\
  get_alert_history 0 manager_two_alerts <>
    last_records 0 (alert_history manager_two_alerts).
Proof.
  split; [reflexivity|]. split; [reflexivity|]. discriminate.
Qed.

End AlertFacts.

(** ** The JSON text of a history *)

Module JsonFacts.
Import Py PyFacts Json.
Local Open Scope string_scope.

Lemma append_assoc (a b c : string) : (a ++ b) ++ c = a ++ (b ++ c).
Proof. induction a as [|x a IH]; simpl; [reflexivity | now rewrite IH]. Qed.

Lemma length_append (a b : string) :
  String.length (a ++ b) = String.length a + String.length b.
Proof. induction a as [|x a IH]; simpl; [reflexivity | now rewrite IH]. Qed.

Lemma scanstring_escape_char (c : ascii) (tail : string) :
  scanstring (escape_char c ++ tail) = prepend (String c "") (scanstring tail).
Proof.
  destruct c as [[] [] [] [] [] [] [] []]; simpl;
    try reflexivity; destruct tail as [|b [|u tail']]; reflexivity.
Qed.

Lemma scanstring_escape (s rest : string) :
  scanstring (escape s ++ String quote rest) = Some (s, rest).
Proof.
  induction s as [|c s IH].
  - simpl. reflexivity.
  - cbn [escape]. rewrite append_assoc, scanstring_escape_char, IH. reflexivity.
Qed.

Lemma skip_ws_spaces n c rest :
  is_ws c = false -> skip_ws (spaces n ++ String c rest) = String c rest.
Proof.
  intros Hc. induction n as [|n IH]; simpl.
  - now rewrite Hc.
  - exact IH.
Qed.

Lemma skip_ws_newline_indent level c rest :
  is_ws c = false -> skip_ws (newline_indent level ++ String c rest) = String c rest.
Proof.
  intros Hc. unfold newline_indent. cbn [append skip_ws].
  change (is_ws newline) with true. cbn iota. now apply skip_ws_spaces.
Qed.

Lemma scan_once_string fuel s rest :
  scan_once (S fuel) (encode_basestring s ++ rest) = Some (Str s, rest).
Proof.
  unfold encode_basestring. cbn [append scan_once].
  change (Ascii.eqb quote quote) with true. cbn iota.
  rewrite append_assoc. cbn [append]. now rewrite scanstring_escape.
Qed.


Lemma object_items_last fuel s key r r1 v r2 r3 :
  scanstring s = Some (key, r) ->
  skip_ws r = String ":" r1 ->
  scan_once fuel (skip_ws r1) = Some (v, r2) ->
  skip_ws r2 = String "}" r3 ->
  object_items (S fuel) s = Some ([(key, v)], r3).
Proof.
  intros H1 H2 H3 H4. cbn [object_items]. rewrite H1, H2. cbn.
  rewrite H3, H4. reflexivity.
Qed.

Lemma object_items_more fuel s key r r1 v r2 r3 r4 pairs r5 :
  scanstring s = Some (key, r) ->
  skip_ws r = String ":" r1 ->
  scan_once fuel (skip_ws r1) = Some (v, r2) ->
  skip_ws r2 = String "," r3 ->
  skip_ws r3 = String quote r4 ->
  object_items fuel r4 = Some (pairs, r5) ->
  object_items (S fuel) s = Some ((key, v) :: pairs, r5).
Proof.
  intros H1 H2 H3 H4 H5 H6. cbn [object_items]. rewrite H1, H2. cbn.
  rewrite H3, H4. cbn. rewrite H5. cbn. rewrite H6. reflexivity.
Qed.

Lemma scan_once_object fuel rest r1 pairs r :
  skip_ws rest = String quote r1 ->
  object_items fuel r1 = Some (pairs, r) ->
  scan_once (S fuel) (String "{" rest) = Some (Object (dict_of_pairs pairs), r).
Proof.
  intros H1 H2. cbn [scan_once]. cbn. rewrite H1. cbn. rewrite H2. reflexivity.
Qed.

Lemma scan_once_empty_object fuel rest :
  scan_once (S fuel) (String "{" (String "}" rest)) = Some (Object [], rest).
Proof. reflexivity. Qed.

Lemma array_items_last fuel s v r r1 :
  scan_once fuel s = Some (v, r) ->
  skip_ws r = String "]" r1 ->
  array_items (S fuel) s = Some ([v], r1).
Proof.
  intros H1 H2. cbn [array_items]. rewrite H1, H2. reflexivity.
Qed.

Lemma array_items_more fuel s v r r1 items r2 :
  scan_once fuel s = Some (v, r) ->
  skip_ws r = String "," r1 ->
  array_items fuel (skip_ws r1) = Some (items, r2) ->
  array_items (S fuel) s = Some (v :: items, r2).
Proof.
  intros H1 H2 H3. cbn [array_items]. rewrite H1, H2. cbn. rewrite H3.
  reflexivity.
Qed.

Lemma scan_once_array fuel rest c1 r1 items r :
  skip_ws rest = String c1 r1 ->
  Ascii.eqb c1 "]" = false ->
  array_items fuel (String c1 r1) = Some (items, r) ->
  scan_once (S fuel) (String "[" rest) = Some (Array items, r).
Proof.
  intros H1 H2 H3. cbn [scan_once]. cbn. rewrite H1, H2, H3. reflexivity.
Qed.

Lemma skip_ws_before_string v rest :
  skip_ws (String " " (encode_basestring v ++ rest)) = encode_basestring v ++ rest.
Proof. reflexivity. Qed.

Lemma object_items_continued others : forall k v fuel level rest,
  List.length others + 2 <= fuel ->
  object_items fuel
    (escape k ++ String quote
       (String ":" (String " " (encode_basestring v ++
        continued (S level) (map enc_pair others) ++
        newline_indent level ++ String "}" rest))))
  = Some ((k, Str v) :: map to_pair others, rest).
Proof.
  induction others as [|[k' v'] others IH]; intros k v fuel level rest Hfuel;
    (destruct fuel as [|[|fuel]]; [simpl in Hfuel; lia | simpl in Hfuel; lia |]).
  - eapply object_items_last.
    + apply scanstring_escape.
    + reflexivity.
    + rewrite skip_ws_before_string. apply scan_once_string.
    + cbn [continued map append]. now apply skip_ws_newline_indent.
  - eapply object_items_more.
    + apply scanstring_escape.
    + reflexivity.
    + rewrite skip_ws_before_string. apply scan_once_string.
    + reflexivity.
    + cbn [map]. unfold enc_pair at 1. cbn [fst snd].
      unfold encode_basestring at 1. rewrite !append_assoc.
      apply skip_ws_newline_indent. reflexivity.
    + cbn [append]. rewrite !append_assoc. cbn [append]. apply IH.
      simpl in Hfuel. lia.
Qed.

(** A dict, as [iterencode_dict] writes it, is read back as its pairs. *)
Lemma scan_once_dict d : forall fuel level rest,
  List.length d + 2 <= fuel ->
  scan_once fuel (iterencode_dict level d ++ rest)
  = Some (Object (dict_of_pairs (map to_pair d)), rest).
Proof.
  intros fuel level rest Hfuel. destruct fuel as [|fuel]; [lia|].
  destruct d as [|[k v] others].
  - reflexivity.
  - unfold iterencode_dict. cbn [map separated fst snd append].
    eapply scan_once_object.
    + unfold enc_pair at 1. cbn [fst snd].
      unfold encode_basestring at 1. rewrite !append_assoc.
      apply skip_ws_newline_indent. reflexivity.
    + cbn [append]. rewrite !append_assoc. cbn [append].
      apply (object_items_continued others k v fuel level rest).
      simpl in Hfuel. lia.
Qed.

Lemma iterencode_dict_head level d :
  exists t, iterencode_dict level d = String "{" t.
Proof. destruct d; eexists; reflexivity. Qed.

Lemma skip_ws_before_dict level level' d rest :
  skip_ws (newline_indent level ++ iterencode_dict level' d ++ rest)
  = iterencode_dict level' d ++ rest.
Proof.
  destruct (iterencode_dict_head level' d) as [t ->].
  cbn [append]. now apply skip_ws_newline_indent.
Qed.

Lemma array_items_continued ds : forall d fuel level rest,
  need (d :: ds) <= fuel ->
  array_items fuel
    (iterencode_dict (S level) d ++
     continued (S level) (map (iterencode_dict (S level)) ds) ++
     newline_indent level ++ String "]" rest)
  = Some (to_object d :: map to_object ds, rest).
Proof.
  induction ds as [|d' ds IH]; intros d fuel level rest Hfuel;
    (destruct fuel as [|fuel]; [simpl in Hfuel; lia|]).
  - eapply array_items_last.
    + apply scan_once_dict. simpl in Hfuel. lia.
    + cbn [continued map append]. now apply skip_ws_newline_indent.
  - eapply array_items_more.
    + apply scan_once_dict. simpl in Hfuel. lia.
    + reflexivity.
    + rewrite !append_assoc, skip_ws_before_dict. apply IH.
      cbn [need] in Hfuel |- *. lia.
Qed.

Lemma scan_once_array' fuel rest s' items r :
  skip_ws rest = s' ->
  (exists t, s' = String "{" t) ->
  array_items fuel s' = Some (items, r) ->
  scan_once (S fuel) (String "[" rest) = Some (Array items, r).
Proof.
  intros H1 [t ->] H3. now apply (scan_once_array fuel rest "{"%char t).
Qed.

Lemma scan_once_list h : forall fuel rest,
  need h < fuel ->
  scan_once fuel (iterencode_list 0 h ++ rest)
  = Some (Array (map to_object h), rest).
Proof.
  intros fuel rest Hfuel. destruct fuel as [|fuel]; [lia|].
  destruct h as [|d ds]; [reflexivity|].
  unfold iterencode_list. cbn [map separated append].
  eapply scan_once_array'.
  - rewrite !append_assoc. apply skip_ws_before_dict.
  - destruct (iterencode_dict_head 1 d) as [t ->]. now eexists.
  - cbn [append].
    apply (array_items_continued ds d fuel 0 rest). lia.
Qed.

Lemma length_continued level items :
  List.length items <= String.length (continued level items).
Proof.
  induction items as [|item items IH]; simpl; [lia|].
  rewrite !length_append. lia.
Qed.

Lemma length_iterencode_dict level d :
  List.length d + 2 <= String.length (iterencode_dict level d).
Proof.
  destruct d as [|kv others]; [simpl; lia|].
  unfold iterencode_dict. cbn [map separated].
  rewrite !length_append. unfold newline_indent.
  pose proof (length_continued (S level) (map enc_pair others)) as H.
  rewrite length_map in H. cbn [String.length List.length]. lia.
Qed.

Lemma need_continued level ds :
  need ds <= String.length (continued level (map (iterencode_dict level) ds)).
Proof.
  induction ds as [|d ds IH]; [simpl; lia|].
  cbn [need map continued]. rewrite !length_append.
  pose proof (length_iterencode_dict level d). cbn [String.length]. lia.
Qed.

Lemma need_dump h : need h <= String.length (dump h).
Proof.
  destruct h as [|d ds]; [simpl; lia|].
  unfold dump, iterencode_list. cbn [need map separated].
  rewrite !length_append.
  pose proof (length_iterencode_dict 1 d).
  pose proof (need_continued 1 ds). cbn [String.length]. lia.
Qed.

Lemma append_nil_r (s : string) : s ++ "" = s.
Proof. induction s as [|c s IH]; simpl; [reflexivity | now rewrite IH]. Qed.

Lemma dump_head h : exists t, dump h = String "[" t.
Proof. destruct h; eexists; reflexivity. Qed.

Lemma loads_dump h : loads (dump h) = Some (Array (map to_object h)).
Proof.
  unfold loads.
  pose proof (need_dump h) as Hneed.
  pose proof (scan_once_list h (2 * String.length (dump h) + 2) "") as Hscan.
  rewrite append_nil_r in Hscan. fold (dump h) in Hscan.
  destruct (dump_head h) as [t Ht].
  assert (Hbom : after (String "239" (String "187" (String "191" ""))) (dump h) = None)
    by (rewrite Ht; reflexivity).
  assert (Hws : skip_ws (dump h) = dump h) by (rewrite Ht; reflexivity).
  rewrite Hbom, Hws, Hscan; [reflexivity | lia].
Qed.

Lemma setitem_absent {V} (d : dict V) key v :
  ~ In key (keys d) -> setitem d key v = (d ++ [(key, v)])%list.
Proof.
  induction d as [|[k w] d IH]; simpl; [reflexivity|].
  intros Hnot. destruct (String.eqb_spec k key) as [->|Hne].
  - elim Hnot. now left.
  - rewrite IH; [reflexivity|]. intros H. apply Hnot. now right.
Qed.

Lemma dict_of_pairs_from {V} (pairs : list (string * V)) : forall acc,
  NoDup (keys acc ++ keys pairs)%list ->
  fold_left (fun d kv => setitem d (fst kv) (snd kv)) pairs acc
  = (acc ++ pairs)%list.
Proof.
  induction pairs as [|[k v] pairs IH]; intros acc Hnd; simpl.
  - now rewrite app_nil_r.
  - rewrite setitem_absent.
    + rewrite IH.
      * now rewrite <- app_assoc.
      * unfold keys in *. rewrite map_app. simpl. now rewrite <- app_assoc.
    + simpl in Hnd. apply NoDup_remove_2 in Hnd.
      intros H. apply Hnd. apply in_or_app. now left.
Qed.

Lemma dict_of_pairs_wf {V} (d : dict V) : wf d -> dict_of_pairs d = d.
Proof. intros H. unfold dict_of_pairs. now rewrite dict_of_pairs_from. Qed.

Lemma as_str_dict_to_pair d : as_str_dict (map to_pair d) = Some d.
Proof.
  induction d as [|[k v] d IH]; simpl; [reflexivity|]. now rewrite IH.
Qed.

Lemma keys_to_pair d : keys (map to_pair d) = keys d.
Proof. unfold keys. rewrite map_map. reflexivity. Qed.

Lemma as_dicts_to_object h :
  Forall wf h -> as_dicts (map to_object h) = Some h.
Proof.
  induction 1 as [|d h Hd Hh IH]; simpl; [reflexivity|].
  rewrite dict_of_pairs_wf by (unfold wf; now rewrite keys_to_pair).
  now rewrite as_str_dict_to_pair, IH.
Qed.

(** What [json.dump] writes, [json.load] reads back. *)
Lemma load_dump_history h :
  Forall wf h ->
  match loads (dump h) with
  | Some v => as_history v
  | None => None
  end = Some h.
Proof.
  intros Hwf. rewrite loads_dump. simpl. now apply as_dicts_to_object.
Qed.

(** *** The text has no carriage return, and survives the file *)

Lemma read_write_newlines crlf text :
  no_cr text = true -> read_newlines (write_newlines crlf text) = text.
Proof.
  induction text as [|c text IH]; [reflexivity|].
  cbn [no_cr]. intros H. apply andb_prop in H as [Hc Ht].
  cbn [write_newlines]. destruct (Ascii.eqb_spec c LF) as [->|Hlf].
  - destruct crlf; cbn; now rewrite IH.
  - cbn [read_newlines]. destruct (Ascii.eqb c CR); [discriminate|].
    now rewrite IH.
Qed.

Lemma no_cr_append a b : no_cr (a ++ b) = no_cr a && no_cr b.
Proof.
  induction a as [|c a IH]; [reflexivity|].
  cbn [append no_cr]. now rewrite IH, andb_assoc.
Qed.

Lemma no_cr_escape_char c : no_cr (escape_char c) = true.
Proof. destruct c as [[] [] [] [] [] [] [] []]; reflexivity. Qed.

Lemma no_cr_escape s : no_cr (escape s) = true.
Proof.
  induction s as [|c s IH]; [reflexivity|].
  cbn [escape]. now rewrite no_cr_append, no_cr_escape_char, IH.
Qed.

Lemma no_cr_encode_basestring s : no_cr (encode_basestring s) = true.
Proof.
  unfold encode_basestring. cbn [no_cr].
  now rewrite no_cr_append, no_cr_escape.
Qed.

Lemma no_cr_newline_indent level : no_cr (newline_indent level) = true.
Proof.
  unfold newline_indent. cbn [no_cr]. generalize (2 * level).
  induction n as [|n IH]; [reflexivity | exact IH].
Qed.

Lemma no_cr_continued level items :
  Forall (fun item => no_cr item = true) items ->
  no_cr (continued level items) = true.
Proof.
  induction 1 as [|item items Hitem _ IH]; [reflexivity|].
  cbn [continued append no_cr].
  now rewrite !no_cr_append, no_cr_newline_indent, Hitem, IH.
Qed.

Lemma no_cr_separated level items :
  Forall (fun item => no_cr item = true) items ->
  no_cr (separated level items) = true.
Proof.
  destruct 1 as [|item items Hitem Hitems]; [reflexivity|].
  cbn [separated].
  now rewrite !no_cr_append, no_cr_newline_indent, Hitem, no_cr_continued.
Qed.

Lemma no_cr_iterencode_dict level d : no_cr (iterencode_dict level d) = true.
Proof.
  destruct d as [|kv d]; [reflexivity|].
  unfold iterencode_dict. cbn [append no_cr].
  rewrite !no_cr_append, no_cr_newline_indent, no_cr_separated; [reflexivity|].
  apply Forall_map, Forall_forall. intros [k v] _. unfold enc_pair.
  cbn [fst snd]. now rewrite !no_cr_append, !no_cr_encode_basestring.
Qed.

Lemma no_cr_dump h : no_cr (dump h) = true.
Proof.
  destruct h as [|d h]; [reflexivity|].
  unfold dump, iterencode_list. cbn [append no_cr].
  rewrite !no_cr_append, no_cr_newline_indent, no_cr_separated; [reflexivity|].
  apply Forall_map, Forall_forall. intros d' _. apply no_cr_iterencode_dict.
Qed.

End JsonFacts.
(** ** The codec and the chunks of [json.dump] *)

Module CodecFacts.
Import Py PyFacts Json JsonFacts.
Local Open Scope string_scope.

Lemma utf8_scan_app (a b : string) : forall st,
  utf8_scan st (a ++ b) =
  match utf8_scan st a with
  | Some st' => utf8_scan st' b
  | None => None
  end.
Proof.
  induction a as [|c a IH]; intros st; [reflexivity|].
  cbn [append utf8_scan]. destruct (utf8_step st c); [apply IH | reflexivity].
Qed.

Lemma utf8_valid_scan text :
  utf8_valid text = true <-> utf8_scan AtChar text = Some AtChar.
Proof.
  unfold utf8_valid. destruct (utf8_scan AtChar text) as [[]|];
    split; intros H; try discriminate H; reflexivity.
Qed.

Lemma utf8_valid_app a b :
  utf8_valid a = true -> utf8_valid b = true -> utf8_valid (a ++ b) = true.
Proof.
  rewrite !utf8_valid_scan, utf8_scan_app. now intros -> ->.
Qed.

(** The text that is put together from pieces. *)
Lemma utf8_valid_joined chunks :
  Forall (fun chunk => utf8_valid chunk = true) chunks ->
  utf8_valid (fold_right append "" chunks) = true.
Proof.
  induction 1 as [|chunk chunks Hc _ IH]; [reflexivity|].
  cbn [fold_right]. now apply utf8_valid_app.
Qed.

(** The escapes of JSON are ASCII for ASCII: a text and its escaped form
    are read alike. *)
Lemma utf8_scan_escape_char st c tail :
  utf8_scan st (escape_char c ++ tail) = utf8_scan st (String c tail).
Proof.
  destruct st; destruct c as [[] [] [] [] [] [] [] []]; reflexivity.
Qed.

Lemma utf8_scan_escape s tail : forall st,
  utf8_scan st (escape s ++ tail) = utf8_scan st (s ++ tail).
Proof.
  induction s as [|c s IH]; intros st; [reflexivity|].
  cbn [escape]. rewrite append_assoc, utf8_scan_escape_char.
  cbn [append utf8_scan]. destruct (utf8_step st c); [apply IH | reflexivity].
Qed.

Lemma utf8_valid_encode_basestring s :
  utf8_valid s = true -> utf8_valid (encode_basestring s) = true.
Proof.
  rewrite !utf8_valid_scan. intros H. unfold encode_basestring.
  cbn [utf8_scan]. change (utf8_step AtChar quote) with (Some AtChar).
  cbv iota. now rewrite utf8_scan_escape, utf8_scan_app, H.
Qed.

Lemma utf8_valid_spaces n : utf8_valid (spaces n) = true.
Proof.
  apply utf8_valid_scan. induction n as [|n IH]; [reflexivity | exact IH].
Qed.

Lemma utf8_valid_newline_indent level : utf8_valid (newline_indent level) = true.
Proof.
  unfold newline_indent. apply (utf8_valid_app (String newline "")); [reflexivity|].
  apply utf8_valid_spaces.
Qed.

Lemma utf8_valid_separator level :
  utf8_valid ("," ++ newline_indent level) = true.
Proof. apply utf8_valid_app; [reflexivity | apply utf8_valid_newline_indent]. Qed.

Lemma utf8_valid_pair_chunks kv :
  utf8_valid (fst kv) = true /\ utf8_valid (snd kv) = true ->
  Forall (fun chunk => utf8_valid chunk = true) (pair_chunks kv).
Proof.
  intros [Hk Hv]. unfold pair_chunks.
  repeat constructor; now apply utf8_valid_encode_basestring.
Qed.

Lemma utf8_valid_dict_chunks level d :
  Forall (fun kv => utf8_valid (fst kv) = true /\ utf8_valid (snd kv) = true) d ->
  Forall (fun chunk => utf8_valid chunk = true) (dict_chunks level d).
Proof.
  intros Hd. destruct Hd as [|kv d Hkv Hd]; [repeat constructor|].
  unfold dict_chunks.
  constructor; [reflexivity|].
  constructor; [apply utf8_valid_newline_indent|].
  apply Forall_app. split; [now apply utf8_valid_pair_chunks|].
  apply Forall_app. split.
  - induction Hd as [|kv' d' Hkv' _ IH]; [constructor|].
    cbn [flat_map]. constructor; [apply utf8_valid_separator|].
    apply Forall_app. split; [now apply utf8_valid_pair_chunks | exact IH].
  - constructor; [apply utf8_valid_newline_indent|]. repeat constructor.
Qed.

Lemma utf8_valid_iterencode h :
  encodable h ->
  Forall (fun chunk => utf8_valid chunk = true) (iterencode h).
Proof.
  unfold encodable, iterencode. intros Hh.
  destruct Hh as [|d h Hd Hh]; [repeat constructor|].
  unfold list_chunks.
  constructor; [apply (utf8_valid_app "["); [reflexivity|];
                apply utf8_valid_newline_indent|].
  apply Forall_app. split; [now apply utf8_valid_dict_chunks|].
  apply Forall_app. split.
  - induction Hh as [|d' h' Hd' _ IH]; [constructor|].
    cbn [flat_map]. constructor; [apply utf8_valid_separator|].
    apply Forall_app. split; [now apply utf8_valid_dict_chunks | exact IH].
  - constructor; [apply utf8_valid_newline_indent|]. repeat constructor.
Qed.

(** Put together, the chunks are the text of [dump]. *)
Lemma joined_app l1 l2 :
  fold_right append "" (l1 ++ l2)%list =
  fold_right append "" l1 ++ fold_right append "" l2.
Proof.
  induction l1 as [|x l1 IH]; [reflexivity|].
  cbn [app fold_right]. now rewrite IH, append_assoc.
Qed.

Lemma joined_pair_chunks kv :
  fold_right append "" (pair_chunks kv) = enc_pair kv.
Proof.
  unfold pair_chunks, enc_pair. cbn [fold_right].
  now rewrite append_nil_r.
Qed.

Lemma joined_dict_items level d :
  fold_right append ""
    (flat_map (fun kv => ("," ++ newline_indent level) :: pair_chunks kv) d) =
  continued level (map enc_pair d).
Proof.
  induction d as [|kv d IH]; [reflexivity|].
  cbn [flat_map map continued app fold_right].
  rewrite joined_app, joined_pair_chunks, IH, !append_assoc. reflexivity.
Qed.

Lemma joined_dict_chunks level d :
  fold_right append "" (dict_chunks level d) = iterencode_dict level d.
Proof.
  destruct d as [|kv d]; [reflexivity|].
  unfold dict_chunks, iterencode_dict.
  cbn [app fold_right map separated].
  rewrite !joined_app, joined_pair_chunks, joined_dict_items.
  cbn [fold_right append]. now rewrite !append_assoc, ?append_nil_r.
Qed.

Lemma joined_list_items level h :
  fold_right append ""
    (flat_map (fun d => ("," ++ newline_indent level) :: dict_chunks level d) h) =
  continued level (map (iterencode_dict level) h).
Proof.
  induction h as [|d h IH]; [reflexivity|].
  cbn [flat_map map continued app fold_right].
  rewrite joined_app, joined_dict_chunks, IH, !append_assoc. reflexivity.
Qed.

Lemma joined_iterencode h : fold_right append "" (iterencode h) = dump h.
Proof.
  unfold iterencode, dump. destruct h as [|d h]; [reflexivity|].
  unfold list_chunks, iterencode_list.
  cbn [app fold_right map separated].
  rewrite !joined_app, joined_dict_chunks, joined_list_items.
  cbn [fold_right append]. now rewrite !append_assoc, ?append_nil_r.
Qed.

(** When every chunk can be encoded, all of them are written. *)
Lemma write_chunks_all chunks :
  Forall (fun chunk => utf8_valid chunk = true) chunks ->
  write_chunks chunks = (fold_right append "" chunks, None).
Proof.
  induction 1 as [|chunk chunks Hc _ IH]; [reflexivity|].
  cbn [write_chunks fold_right]. now rewrite Hc, IH.
Qed.

Lemma write_chunks_iterencode h :
  encodable h -> write_chunks (iterencode h) = (dump h, None).
Proof.
  intros Hh. rewrite write_chunks_all by now apply utf8_valid_iterencode.
  now rewrite joined_iterencode.
Qed.

(** The writing either takes every chunk, or stops in front of the
    first chunk that cannot be encoded: the file then holds the text up
    to that chunk. *)
Lemma write_chunks_cases chunks :
  (Forall (fun chunk => utf8_valid chunk = true) chunks /\
   write_chunks chunks = (fold_right append "" chunks, None)) \/
  (exists text chunk more,
     write_chunks chunks = (text, Some (Raised "UnicodeEncodeError" chunk)) /\
     fold_right append "" chunks = text ++ chunk ++ more /\
     utf8_valid chunk = false /\ utf8_valid text = true).
Proof.
  induction chunks as [|chunk chunks IH].
  - left. split; [constructor | reflexivity].
  - cbn [write_chunks fold_right]. destruct (utf8_valid chunk) eqn:Hc.
    + destruct IH as [[Hall ->]|(text & bad & more & -> & Hj & Hbad & Ht)].
      * left. split; [now constructor | reflexivity].
      * right. exists (chunk ++ text), bad, more.
        split; [reflexivity|]. split; [now rewrite Hj, append_assoc|].
        split; [exact Hbad | now apply utf8_valid_app].
    + right. exists "", chunk, (fold_right append "" chunks).
      repeat split; assumption.
Qed.

(** The chunks can all be encoded only if the strings of the history
    can. *)
Lemma utf8_valid_encode_basestring_inv s :
  utf8_valid (encode_basestring s) = true -> utf8_valid s = true.
Proof.
  rewrite !utf8_valid_scan. unfold encode_basestring.
  cbn [utf8_scan]. change (utf8_step AtChar quote) with (Some AtChar).
  cbv iota. rewrite utf8_scan_escape, utf8_scan_app.
  destruct (utf8_scan AtChar s) as [[]|]; cbn; intros H;
    try discriminate H; reflexivity.
Qed.

Lemma pair_chunks_inv kv :
  Forall (fun chunk => utf8_valid chunk = true) (pair_chunks kv) ->
  utf8_valid (fst kv) = true /\ utf8_valid (snd kv) = true.
Proof.
  unfold pair_chunks. intros H.
  inversion H as [|? ? Hk H1]; subst. inversion H1 as [|? ? _ H2]; subst.
  inversion H2 as [|? ? Hv _]; subst.
  split; now apply utf8_valid_encode_basestring_inv.
Qed.

Lemma dict_chunks_inv level d :
  Forall (fun chunk => utf8_valid chunk = true) (dict_chunks level d) ->
  Forall (fun kv => utf8_valid (fst kv) = true /\ utf8_valid (snd kv) = true) d.
Proof.
  destruct d as [|kv d]; [constructor|].
  unfold dict_chunks. intros H.
  apply Forall_app in H as [_ H]. apply Forall_app in H as [Hkv H].
  apply Forall_app in H as [Hd _].
  constructor; [now apply pair_chunks_inv|].
  induction d as [|kv' d IH]; [constructor|].
  cbn [flat_map] in Hd. apply Forall_app in Hd as [Hkv' Hd'].
  inversion Hkv' as [|? ? _ Hkv'']; subst.
  constructor; [now apply pair_chunks_inv | now apply IH].
Qed.

Lemma iterencode_inv h :
  Forall (fun chunk => utf8_valid chunk = true) (iterencode h) -> encodable h.
Proof.
  unfold iterencode, encodable. destruct h as [|d h]; [constructor|].
  unfold list_chunks. intros H. inversion H as [|? ? _ H']; subst.
  clear H. rename H' into H.
  apply Forall_app in H as [Hd H]. apply Forall_app in H as [Hh _].
  constructor; [now apply dict_chunks_inv in Hd|].
  induction h as [|d' h IH]; [constructor|].
  cbn [flat_map] in Hh. apply Forall_app in Hh as [Hd' Hh'].
  inversion Hd' as [|? ? _ Hd'']; subst.
  constructor; [now apply dict_chunks_inv in Hd'' | now apply IH].
Qed.

(** A history with a string that cannot be encoded: the writing stops
    with a part of the text in the file, never all of it. *)
Lemma write_chunks_not_encodable h :
  ~ encodable h ->
  exists text chunk more,
    write_chunks (iterencode h) =
      (text, Some (Raised "UnicodeEncodeError" chunk)) /\
    dump h = text ++ chunk ++ more /\
    utf8_valid chunk = false /\ utf8_valid text = true.
Proof.
  intros Hno.
  destruct (write_chunks_cases (iterencode h))
    as [[Hall _]|(text & chunk & more & Hw & Hj & Hbad & Ht)].
  - elim Hno. now apply iterencode_inv.
  - exists text, chunk, more. now rewrite <- joined_iterencode.
Qed.

(** The translation of the line ends keeps a text readable. *)
Lemma utf8_scan_write_newlines crlf text : forall st,
  utf8_scan st (write_newlines crlf text) = utf8_scan st text.
Proof.
  induction text as [|c text IH]; intros st; [reflexivity|].
  cbn [write_newlines]. destruct (Ascii.eqb_spec c LF) as [->|_].
  - destruct crlf; destruct st; cbn; try reflexivity; apply IH.
  - cbn [utf8_scan]. destruct (utf8_step st c); [apply IH | reflexivity].
Qed.

Lemma utf8_valid_write_newlines crlf text :
  utf8_valid (write_newlines crlf text) = utf8_valid text.
Proof. unfold utf8_valid. now rewrite utf8_scan_write_newlines. Qed.

Lemma utf8_valid_dump h : encodable h -> utf8_valid (dump h) = true.
Proof.
  intros Hh. rewrite <- joined_iterencode.
  now apply utf8_valid_joined, utf8_valid_iterencode.
Qed.

End CodecFacts.

(** ** Saving and loading the history *)

Module PersistenceFacts.
Import Py PyFacts Json JsonFacts CodecFacts Alerts Examples.




End PersistenceFacts.

(** * Further properties of the monitor *)

Module MonitorMore.
Import Py PyFacts Monitor MonitorFacts MonitorRuns Examples MoreExamples.

(** ** Removing hosts *)

Lemma contains_false_not_in {V} (d : dict V) key :
  contains d key = false -> ~ In key (keys d).
Proof.
  intros H Hin. apply contains_In in Hin. congruence.
Qed.

Lemma delitem_absent {V} (d : dict V) key :
  contains d key = false -> delitem d key = d.
Proof.
  induction d as [|[k w] d IH]; simpl; [reflexivity|].
  destruct (String.eqb k key); [discriminate|]. intros H. now rewrite IH.
Qed.

Lemma lookup_delitem_other {V} (d : dict V) key other :
  other <> key -> lookup (delitem d key) other = lookup d other.
Proof.
  intros Hne. induction d as [|[k w] d IH]; simpl; [reflexivity|].
  destruct (String.eqb_spec k key) as [->|Hk]; simpl.
  - destruct (String.eqb_spec key other); [congruence | reflexivity].
  - destruct (String.eqb k other); [reflexivity | exact IH].
Qed.

Lemma contains_delitem_same {V} (d : dict V) key :
  wf d -> contains (delitem d key) key = false.
Proof.
  unfold wf. induction d as [|[k w] d IH]; simpl; [reflexivity|].
  intros Hnd. inversion Hnd as [|? ? Hnotin Hnd']; subst.
  destruct (String.eqb_spec k key) as [->|Hk]; simpl.
  - destruct (contains d key) eqn:E; [|reflexivity].
    apply contains_In in E. contradiction.
  - destruct (String.eqb_spec k key); [contradiction | now apply IH].
Qed.

Lemma keys_delitem_incl {V} (d : dict V) key x :
  In x (keys (delitem d key)) -> In x (keys d).
Proof.
  induction d as [|[k w] d IH]; simpl; [tauto|].
  destruct (String.eqb k key); simpl; [now right|].
  intros [H|H]; [now left | right; now apply IH].
Qed.

Lemma wf_delitem {V} (d : dict V) key : wf d -> wf (delitem d key).
Proof.
  unfold wf. induction d as [|[k w] d IH]; simpl; [trivial|].
  intros Hnd. inversion Hnd as [|? ? Hnotin Hnd']; subst.
  destruct (String.eqb k key); [exact Hnd'|].
  simpl. constructor; [|now apply IH].
  intros Hin. apply Hnotin. now apply keys_delitem_incl in Hin.
Qed.

Lemma delitem_setitem_absent {V} (d : dict V) key v :
  contains d key = false -> delitem (setitem d key v) key = d.
Proof.
  induction d as [|[k w] d IH]; simpl.
  - now rewrite String.eqb_refl.
  - destruct (String.eqb k key) eqn:E; [discriminate|].
    intros H. simpl. rewrite E. now rewrite IH.
Qed.

(** X1. On a registry without duplicate keys, [remove_ip] makes the host
    unknown to [get_status], leaves the status of every other host as it
    was, and removing again changes nothing. *)
Theorem remove_ip_forgets_host :
  forall (self : PingMonitor) (ip : string),
    wf (monitored_ips self) ->
    get_status ip (remove_ip ip self) = None /\
    (forall other, other <> ip ->
       get_status other (remove_ip ip self) = get_status other self) /\
    remove_ip ip (remove_ip ip self) = remove_ip ip self.
Proof.
  intros self ip Hwf. unfold get_status, remove_ip.
  destruct (contains (monitored_ips self) ip) eqn:E; simpl.
  - pose proof (contains_delitem_same _ ip Hwf) as Hgone.
    rewrite Hgone. split; [|split; [|reflexivity]].
    + rewrite contains_lookup in Hgone.
      now destruct (lookup (delitem (monitored_ips self) ip) ip).
    + intros other Hne. now apply lookup_delitem_other.
  - rewrite E. split; [|split; [|reflexivity]].
    + rewrite contains_lookup in E.
      now destruct (lookup (monitored_ips self) ip).
    + reflexivity.
Qed.

Lemma remove_ip_forgets_host_witness :
  get_status "10.0.0.1" (remove_ip "10.0.0.1" monitor_two_hosts) = None /\
  get_status "10.0.0.2" (remove_ip "10.0.0.1" monitor_two_hosts)
    = Some (fresh_status "10.0.0.2" "B").
Proof.
  assert (Hwf : wf (monitored_ips monitor_two_hosts))
    by (repeat constructor; simpl; intuition discriminate).
  destruct (remove_ip_forgets_host monitor_two_hosts "10.0.0.1" Hwf)
    as (H1 & H2 & _).
  split; [exact H1|]. rewrite H2 by discriminate. reflexivity.
Defined.

(** X2. Adding a host that was not registered and removing it again
    gives back the registry as it was, entry for entry and in the same
    order. *)
Theorem add_then_remove_restores_registry :
  forall (self : PingMonitor) (ip group : string),
    contains (monitored_ips self) ip = false ->
    monitored_ips (remove_ip ip (add_ip ip group self)) = monitored_ips self.
Proof.
  intros self ip group Habsent. unfold add_ip. rewrite Habsent. simpl.
  unfold remove_ip. simpl.
  rewrite contains_lookup, lookup_setitem_same. simpl.
  now apply delitem_setitem_absent.
Qed.

Lemma add_then_remove_restores_registry_witness :
  monitored_ips (remove_ip "10.0.0.9" (add_ip "10.0.0.9" "C" monitor_two_hosts))
  = monitored_ips monitor_two_hosts.
Proof.
  apply (add_then_remove_restores_registry monitor_two_hosts "10.0.0.9" "C").
  reflexivity.
Defined.

(** X3. Removing a registered host and adding it again does not bring
    its status back: the host returns as a new, offline entry with no
    failures and no timestamps, and it is the last one in the iteration
    order of the registry, whatever its status and place were. *)
Theorem remove_then_add_resets_host :
  forall (self : PingMonitor) (ip group : string),
    wf (monitored_ips self) ->
    monitored_ips (add_ip ip group (remove_ip ip self)) =
      (delitem (monitored_ips self) ip ++ [(ip, fresh_status ip group)])%list /\
    get_status ip (add_ip ip group (remove_ip ip self))
      = Some (fresh_status ip group).
Proof.
  intros self ip group Hwf.
  assert (Hgone : contains (monitored_ips (remove_ip ip self)) ip = false).
  { unfold remove_ip. destruct (contains (monitored_ips self) ip) eqn:E; simpl.
    - now apply contains_delitem_same.
    - exact E. }
  assert (Hreg : monitored_ips (remove_ip ip self) = delitem (monitored_ips self) ip).
  { unfold remove_ip. destruct (contains (monitored_ips self) ip) eqn:E; simpl.
    - reflexivity.
    - now rewrite delitem_absent. }
  unfold get_status, add_ip. rewrite Hgone. simpl. split.
  - rewrite Hreg. apply JsonFacts.setitem_absent.
    rewrite <- Hreg. now apply contains_false_not_in.
  - apply lookup_setitem_same.
Qed.

Lemma remove_then_add_resets_host_witness :
  get_status "10.0.0.1" monitor_two_hosts <> Some (fresh_status "10.0.0.1" "A") /\
  keys (monitored_ips (add_ip "10.0.0.1" "A" (remove_ip "10.0.0.1" monitor_two_hosts)))
    = ["10.0.0.2"; "10.0.0.1"] /\
  get_status "10.0.0.1" (add_ip "10.0.0.1" "A" (remove_ip "10.0.0.1" monitor_two_hosts))
    = Some (fresh_status "10.0.0.1" "A").
Proof.
  assert (Hwf : wf (monitored_ips monitor_two_hosts))
    by (repeat constructor; simpl; intuition discriminate).
  destruct (remove_then_add_resets_host monitor_two_hosts "10.0.0.1" "A" Hwf)
    as (H1 & H2).
  split; [discriminate|]. split; [now rewrite H1 | exact H2].
Defined.

(** ** What a probe leaves alone *)

Section ProbeFrame.

Variable env : Env.

Lemma keys__ping_ip self ip :
  keys (monitored_ips (snd (_ping_ip env ip self))) = keys (monitored_ips self).
Proof.
  rewrite _ping_ip_registry.
  destruct (ping3_ping env (probes self) ip (timeout self)); try reflexivity;
    destruct (lookup (monitored_ips self) ip) eqn:Hl; try reflexivity;
    apply keys_setitem_present; rewrite contains_lookup, Hl; reflexivity.
Qed.

(** X4. The code of [_ping_ip] itself writes to one entry of the
    registry only. With callbacks that do not write to the monitor, a
    probe of one host adds and removes no host and leaves the status of
    every other host as it was, whatever [ping3.ping] answers (a number,
    [None], [False], an exception) and whichever callback raises. *)
Theorem probe_touches_one_host :
  forall (self : PingMonitor) (ip : string),
    keys (monitored_ips (snd (_ping_ip env ip self))) = keys (monitored_ips self) /\
    forall other, other <> ip ->
      get_status other (snd (_ping_ip env ip self)) = get_status other self.
Proof.
  intros self ip. split; [apply keys__ping_ip|].
  intros other Hne. unfold get_status. rewrite _ping_ip_registry.
  destruct (ping3_ping env (probes self) ip (timeout self)); try reflexivity;
    destruct (lookup (monitored_ips self) ip); try reflexivity;
    apply lookup_setitem_other; congruence.
Qed.

(** X5. When the host is no longer in the registry (it was removed after
    the worker took its snapshot of the keys), [ping3.ping] is still
    called for it; if that call returns, the [KeyError] of the lookup is
    caught and logged, no callback is called, the host is not put back
    and the worker goes on to the next host. *)
Theorem probe_of_removed_host :
  forall (self : PingMonitor) (ip : string) (rest : list string),
    get_status ip self = None ->
    (forall e, ping3_ping env (probes self) ip (timeout self) <> Raises e) ->
    exists self',
      _monitor_loop_step env (AtPing ip rest) self = Some (AtFor rest, self') /\
      monitored_ips self' = monitored_ips self /\
      logger self' = logger self ++ [Error_ping ip (KeyError ip)] /\
      trace self' = trace self ++ [EvPing (probes self) ip].
Proof.
  intros self ip rest Hl Hp. exists (probe_failed self ip (KeyError ip)).
  unfold _monitor_loop_step. rewrite (_ping_ip_unregistered env self ip Hl Hp).
  repeat split.
Qed.

End ProbeFrame.

Lemma probe_of_removed_host_witness :
  exists self',
    _monitor_loop_step env_all_reply (AtPing "10.0.0.7" ["10.0.0.2"])
      monitor_two_hosts = Some (AtFor ["10.0.0.2"], self') /\
    monitored_ips self' = monitored_ips monitor_two_hosts /\
    logger self' =
      logger monitor_two_hosts ++ [Error_ping "10.0.0.7" (KeyError "10.0.0.7")].
Proof.
  destruct (probe_of_removed_host env_all_reply monitor_two_hosts "10.0.0.7"
              ["10.0.0.2"] eq_refl) as (self' & H1 & H2 & H3 & _).
  - intros e. discriminate.
  - exists self'. repeat split; assumption.
Defined.

(** ** Invariants of the registry in every run *)

Lemma Forall_setitem_pair {V} (P : string * V -> Prop) (d : dict V) key v :
  Forall P d -> P (key, v) -> Forall P (setitem d key v).
Proof.
  intros Hd Hv. induction d as [|[k w] d IH]; simpl.
  - repeat constructor. exact Hv.
  - inversion Hd; subst. destruct (String.eqb_spec k key) as [->|Hk];
      constructor; auto.
Qed.

Lemma Forall_delitem_pair {V} (P : string * V -> Prop) (d : dict V) key :
  Forall P d -> Forall P (delitem d key).
Proof.
  intros Hd. induction d as [|[k w] d IH]; simpl; [constructor|].
  inversion Hd; subst. destruct (String.eqb k key); [assumption|].
  constructor; auto.
Qed.

Lemma Forall_lookup_pair {V} (P : string * V -> Prop) (d : dict V) key v :
  Forall P d -> lookup d key = Some v -> P (key, v).
Proof.
  intros Hd. induction d as [|[k w] d IH]; simpl; [discriminate|].
  inversion Hd; subst. destruct (String.eqb_spec k key) as [->|Hk]; [|auto].
  intros [= <-]. assumption.
Qed.

Section PairInvariant.

Variable P : string * IPStatus -> Prop.
Hypothesis P_fresh : forall ip group, P (ip, fresh_status ip group).
Hypothesis P_reply :
  forall key status seconds now,
    P (key, status) -> P (key, on_reply seconds now status).
Hypothesis P_no_reply :
  forall key status now, P (key, status) -> P (key, on_no_reply now status).

Variable env : Env.

Lemma holds_add_ip ip group self :
  holds P self -> holds P (add_ip ip group self).
Proof.
  unfold holds, add_ip. intros [Hwf H].
  destruct (contains (monitored_ips self) ip); simpl; [now split|].
  split; [now apply wf_setitem | now apply Forall_setitem_pair].
Qed.

Lemma holds_remove_ip ip self :
  holds P self -> holds P (remove_ip ip self).
Proof.
  unfold holds, remove_ip. intros [Hwf H].
  destruct (contains (monitored_ips self) ip); simpl; [|now split].
  split; [now apply wf_delitem | now apply Forall_delitem_pair].
Qed.

Lemma holds__ping_ip ip self :
  holds P self -> holds P (snd (_ping_ip env ip self)).
Proof.
  unfold holds. intros [Hwf H]. split.
  - unfold wf. now rewrite keys__ping_ip.
  - rewrite _ping_ip_registry.
    destruct (ping3_ping env (probes self) ip (timeout self)); try exact H;
      destruct (lookup (monitored_ips self) ip) as [status|] eqn:Hl;
      try exact H; apply Forall_setitem_pair; try exact H.
    + apply P_reply. exact (Forall_lookup_pair _ _ _ _ H Hl).
    + apply P_no_reply. exact (Forall_lookup_pair _ _ _ _ H Hl).
    + apply P_reply. exact (Forall_lookup_pair _ _ _ _ H Hl).
Qed.

Lemma holds_step a sys :
  holds P (monitor sys) -> holds P (monitor (step env a sys)).
Proof.
  intros H. destruct a as [|tid]; simpl.
  - unfold controller_step. destruct (in_stop sys).
    + unfold stop_join.
      destruct (_monitor_thread (monitor sys)) as [tid|];
        [destruct (thread_alive (threads sys) tid)|]; exact H.
    + destruct (script sys) as [|[| |ip group|ip|cb] rest]; simpl; try exact H.
      * unfold start. simpl.
        destruct (_monitor_thread (monitor sys)) as [tid|];
          [destruct (thread_alive (threads sys) tid)|]; exact H.
      * now apply holds_add_ip.
      * now apply holds_remove_ip.
  - destruct (nth_error (threads sys) tid) as [pc|]; [|exact H].
    destruct pc as [|[|ip rest]|ip rest| | |e]; simpl; try exact H.
    + destruct (_stop_event (monitor sys)); exact H.
    + destruct (_stop_event (monitor sys)); exact H.
    + pose proof (holds__ping_ip ip (monitor sys) H) as H'.
      destruct (_ping_ip env ip (monitor sys)) as [[e|u] self']; exact H'.
    + destruct (time_sleep env (interval (monitor sys))); exact H.
Qed.

Lemma holds_run schedule : forall sys,
  holds P (monitor sys) -> holds P (monitor (run env schedule sys)).
Proof.
  unfold run. induction schedule as [|a schedule IH]; intros sys H; simpl.
  - exact H.
  - apply IH. now apply holds_step.
Qed.

Lemma holds_boot timeout interval failure_threshold script :
  holds P (monitor (boot timeout interval failure_threshold script)).
Proof. split; constructor. Qed.

End PairInvariant.

(** X6. In every state that a program reaches from a new monitor, under
    any schedule, the registry holds no address twice and every status is
    stored under its own address: [get_status ip] never returns the
    status of another host. *)
Theorem registry_keyed_by_address :
  forall (env : Env) (timeout interval : float) (failure_threshold : Z)
         (script : list call) (schedule : list actor),
    let self := monitor (run env schedule
                           (boot timeout interval failure_threshold script)) in
    NoDup (keys (monitored_ips self)) /\
    forall ip status, get_status ip self = Some status -> Monitor.ip status = ip.
Proof.
  intros env t i f script schedule self.
  assert (H : holds keyed self).
  { apply holds_run; [reflexivity | | | apply holds_boot];
      intros; assumption. }
  destruct H as [Hwf H]. split; [exact Hwf|].
  intros ip status Hget. exact (Forall_lookup_pair keyed _ _ _ H Hget).
Qed.

(** X7. In every such state the timestamps agree with the state of the
    host: a host that is online has a [last_success], and a host with
    consecutive failures has a [last_failure]. *)
Theorem timestamps_follow_state :
  forall (env : Env) (timeout interval : float) (failure_threshold : Z)
         (script : list call) (schedule : list actor)
         (ip : string) (status : IPStatus),
    get_status ip
      (monitor (run env schedule
                  (boot timeout interval failure_threshold script)))
      = Some status ->
    (is_online status = true -> last_success status <> None) /\
    (consecutive_failures status <> 0%Z -> last_failure status <> None).
Proof.
  intros env t i f script schedule ip status Hget.
  assert (H : holds dated
                (monitor (run env schedule (boot t i f script)))).
  { apply holds_run; [| | |apply holds_boot].
    - intros ip' g. split; simpl; [discriminate | congruence].
    - intros k st s now _. split; simpl; [discriminate | congruence].
    - intros k st now [H1 H2]. split; simpl; [discriminate | discriminate]. }
  destruct H as [_ H]. exact (Forall_lookup_pair dated _ _ _ H Hget).
Qed.

Lemma timestamps_follow_state_witness :
  exists status,
    get_status "10.0.0.1"
      (monitor (run env_all_reply
                  [Controller; Controller; Worker 0; Worker 0; Worker 0]
                  (boot 1 5 3 [AddIp "10.0.0.1" "A"; Start])))
      = Some status /\
    last_success status <> None.
Proof.
  eexists. split; [reflexivity|].
  refine (proj1 (timestamps_follow_state env_all_reply 1%float 5%float 3%Z
                   [AddIp "10.0.0.1" "A"; Start]
                   [Controller; Controller; Worker 0; Worker 0; Worker 0]
                   "10.0.0.1" _ eq_refl) eq_refl).
Defined.

(** ** The threshold warning *)

Lemma warnings_for_app ip l1 l2 :
  warnings_for ip (l1 ++ l2) = warnings_for ip l1 + warnings_for ip l2.
Proof.
  induction l1 as [|r l1 IH]; [reflexivity|].
  destruct r; simpl; rewrite IH; lia.
Qed.

(** X8. The warning of line 86 is not raised once at the crossing of the
    threshold: during [n] probes in a row without a reply it is logged at
    every probe that leaves the failure count at or above
    [failure_threshold]. From a count of [c] that makes
    [min n (c + n - failure_threshold + 1)] warnings (none when that is
    negative). *)
Theorem warning_repeats_past_threshold :
  forall (env : Env) (n : nat) (self : PingMonitor) (ip : string)
         (status : IPStatus),
    lookup (monitored_ips self) ip = Some status ->
    (forall k, k < n ->
       ping3_ping env (probes self + k) ip (timeout self) = NoReply) ->
    warnings_for ip (logger (ping_times env n ip self)) =
      warnings_for ip (logger self) +
      Z.to_nat (Z.min (Z.of_nat n)
                  (consecutive_failures status + Z.of_nat n
                   - failure_threshold self + 1)).
Proof.
  intros env n. induction n as [|n IH]; intros self ip status Hl Hp.
  - cbn [ping_times]. lia.
  - rewrite ping_times_S.
    assert (Hp0 : ping3_ping env (probes self) ip (timeout self) = NoReply).
    { rewrite <- (Nat.add_0_r (probes self)). apply Hp. lia. }
    pose proof (_ping_ip_no_reply env self ip status Hl Hp0) as Hstep.
    cbv zeta in Hstep. rewrite Hstep. cbn [snd].
    set (status1 := on_no_reply (datetime_now env (probes self)) status) in *.
    set (warn := (failure_threshold self <=? consecutive_failures status1)%Z).
    set (self1 := probed self ip status1 warn).
    assert (Hl1 : lookup (monitored_ips self1) ip = Some status1)
      by apply lookup_setitem_same.
    rewrite (IH self1 ip status1 Hl1).
    + assert (Hlog : warnings_for ip (logger self1) =
                     warnings_for ip (logger self) + if warn then 1 else 0).
      { unfold self1, probed. cbn [logger]. rewrite !warnings_for_app.
        destruct warn; simpl; rewrite ?String.eqb_refl;
          destruct (first_raise _ _ _ _); simpl; lia. }
      rewrite Hlog. change (failure_threshold self1) with (failure_threshold self).
      change (consecutive_failures status1)
        with (consecutive_failures status + 1)%Z in *.
      subst warn.
      destruct (Z.leb_spec (failure_threshold self)
                  (consecutive_failures status + 1)); lia.
    + intros k Hk. change (probes self1) with (S (probes self)).
      change (timeout self1) with (timeout self).
      replace (S (probes self) + k) with (probes self + S k) by lia.
      apply Hp. lia.
Qed.

Lemma warning_repeats_past_threshold_witness :
  warnings_for "10.0.0.1"
    (logger (ping_times env_silent 5 "10.0.0.1"
               (add_ip "10.0.0.1" "A" (__init__ 1 5 3)))) = 3.
Proof.
  rewrite (warning_repeats_past_threshold env_silent 5
             (add_ip "10.0.0.1" "A" (__init__ 1 5 3)) "10.0.0.1"
             (fresh_status "10.0.0.1" "A") eq_refl).
  - reflexivity.
  - intros k _. reflexivity.
Defined.

(** ** A cycle of the loop *)

Lemma pinged_app tr1 tr2 : pinged (tr1 ++ tr2) = (pinged tr1 ++ pinged tr2)%list.
Proof.
  induction tr1 as [|ev tr1 IH]; [reflexivity|].
  destruct ev; simpl; now rewrite IH.
Qed.

Lemma pinged_callbacks evs :
  Forall (fun ev => exists i a status, ev = EvCallback i a status) evs ->
  pinged evs = [].
Proof.
  induction 1 as [|ev evs (i & a & status & ->) _ IH]; [reflexivity | exact IH].
Qed.

Section Cycle.

Variable env : Env.

Lemma pinged__ping_ip self ip :
  pinged (trace (snd (_ping_ip env ip self))) = (pinged (trace self) ++ [ip])%list.
Proof.
  destruct (_ping_ip_trace env self ip) as (evs & -> & Hevs).
  rewrite pinged_app. cbn [pinged]. now rewrite (pinged_callbacks evs Hevs).
Qed.

Lemma worker_run_for ips : forall self,
  _stop_event self = false ->
  exists self',
    worker_run env (2 * List.length ips + 1) (AtFor ips) self = (AtSleep, self') /\
    pinged (trace self') = (pinged (trace self) ++ ips)%list /\
    probes self' = probes self + List.length ips /\
    interval self' = interval self /\
    keys (monitored_ips self') = keys (monitored_ips self).
Proof.
  induction ips as [|ip rest IH]; intros self Hstop.
  - exists self. simpl. rewrite app_nil_r. repeat split. lia.
  - replace (2 * List.length (ip :: rest) + 1)
      with (S (S (2 * List.length rest + 1))) by (simpl; lia).
    cbn [worker_run _monitor_loop_step]. rewrite Hstop.
    cbn [worker_run _monitor_loop_step].
    pose proof (_ping_ip_returns env self ip) as Hret.
    pose proof (_ping_ip_frame env self ip) as (_ & Hint & _ & _ & Hst & _ & Hpr).
    pose proof (pinged__ping_ip self ip) as Hpinged.
    pose proof (keys__ping_ip env self ip) as Hkeys.
    destruct (_ping_ip env ip self) as [[e|u] self1]; [discriminate Hret|].
    cbn [snd] in *.
    destruct (IH self1) as (self' & Hrun & Hp' & Hn' & Hi' & Hk').
    { now rewrite Hst. }
    exists self'. split; [exact Hrun|].
    rewrite Hp', Hpinged, Hn', Hpr, Hi', Hint, Hk', Hkeys.
    repeat split; [now rewrite <- app_assoc | simpl; lia].
Qed.

Lemma worker_run_add n k : forall pc s,
  worker_run env (n + k) pc s =
  worker_run env k (fst (worker_run env n pc s)) (snd (worker_run env n pc s)).
Proof.
  induction n as [|n IH]; intros pc s; [reflexivity|].
  cbn [Nat.add worker_run].
  destruct (_monitor_loop_step env pc s) as [[pc1 s1]|] eqn:Hstep; [apply IH|].
  cbn [fst snd]. destruct k; cbn [worker_run]; [reflexivity|].
  now rewrite Hstep.
Qed.

(** What [time.sleep] refuses whatever the operating system: a length
    that is negative or not a number. *)
Lemma time_sleep_refuses secs :
  (secs <? 0)%float = true \/ is_nan secs = true ->
  time_sleep env secs <> None.
Proof.
  unfold time_sleep, sleep_length_error. intros [H|H]; rewrite H.
  - destruct (is_nan secs); [discriminate|].
    destruct (_ || _); discriminate.
  - discriminate.
Qed.

(** X9. While the stop flag is clear, one cycle of [_monitor_loop]
    calls [ping3.ping] exactly once for every host of the registry, in the
    order in which the hosts were added, adds and removes no host, and
    then calls [time.sleep(interval)]. When that call returns the loop is
    back at its test. When it raises, which it does for every interval
    that is negative or not a number, nothing catches the exception: the
    thread is dead after this one cycle. *)
Theorem cycle_pings_every_host_once :
  forall (self : PingMonitor),
    _stop_event self = false ->
    let hosts := keys (monitored_ips self) in
    exists self',
      worker_run env (2 * List.length hosts + 2) AtWhile self = (AtSleep, self') /\
      pinged (trace self') = (pinged (trace self) ++ hosts)%list /\
      probes self' = probes self + List.length hosts /\
      keys (monitored_ips self') = hosts /\
      (time_sleep env (interval self) = None ->
         _monitor_loop_step env AtSleep self' =
           Some (AtWhile, emit (EvSleep (interval self)) self')) /\
      (forall e, time_sleep env (interval self) = Some e ->
         _monitor_loop_step env AtSleep self' =
           Some (Died e, emit (EvSleep (interval self)) self')) /\
      ((interval self <? 0)%float = true \/ is_nan (interval self) = true ->
         exists e, worker_run env (2 * List.length hosts + 3) AtWhile self =
                     (Died e, emit (EvSleep (interval self)) self')).
Proof.
  intros self Hstop hosts.
  destruct (worker_run_for hosts self Hstop) as (self' & Hrun & Hp & Hn & Hi & Hk).
  exists self'.
  assert (Hcycle : forall k,
            worker_run env (S (2 * List.length hosts + 1 + k)) AtWhile self =
            worker_run env k AtSleep self').
  { intros k. cbn [worker_run _monitor_loop_step]. rewrite Hstop. cbn [negb].
    fold hosts. now rewrite worker_run_add, Hrun. }
  split.
  { replace (2 * List.length hosts + 2)
      with (S (2 * List.length hosts + 1 + 0)) by lia. apply Hcycle. }
  repeat (split; [assumption|]).
  cbn [_monitor_loop_step]. rewrite Hi.
  split; [now intros ->|]. split; [now intros e ->|].
  intros Hbad. pose proof (time_sleep_refuses _ Hbad) as Hs.
  destruct (time_sleep env (interval self)) as [e|] eqn:He; [|now elim Hs].
  exists e.
  replace (2 * List.length hosts + 3)
    with (S (2 * List.length hosts + 1 + 1)) by lia.
  rewrite Hcycle. cbn [worker_run _monitor_loop_step]. now rewrite Hi, He.
Qed.

(** X10. Once the stop flag is set, a live worker is dead within four of
    its steps, whatever it was doing, and calls [ping3.ping] at most once
    more: [join()] in [stop()] does not wait for the rest of the cycle.
    From the test of the [while] the thread returns at once. From
    anywhere else it calls [time.sleep(interval)] once more on its way,
    and it returns if that call returns and ends by its exception if
    not. *)
Theorem worker_exits_once_stop_is_set :
  forall (pc : worker_pc) (self : PingMonitor),
    _stop_event self = true ->
    is_alive pc = true ->
    exists pc' self',
      worker_run env 4 pc self = (pc', self') /\
      is_alive pc' = false /\
      (pc = AtWhile \/ time_sleep env (interval self) = None -> pc' = Finished) /\
      (forall e, pc <> AtWhile -> time_sleep env (interval self) = Some e ->
                 pc' = Died e) /\
      probes self' <= probes self + 1 /\
      keys (monitored_ips self') = keys (monitored_ips self).
Proof.
  intros pc self Hstop Halive.
  assert (Hsleep : forall k s,
            _stop_event s = true -> interval s = interval self ->
            exists pc',
              worker_run env (S (S k)) AtSleep s =
                (pc', emit (EvSleep (interval s)) s) /\
              is_alive pc' = false /\
              (time_sleep env (interval self) = None -> pc' = Finished) /\
              (forall e, time_sleep env (interval self) = Some e -> pc' = Died e)).
  { intros k s Hs Hi. cbn [worker_run _monitor_loop_step]. rewrite Hi.
    destruct (time_sleep env (interval self)) as [e|].
    - exists (Died e).
      destruct k; repeat split; try discriminate; now intros e' [= ->].
    - exists Finished. cbn [_monitor_loop_step emit _stop_event]. rewrite Hs.
      cbn [negb]. destruct k; repeat split; discriminate. }
  destruct pc as [|ips|ip rest| | |e]; try discriminate Halive.
  - exists Finished, self. cbn [worker_run _monitor_loop_step]. rewrite Hstop.
    repeat split; try lia. intros e H. now elim H.
  - destruct (Hsleep 1 self Hstop eq_refl) as (pc' & Hrun & Hdead & Hfin & Hdied).
    exists pc', (emit (EvSleep (interval self)) self).
    split.
    { change 4 with (S 3). cbn [worker_run]. cbn [_monitor_loop_step].
      destruct ips as [|ip rest]; [|rewrite Hstop]; exact Hrun. }
    split; [exact Hdead|]. split; [intros [H|H]; [discriminate | auto]|].
    split; [intros e _; apply Hdied|]. split; [simpl; lia | reflexivity].
  - pose proof (_ping_ip_returns env self ip) as Hret.
    pose proof (_ping_ip_frame env self ip) as (_ & Hint & _ & _ & Hst & _ & Hpr).
    pose proof (keys__ping_ip env self ip) as Hkeys.
    destruct (_ping_ip env ip self) as [[e|u] self1] eqn:Hping;
      [discriminate Hret|].
    cbn [snd] in *. rewrite Hstop in Hst.
    destruct (Hsleep 0 self1 Hst Hint) as (pc' & Hrun & Hdead & Hfin & Hdied).
    exists pc', (emit (EvSleep (interval self1)) self1).
    split.
    { change 4 with (S (S 2)). cbn [worker_run]. cbn [_monitor_loop_step].
      rewrite Hping. cbn [_monitor_loop_step].
      destruct rest as [|ip' rest']; [|rewrite Hst]; exact Hrun. }
    split; [exact Hdead|]. split; [intros [H|H]; [discriminate | auto]|].
    split; [intros e _; apply Hdied|].
    split; [simpl; lia | exact Hkeys].
  - destruct (Hsleep 2 self Hstop eq_refl) as (pc' & Hrun & Hdead & Hfin & Hdied).
    exists pc', (emit (EvSleep (interval self)) self).
    split; [exact Hrun|].
    split; [exact Hdead|]. split; [intros [H|H]; [discriminate | auto]|].
    split; [intros e _; apply Hdied|]. split; [simpl; lia | reflexivity].
Qed.

End Cycle.

Lemma cycle_pings_every_host_once_witness :
  exists self',
    worker_run env_all_reply 6 AtWhile monitor_two_hosts = (AtSleep, self') /\
    pinged (trace self') =
      (pinged (trace monitor_two_hosts) ++ ["10.0.0.1"; "10.0.0.2"])%list /\
    _monitor_loop_step env_all_reply AtSleep self' =
      Some (AtWhile, emit (EvSleep 5) self').
Proof.
  destruct (cycle_pings_every_host_once env_all_reply monitor_two_hosts eq_refl)
    as (self' & H1 & H2 & _ & _ & H5 & _).
  exists self'. split; [exact H1|]. split; [exact H2|]. exact (H5 eq_refl).
Defined.

Lemma worker_exits_once_stop_is_set_witness :
  exists self',
    worker_run env_all_reply 4 (AtPing "10.0.0.1" ["10.0.0.2"])
      (set_stop_event true monitor_two_hosts) = (Finished, self') /\
    probes self' <= probes (set_stop_event true monitor_two_hosts) + 1.
Proof.
  destruct (worker_exits_once_stop_is_set env_all_reply
              (AtPing "10.0.0.1" ["10.0.0.2"])
              (set_stop_event true monitor_two_hosts) eq_refl eq_refl)
    as (pc' & self' & H1 & _ & H3 & _ & H5 & _).
  exists self'. rewrite (H3 (or_intror eq_refl)) in H1.
  split; [exact H1 | exact H5].
Defined.

(** ** One worker at a time *)

Lemma none_alive l :
  (forall j, is_alive (nth j l Finished) = false) -> filter is_alive l = [].
Proof.
  induction l as [|pc l IH]; intros H; [reflexivity|].
  pose proof (H 0) as H0. simpl in H0. simpl. rewrite H0.
  apply IH. intros j. exact (H (S j)).
Qed.

Lemma at_most_one_alive l :
  (forall i j, is_alive (nth i l Finished) = true ->
               is_alive (nth j l Finished) = true -> i = j) ->
  List.length (filter is_alive l) <= 1.
Proof.
  induction l as [|pc l IH]; intros H; [simpl; lia|].
  simpl. destruct (is_alive pc) eqn:Hpc.
  - rewrite none_alive; [simpl; lia|].
    intros j. destruct (is_alive (nth j l Finished)) eqn:Hj; [|reflexivity].
    specialize (H 0 (S j) Hpc Hj). discriminate.
  - apply IH. intros i j Hi Hj. specialize (H (S i) (S j) Hi Hj). lia.
Qed.

(** X11. However often and in whatever order the controlling thread
    calls [start()] and [stop()], and under any schedule, at most one
    worker thread is alive at any moment. *)
Theorem at_most_one_worker :
  forall (env : Env) (timeout interval : float) (failure_threshold : Z)
         (script : list call) (schedule : list actor),
    List.length
      (filter is_alive
         (threads (run env schedule
                     (boot timeout interval failure_threshold script)))) <= 1.
Proof.
  intros env t i f script schedule.
  destruct (threads_ok_run env schedule _ (threads_ok_boot t i f script))
    as (I1 & _).
  apply at_most_one_alive. intros a b Ha Hb.
  pose proof (I1 a Ha) as H1. pose proof (I1 b Hb) as H2. congruence.
Qed.

End MonitorMore.

(** * Further properties of the alert manager *)

Module AlertMore.
Import Py PyFacts PyStr Json JsonFacts CodecFacts Alerts AlertFacts AlertSetup Examples
  MoreExamples.

(** ** The channels, call by call *)

(** Closes a goal [exists w', run = (inr tt, w') /\ extends w w' evs]
    once the run has been evaluated. *)
Ltac close_exact :=
  eexists; split; [reflexivity|];
  unfold extends; cbn [self files config alert_history logger alerts trace];
  repeat split; rewrite <- ?app_assoc; try reflexivity;
  first [ eexists; rewrite <- ?app_assoc; reflexivity
        | exists []; rewrite app_nil_r; reflexivity ].

Section Calls.

Variable env : AlertEnv.

Lemma desktop_block_exact n title message app w :
  exists w',
    try_except
      (foreign_call (EvNotify title message app)
         (notification_notify env n title message app))
      (fun e => write_log (Error_desktop e)) w = (inr tt, w') /\
    extends w w' [EvNotify title message app].
Proof.
  unfold try_except, foreign_call, write_log, on_self, modify.
  destruct (notification_notify env n title message app); simpl; close_exact.
Qed.

Lemma sound_block_exact n c w0 w :
  exists w',
    try_except
      (if truthy (sound_file c) && os_path_exists (sound_file c) w0
       then foreign_call (EvPlaySound (sound_file c))
              (winsound_PlaySound env n (sound_file c))
       else foreign_call (EvBeep 1000 1000) (winsound_Beep env n 1000 1000))
      (fun e => write_log (Error_sound e)) w = (inr tt, w') /\
    extends w w' [sound_event c w0].
Proof.
  unfold try_except, foreign_call, write_log, on_self, modify, sound_event.
  destruct (truthy (sound_file c) && os_path_exists (sound_file c) w0);
    [destruct (winsound_PlaySound env n (sound_file c))
    |destruct (winsound_Beep env n 1000 1000)];
    simpl; close_exact.
Qed.

(** The SMTP session of one alert, outcome by outcome. *)
Lemma email_session n ip message w :
  let c := config (self w) in
  let connected := ok (smtplib_SMTP env n (email_smtp_server c) (email_smtp_port c)) in
  let secured := connected && ok (smtp_starttls env n) in
  let logged_in :=
    secured && ok (smtp_login env n (email_username c) (email_password c)) in
  let sent :=
    logged_in && ok (smtp_send_message env n (email_message env n c ip message)) in
  exists w' evs r,
    _send_email_alert env n ip message w = (inr tt, w') /\
    extends w w' (EvSmtpConnect (email_smtp_server c) (email_smtp_port c) :: evs) /\
    logger (self w') = logger (self w) ++ [r] /\
    forallb smtp_event evs = true /\
    existsb is_login evs = secured /\
    existsb is_send evs = logged_in /\
    existsb is_quit evs = connected /\
    is_info_email_sent r = sent && ok (smtp_quit env n).
Proof.
  unfold _send_email_alert, with_smtp, try_except, bind, get, foreign_call,
    write_log, on_self, modify, email_message.
  cbv zeta. set (c := config (self w)).
  destruct (smtplib_SMTP env n (email_smtp_server c) (email_smtp_port c));
    simpl;
    [do 3 eexists; split; [reflexivity|]; split;
       [unfold extends; cbn; repeat split; eexists; reflexivity|];
       repeat split|].
  destruct (smtp_starttls env n); simpl;
    [destruct (smtp_quit env n); simpl;
     (do 3 eexists; split; [reflexivity|]; split;
        [unfold extends; cbn; rewrite <- ?app_assoc; repeat split;
         eexists; reflexivity|];
        cbn; rewrite <- ?app_assoc; repeat split)|].
  destruct (smtp_login env n (email_username c) (email_password c)); simpl;
    [destruct (smtp_quit env n); simpl;
     (do 3 eexists; split; [reflexivity|]; split;
        [unfold extends; cbn; rewrite <- ?app_assoc; repeat split;
         eexists; reflexivity|];
        cbn; rewrite <- ?app_assoc; repeat split)|].
  destruct (smtp_send_message env n _); simpl;
    destruct (smtp_quit env n); simpl;
    (do 3 eexists; split; [reflexivity|]; split;
       [unfold extends; cbn; rewrite <- ?app_assoc; repeat split;
        eexists; reflexivity|];
       cbn; rewrite <- ?app_assoc; repeat split).
Qed.

(** What one [send_alert] does: it returns, the record is appended, and
    the channel calls are those of the desktop, then the sound, then the
    SMTP session, each present when its channel is switched on. *)
Lemma send_alert_run w ip message alert_type :
  let n := alerts (self w) in
  let c := config (self w) in
  exists w' email_evs,
    send_alert env ip message alert_type w = (inr tt, w') /\
    files w' = files w /\
    config (self w') = c /\
    alert_history (self w') =
      alert_history (self w) ++
      [alert_data (now_isoformat env n) ip message alert_type] /\
    alerts (self w') = S n /\
    trace (self w') =
      trace (self w) ++
      (if desktop_notification c
       then [EvNotify ("IP监控报警 - " ++ ip)%string message "IP Ping Monitor"]
       else []) ++
      (if sound_alert c then [sound_event c w] else []) ++ email_evs /\
    forallb smtp_event email_evs = true /\
    (email_enabled c && nonempty (email_recipients c) = false -> email_evs = []).
Proof.
  intros n c.
  unfold send_alert, bind, begin_alert, on_self, modify, get, when, ret.
  cbn [fst snd self files config alert_history logger alerts trace set_history].
  fold n. fold c.
  set (w0 := {| self := _; files := files w |}).
  assert (Hs : sound_event c w0 = sound_event c w) by reflexivity.
  assert (H1 : exists w1,
             (if desktop_notification c
              then try_except
                     (foreign_call
                        (EvNotify ("IP监控报警 - " ++ ip)%string message
                           "IP Ping Monitor")
                        (notification_notify env n
                           ("IP监控报警 - " ++ ip)%string message
                           "IP Ping Monitor"))
                     (fun e => write_log (Error_desktop e))
              else fun s => (inr tt, s)) w0 = (inr tt, w1) /\
             extends w0 w1
               (if desktop_notification c
                then [EvNotify ("IP监控报警 - " ++ ip)%string message
                        "IP Ping Monitor"]
                else [])).
  { destruct (desktop_notification c).
    - apply desktop_block_exact.
    - exists w0. split; [reflexivity | apply extends_refl]. }
  destruct H1 as (w1 & R1 & E1). rewrite R1.
  assert (H2 : exists w2,
             (if sound_alert c
              then try_except
                     (if truthy (sound_file c) && os_path_exists (sound_file c) w0
                      then foreign_call (EvPlaySound (sound_file c))
                             (winsound_PlaySound env n (sound_file c))
                      else foreign_call (EvBeep 1000 1000)
                             (winsound_Beep env n 1000 1000))
                     (fun e => write_log (Error_sound e))
              else fun s => (inr tt, s)) w1 = (inr tt, w2) /\
             extends w1 w2 (if sound_alert c then [sound_event c w] else [])).
  { destruct (sound_alert c).
    - rewrite <- Hs. apply sound_block_exact.
    - exists w1. split; [reflexivity | apply extends_refl]. }
  destruct H2 as (w2 & R2 & E2). rewrite R2.
  assert (H3 : exists w3 evs3,
             (if email_enabled c && nonempty (email_recipients c)
              then _send_email_alert env n ip message
              else fun s => (inr tt, s)) w2 = (inr tt, w3) /\
             extends w2 w3 evs3 /\ forallb smtp_event evs3 = true /\
             (email_enabled c && nonempty (email_recipients c) = false ->
              evs3 = [])).
  { destruct (email_enabled c && nonempty (email_recipients c)).
    - destruct (email_session n ip message w2)
        as (w3 & evs & r & R & E & _ & Hall & _).
      exists w3. eexists. split; [exact R|]. split; [exact E|].
      split; [exact Hall | discriminate].
    - exists w2, []. split; [reflexivity|]. split; [apply extends_refl|].
      split; reflexivity. }
  destruct H3 as (w3 & evs3 & R3 & E3 & Hall & Hoff). rewrite R3.
  pose proof (extends_trans _ _ _ _ _ (extends_trans _ _ _ _ _ E1 E2) E3)
    as (Hf & Hc & Hh & Ha & Ht & _).
  exists w3, evs3. split; [reflexivity|].
  split; [exact Hf|]. split; [exact Hc|]. split; [exact Hh|].
  split; [exact Ha|]. split; [|split; assumption].
  rewrite Ht. cbn [w0 self trace]. now rewrite <- app_assoc.
Qed.

End Calls.

(** ** The SMTP session and the sound *)

Section Channels2.

Variable env : AlertEnv.


(** X13. With the sound switched on, each alert makes exactly one call
    to the sound card: it plays the configured file when one is set and
    exists, and the default tone (1000 Hz for 1000 ms) otherwise. A
    playback that fails is not followed by the default tone. *)
Theorem sound_plays_file_or_default_tone :
  forall (w : World) (ip message alert_type : string),
    sound_alert (config (self w)) = true ->
    let c := config (self w) in
    let w' := snd (send_alert env ip message alert_type w) in
    exists evs,
      trace (self w') = trace (self w) ++ evs /\
      filter (fun ev => is_play ev || is_beep ev) evs =
        [if truthy (sound_file c) && os_path_exists (sound_file c) w
         then EvPlaySound (sound_file c)
         else EvBeep 1000 1000].
Proof.
  intros w ip message alert_type Hsound c w'. subst w'.
  destruct (send_alert_run env w ip message alert_type)
    as (w' & email_evs & R & _ & _ & _ & _ & T & Hall & _).
  fold c in T. rewrite R. cbn [snd]. eexists. split; [exact T|].
  fold c in Hsound. rewrite Hsound. rewrite !filter_app.
  assert (Hmail : filter (fun ev => is_play ev || is_beep ev) email_evs = []).
  { clear T. induction email_evs as [|ev evs IH]; [reflexivity|].
    cbn [forallb] in Hall. apply andb_prop in Hall as [Hev Hevs].
    destruct ev; try discriminate Hev; simpl; now apply IH. }
  rewrite Hmail, app_nil_r.
  assert (Hdesk : filter (fun ev => is_play ev || is_beep ev)
                    (if desktop_notification c
                     then [EvNotify ("IP监控报警 - " ++ ip)%string message
                             "IP Ping Monitor"]
                     else []) = []) by (destruct (desktop_notification c); reflexivity).
  rewrite Hdesk. unfold sound_event. fold c.
  destruct (truthy (sound_file c) && os_path_exists (sound_file c) w); reflexivity.
Qed.

End Channels2.

Lemma sound_plays_file_or_default_tone_witness :
  exists evs,
    trace (self (snd (send_alert alert_env_quiet "10.0.0.1" "down" "error"
                        {| self := manager_new; files := [] |}))) = evs /\
    filter (fun ev => is_play ev || is_beep ev) evs = [EvBeep 1000 1000].
Proof.
  destruct (sound_plays_file_or_default_tone alert_env_quiet
              {| self := manager_new; files := [] |} "10.0.0.1" "down" "error"
              eq_refl) as (evs & H1 & H2).
  exists evs. split; [exact H1 | exact H2].
Defined.

(** ** The history *)

(** X14. For a limit of one or more, [get_alert_history] returns the
    last [limit] records, oldest first, and the whole history when it has
    no more than [limit] records. *)
Theorem get_alert_history_last_records :
  forall (m : AlertManager) (limit : Z),
    (0 < limit)%Z ->
    exists older,
      alert_history m = older ++ get_alert_history limit m /\
      List.length (get_alert_history limit m) =
        Nat.min (Z.to_nat limit) (List.length (alert_history m)).
Proof.
  intros m limit Hpos. rewrite (get_alert_history_positive m limit Hpos).
  apply last_records_suffix.
Qed.

Lemma get_alert_history_last_records_witness :
  exists older,
    alert_history manager_two_alerts =
      older ++ get_alert_history 1 manager_two_alerts /\
    List.length (get_alert_history 1 manager_two_alerts) = 1.
Proof.
  exact (get_alert_history_last_records manager_two_alerts 1 eq_refl).
Defined.

(** X15. A negative limit does not limit: [get_alert_history(-k)]
    evaluates [alert_history[k:]] and returns the history without its [k]
    oldest records (nothing when there are no more than [k]). *)
Theorem get_alert_history_negative_limit :
  forall (m : AlertManager) (limit : Z),
    (limit < 0)%Z ->
    get_alert_history limit m = skipn (Z.to_nat (- limit)) (alert_history m).
Proof.
  intros m limit Hneg. unfold get_alert_history, slice_from.
  destruct (Z.ltb_spec (- limit) 0) as [H|_]; [lia|].
  destruct (Z.min_spec (- limit) (Z.of_nat (List.length (alert_history m))))
    as [[Hlt ->]|[Hge ->]]; [reflexivity|].
  rewrite Nat2Z.id. rewrite !skipn_all2; [reflexivity | lia | lia].
Qed.

Lemma get_alert_history_negative_limit_witness :
  get_alert_history (-1) manager_two_alerts =
    [alert_data "2024-05-01T10:00:05" "10.0.0.1" "IP 10.0.0.1 down" "error"].
Proof.
  rewrite (get_alert_history_negative_limit manager_two_alerts (-1) eq_refl).
  reflexivity.
Defined.

(** Whatever the limit (positive, zero or negative),
    [get_alert_history] returns an end piece of the history. *)
Lemma get_alert_history_is_suffix :
  forall (m : AlertManager) (limit : Z),
    exists older,
      alert_history m = older ++ get_alert_history limit m.
Proof.
  intros m limit. unfold get_alert_history, slice_from.
  eexists. symmetry. apply firstn_skipn.
Qed.

Section History.

Variable env : AlertEnv.

(** X16. Right after [send_alert], [get_alert_history(1)] is exactly the
    record of that alert, with the timestamp of the call, whatever the
    channels did. *)
Theorem newest_alert_is_last :
  forall (w : World) (ip message alert_type : string),
    get_alert_history 1 (self (snd (send_alert env ip message alert_type w))) =
      [alert_data (now_isoformat env (alerts (self w))) ip message alert_type].
Proof.
  intros w ip message alert_type.
  destruct (send_alert_run env w ip message alert_type)
    as (w' & evs & R & _ & _ & H & _).
  rewrite R. cbn [snd].
  rewrite get_alert_history_positive by lia. unfold last_records.
  rewrite H, length_app. cbn [List.length].
  replace (List.length (alert_history (self w)) + 1 - Z.to_nat 1)
    with (List.length (alert_history (self w))) by lia.
  now rewrite skipn_app, skipn_all, Nat.sub_diag.
Qed.

Lemma send_alerts_history l : forall w,
  alert_history (self (send_alerts env l w)) =
    alert_history (self w) ++ alert_records env (alerts (self w)) l /\
  config (self (send_alerts env l w)) = config (self w) /\
  files (send_alerts env l w) = files w.
Proof.
  induction l as [|[[ip message] alert_type] l IH]; intros w.
  - simpl. now rewrite app_nil_r.
  - cbn [send_alerts alert_records].
    destruct (send_alert_run env w ip message alert_type)
      as (w' & evs & R & Hf & Hc & Hh & Ha & _).
    rewrite R. cbn [snd]. destruct (IH w') as (IH1 & IH2 & IH3).
    rewrite IH1, IH2, IH3, Hh, Ha, Hc, Hf.
    now rewrite <- app_assoc.
Qed.

Lemma length_alert_records l : forall n,
  List.length (alert_records env n l) = List.length l.
Proof.
  induction l as [|[[a b] c] l IH]; intros n; [reflexivity|].
  simpl. now rewrite IH.
Qed.

(** X17. The history only grows by appending: after any number of
    alerts it is the old history followed by one record per alert, in the
    order in which the alerts were sent, and neither the configuration nor
    any file has changed. *)
Theorem history_is_append_only :
  forall (l : list (string * string * string)) (w : World),
    alert_history (self (send_alerts env l w)) =
      alert_history (self w) ++ alert_records env (alerts (self w)) l /\
    List.length (alert_history (self (send_alerts env l w))) =
      List.length (alert_history (self w)) + List.length l /\
    config (self (send_alerts env l w)) = config (self w) /\
    files (send_alerts env l w) = files w.
Proof.
  intros l w. destruct (send_alerts_history l w) as (H1 & H2 & H3).
  repeat split; try assumption.
  rewrite H1, length_app. f_equal. apply length_alert_records.
Qed.

(** X18. After [clear_alert_history], whatever the history held, the
    next alert is the only record: [get_alert_history] returns exactly it
    for every limit from zero up. *)
Theorem alert_after_clear_is_alone :
  forall (w : World) (ip message alert_type : string) (limit : Z),
    (0 <= limit)%Z ->
    let cleared := {| self := clear_alert_history (self w); files := files w |} in
    get_alert_history limit
      (self (snd (send_alert env ip message alert_type cleared))) =
      [alert_data (now_isoformat env (alerts (self w))) ip message alert_type].
Proof.
  intros w ip message alert_type limit Hlimit cleared.
  destruct (send_alert_run env cleared ip message alert_type)
    as (w' & evs & R & _ & _ & H & _).
  rewrite R. cbn [snd]. unfold get_alert_history, slice_from. rewrite H.
  cbn [cleared self clear_alert_history set_history alert_history alerts app
       List.length].
  destruct (Z.ltb_spec (- limit) 0) as [Hneg|Hzero].
  - replace (Z.to_nat (Z.max (- limit + Z.of_nat 1) 0)) with 0 by lia.
    reflexivity.
  - replace (Z.to_nat (Z.min (- limit) (Z.of_nat 1))) with 0 by lia.
    reflexivity.
Qed.

End History.

Lemma alert_after_clear_is_alone_witness :
  get_alert_history 0
    (self (snd (send_alert alert_env_quiet "10.0.0.1" "down" "error"
                  {| self := clear_alert_history manager_two_alerts;
                     files := [] |}))) =
    [alert_data "2024-05-01T10:00:10" "10.0.0.1" "down" "error"].
Proof.
  apply (alert_after_clear_is_alone alert_env_quiet
           {| self := manager_two_alerts; files := [] |}
           "10.0.0.1" "down" "error" 0).
  lia.
Defined.

(** ** Files *)

Lemma setitem_twice {V} (d : dict V) key v :
  setitem (setitem d key v) key v = setitem d key v.
Proof.
  induction d as [|[k w] d IH]; simpl.
  - now rewrite String.eqb_refl.
  - destruct (String.eqb k key) eqn:E; simpl; rewrite E; [reflexivity|].
    now rewrite IH.
Qed.

Section Files.

Variable env : AlertEnv.

(** X19. When the file cannot be opened for writing,
    [save_alert_history] returns normally: the error is logged, no file is
    created or changed, and the history in memory stays. *)
Theorem save_failure_changes_nothing :
  forall (w : World) (filepath : string) (e : exn),
    open_error env filepath "w" = Some e ->
    exists w',
      save_alert_history env filepath w = (inr tt, w') /\
      files w' = files w /\
      alert_history (self w') = alert_history (self w) /\
      logger (self w') = logger (self w) ++ [Error_save e].
Proof.
  intros w filepath e He.
  unfold save_alert_history, try_except, bind, get, write_text.
  rewrite He. eexists. split; [reflexivity|]. repeat split.
Qed.


(** X21. [load_alert_history] never raises and never damages the history
    on a failure. When the file does not exist nothing at all happens (not
    even a log record); when it cannot be opened, when its bytes are not
    UTF-8, or when its text is not JSON, the error is logged and the
    history and the files stay as they were. *)
Theorem load_failure_keeps_history :
  forall (w : World) (filepath : string),
    (lookup (files w) filepath = None \/
     open_error env filepath "r" <> None \/
     exists content,
       lookup (files w) filepath = Some content /\
       (loads (read_newlines content) = None \/ utf8_valid content = false)) ->
    exists w',
      load_alert_history env filepath w = Some (inr tt, w') /\
      alert_history (self w') = alert_history (self w) /\
      files w' = files w /\
      (lookup (files w) filepath = None -> w' = w) /\
      (lookup (files w) filepath <> None ->
       exists e, logger (self w') = logger (self w) ++ [Error_load e]).
Proof.
  intros w filepath H.
  unfold load_alert_history, os_path_exists, read_text.
  rewrite contains_lookup.
  destruct (lookup (files w) filepath) as [content|] eqn:Hl.
  - destruct (open_error env filepath "r") as [e|] eqn:Hr.
    + eexists. split; [reflexivity|]. repeat split; try discriminate.
      intros _. now exists e.
    + destruct H as [H|[H|(content' & Hc & Hj)]];
        [discriminate | congruence |].
      injection Hc as <-.
      destruct (utf8_valid content) eqn:Hu.
      * destruct Hj as [Hj|Hj]; [|discriminate]. rewrite Hj.
        eexists. split; [reflexivity|]. repeat split; try discriminate.
        intros _. eexists. reflexivity.
      * eexists. split; [reflexivity|]. repeat split; try discriminate.
        intros _. eexists. reflexivity.
  - exists w. repeat split. intros Hne. congruence.
Qed.

End Files.

Lemma save_failure_changes_nothing_witness :
  exists w',
    save_alert_history alert_env_readonly "alerts.json"
      {| self := manager_two_alerts; files := [] |} = (inr tt, w') /\
    files w' = [].
Proof.
  destruct (save_failure_changes_nothing alert_env_readonly
              {| self := manager_two_alerts; files := [] |} "alerts.json"
              (Raised "PermissionError" "Permission denied") eq_refl)
    as (w' & H1 & H2 & _).
  exists w'. split; [exact H1 | exact H2].
Defined.


Lemma load_failure_keeps_history_witness :
  exists w',
    load_alert_history alert_env_quiet "alerts.json" world_broken_file
      = Some (inr tt, w') /\
    alert_history (self w') = alert_history manager_two_alerts.
Proof.
  destruct (load_failure_keeps_history alert_env_quiet world_broken_file
              "alerts.json") as (w' & H1 & H2 & _).
  - right. right. exists "{oops". split; [reflexivity | left; reflexivity].
  - exists w'. split; [exact H1 | exact H2].
Defined.

(** ** Construction *)

Lemma split_on_length sep s :
  List.length (split_on sep s) = S (occurrences sep s).
Proof.
  induction s as [|c s IH]; [reflexivity|].
  cbn [split_on occurrences]. destruct (Ascii.eqb c sep).
  - simpl. now rewrite IH.
  - destruct (split_on sep s) as [|piece pieces]; [discriminate IH|].
    simpl in *. exact IH.
Qed.

Lemma truthy_false s : truthy s = false -> s = EmptyString.
Proof.
  unfold truthy. destruct (String.eqb_spec s ""); [trivial | discriminate].
Qed.

Lemma truthy_true s : s <> EmptyString -> truthy s = true.
Proof.
  unfold truthy. destruct (String.eqb_spec s ""); [contradiction | trivial].
Qed.

Lemma nonempty_true {A} (l : list A) : l <> [] -> nonempty l = true.
Proof. destruct l; [contradiction | trivial]. Qed.

Section Construction.

Variable environ : string -> option string.

Lemma recipients_from_environ value :
  truthy value = true ->
  nonempty (map strip (split_on "," value)) = true.
Proof.
  intros _. pose proof (split_on_length "," value) as H.
  destruct (split_on "," value); [discriminate H | reflexivity].
Qed.

(** X22. [_load_config] takes from the environment only the user name,
    the password, the server and the recipients, and each of them only
    when the configuration leaves it empty: a value given in the
    configuration always wins, and the flags, the port and the sound file
    never come from the environment. Loading a second time changes
    nothing. *)
Theorem explicit_configuration_wins :
  forall c : AlertConfig,
    let c' := _load_config environ c in
    email_enabled c' = email_enabled c /\
    email_smtp_port c' = email_smtp_port c /\
    desktop_notification c' = desktop_notification c /\
    sound_alert c' = sound_alert c /\
    sound_file c' = sound_file c /\
    (email_username c <> EmptyString -> email_username c' = email_username c) /\
    (email_password c <> EmptyString -> email_password c' = email_password c) /\
    (email_smtp_server c <> EmptyString ->
       email_smtp_server c' = email_smtp_server c) /\
    (email_recipients c <> [] -> email_recipients c' = email_recipients c) /\
    _load_config environ c' = c'.
Proof.
  intros c c'. subst c'. unfold _load_config.
  cbn [email_enabled email_smtp_port desktop_notification sound_alert sound_file
       email_username email_password email_smtp_server email_recipients].
  repeat split.
  - intros H. now rewrite (truthy_true _ H).
  - intros H. now rewrite (truthy_true _ H).
  - intros H. now rewrite (truthy_true _ H).
  - intros H. now rewrite (nonempty_true _ H).
  - f_equal.
    + destruct (truthy (email_smtp_server c)) eqn:E; cbn [negb]; [now rewrite E|].
      destruct (truthy (os_getenv environ "ALERT_EMAIL_SMTP_SERVER"));
        reflexivity.
    + destruct (truthy (email_username c)) eqn:E; cbn [negb]; [now rewrite E|].
      destruct (truthy (os_getenv environ "ALERT_EMAIL_USERNAME"));
        reflexivity.
    + destruct (truthy (email_password c)) eqn:E; cbn [negb]; [now rewrite E|].
      destruct (truthy (os_getenv environ "ALERT_EMAIL_PASSWORD"));
        reflexivity.
    + destruct (nonempty (email_recipients c)) eqn:E; cbn [negb]; [now rewrite E|].
      destruct (truthy (os_getenv environ "ALERT_EMAIL_RECIPIENTS")) eqn:Ev;
        [|reflexivity].
      now rewrite (recipients_from_environ _ Ev).
Qed.


(** X24. A manager built without a configuration, [AlertManager()],
    starts with an empty history, and whatever the environment variables
    say each of its alerts shows the desktop notification, sounds the
    default tone and opens no SMTP connection. *)
Theorem default_manager_never_mails :
  forall (env : AlertEnv) (fs : dict string) (ip message alert_type : string),
    let w := {| self := __init__ environ None; files := fs |} in
    alert_history (self w) = [] /\
    trace (self (snd (send_alert env ip message alert_type w))) =
      [EvNotify ("IP监控报警 - " ++ ip)%string message "IP Ping Monitor";
       EvBeep 1000 1000].
Proof.
  intros env fs ip message alert_type w. split; [reflexivity|].
  destruct (send_alert_run env w ip message alert_type)
    as (w' & email_evs & R & _ & _ & _ & _ & T & _ & Hoff).
  rewrite R. cbn [snd]. rewrite T. rewrite Hoff by reflexivity. reflexivity.
Qed.

End Construction.


(** ** From the monitor to the alerts *)

Section Gui.

Import Monitor MonitorFacts MainWindow.

Variable aenv : AlertEnv.

(** X25. [on_status_update] never raises. It sends one alert, of type
    error and with the failure count in its message, when the failure
    count of the status has reached the threshold of the monitor, and does
    nothing at all below the threshold. *)
Theorem on_status_update_alerts_at_threshold :
  forall (monitor : PingMonitor) (ip : string) (status : IPStatus) (w : World),
    let r := on_status_update aenv monitor ip status w in
    fst r = inr tt /\
    ((failure_threshold monitor <= consecutive_failures status)%Z ->
       alert_history (self (snd r)) =
         alert_history (self w) ++
         [alert_data (now_isoformat aenv (alerts (self w))) ip
            ("IP " ++ ip ++ " 连续失败 " ++
             str_of_int (consecutive_failures status) ++ " 次")%string
            "error"]) /\
    ((consecutive_failures status < failure_threshold monitor)%Z ->
       snd r = w).
Proof.
  intros monitor ip status w r. subst r. unfold on_status_update.
  destruct (Z.leb_spec (failure_threshold monitor) (consecutive_failures status)).
  - destruct (send_alert_run aenv w ip
                ("IP " ++ ip ++ " 连续失败 " ++
                 str_of_int (consecutive_failures status) ++ " 次")%string
                default_alert_type)
      as (w' & evs & R & _ & _ & Hh & _).
    rewrite R. cbn [fst snd]. split; [reflexivity|]. split; [|lia].
    intros _. exact Hh.
  - split; [reflexivity|]. split; [lia | reflexivity].
Qed.

Lemma on_status_update_history monitor ip status w :
  List.length
    (alert_history (self (snd (on_status_update aenv monitor ip status w)))) =
  List.length (alert_history (self w)) +
  (if (failure_threshold monitor <=? consecutive_failures status)%Z
   then 1 else 0).
Proof.
  unfold on_status_update.
  destruct (failure_threshold monitor <=? consecutive_failures status)%Z.
  - destruct (send_alert_run aenv w ip
                ("IP " ++ ip ++ " 连续失败 " ++
                 str_of_int (consecutive_failures status) ++ " 次")%string
                default_alert_type)
      as (w' & evs & R & _ & _ & Hh & _).
    rewrite R. cbn [snd]. rewrite Hh, length_app. reflexivity.
  - simpl. lia.
Qed.

Lemma updates_app tr1 tr2 : updates (tr1 ++ tr2) = updates tr1 ++ updates tr2.
Proof.
  induction tr1 as [|ev tr1 IH]; [reflexivity|].
  destruct ev as [| [|i] | | |]; simpl; now rewrite IH.
Qed.

Variable menv : Monitor.Env.

Lemma alerts_of_failed_updates monitor ip n : forall p status w,
  List.length
    (alert_history
       (self (on_status_updates aenv monitor
                (failed_updates menv n p ip status) w))) =
  List.length (alert_history (self w)) +
  Z.to_nat (Z.min (Z.of_nat n)
              (consecutive_failures status + Z.of_nat n
               - failure_threshold monitor + 1)).
Proof.
  induction n as [|n IH]; intros p status w.
  - cbn [failed_updates on_status_updates]. lia.
  - cbn [failed_updates on_status_updates]. rewrite IH.
    rewrite on_status_update_history.
    cbn [on_no_reply consecutive_failures].
    destruct (Z.leb_spec (failure_threshold monitor)
                (consecutive_failures status + 1)); lia.
Qed.

Lemma updates_of_failures cb n : forall self ip status,
  lookup (monitored_ips self) ip = Some status ->
  _callbacks self = [cb] ->
  (forall m i s, cb m i s = None) ->
  (forall k, k < n ->
     ping3_ping menv (probes self + k) ip (Monitor.timeout self) = NoReply) ->
  updates (Monitor.trace (ping_times menv n ip self)) =
    updates (Monitor.trace self) ++ failed_updates menv n (probes self) ip status /\
  failure_threshold (ping_times menv n ip self) = failure_threshold self.
Proof.
  induction n as [|n IH]; intros self ip status Hl Hcb Hquiet Hp.
  - simpl. now rewrite app_nil_r.
  - change (ping_times menv (S n) ip self)
      with (ping_times menv n ip (snd (_ping_ip menv ip self))).
    assert (Hp0 : ping3_ping menv (probes self) ip (Monitor.timeout self) = NoReply).
    { rewrite <- (Nat.add_0_r (probes self)). apply Hp. lia. }
    pose proof (_ping_ip_no_reply menv self ip status Hl Hp0) as Hstep.
    cbv zeta in Hstep. rewrite Hstep. cbn [snd].
    set (status1 := on_no_reply (datetime_now menv (probes self)) status) in *.
    set (self1 := probed self ip status1 _).
    assert (Hl1 : lookup (monitored_ips self1) ip = Some status1)
      by apply lookup_setitem_same.
    destruct (IH self1 ip status1 Hl1 Hcb Hquiet) as (Hu & Ht).
    { intros k Hk. change (probes self1) with (S (probes self)).
      change (Monitor.timeout self1) with (Monitor.timeout self).
      replace (S (probes self) + k) with (probes self + S k) by lia.
      apply Hp. lia. }
    split; [|exact Ht]. rewrite Hu.
    change (probes self1) with (S (probes self)).
    cbn [failed_updates]. fold status1.
    unfold self1, probed. cbn [Monitor.trace]. rewrite Hcb.
    unfold callback_events, enumerate. cbn [List.length seq combine called snd].
    rewrite Hquiet. cbn [map fst].
    rewrite updates_app. cbn [updates app]. now rewrite <- app_assoc.
Qed.

(** X26. The alerts are not raised once at the crossing of the
    threshold. With [on_status_update] as the callback of the monitor, the
    [n] probes of a host that go without a reply call it [n] times, each
    time with the new failure count, and every call that finds the count
    at or above the threshold appends an alert: from a count of [c] the
    history grows by [min n (c + n - failure_threshold + 1)] records, one
    for every further cycle while the host stays down. *)
Theorem alert_repeats_every_cycle :
  forall (cb : callback) (n : nat) (mon : PingMonitor) (ip : string)
         (status : IPStatus) (w : World),
    lookup (monitored_ips mon) ip = Some status ->
    _callbacks mon = [cb] ->
    (forall m i s, cb m i s = None) ->
    (forall k, k < n ->
       ping3_ping menv (probes mon + k) ip (Monitor.timeout mon) = NoReply) ->
    let mon' := ping_times menv n ip mon in
    exists calls,
      updates (Monitor.trace mon') = updates (Monitor.trace mon) ++ calls /\
      List.length calls = n /\
      List.length
        (alert_history (self (on_status_updates aenv mon' calls w))) =
      List.length (alert_history (self w)) +
      Z.to_nat (Z.min (Z.of_nat n)
                  (consecutive_failures status + Z.of_nat n
                   - failure_threshold mon + 1)).
Proof.
  intros cb n mon ip status w Hl Hcb Hquiet Hp mon'.
  destruct (updates_of_failures cb n mon ip status Hl Hcb Hquiet Hp)
    as (Hu & Ht).
  exists (failed_updates menv n (probes mon) ip status).
  split; [exact Hu|]. split.
  - clear. generalize (probes mon). revert status.
    induction n as [|n IH]; intros status p; [reflexivity|].
    simpl. now rewrite IH.
  - rewrite alerts_of_failed_updates. unfold mon'. now rewrite Ht.
Qed.

End Gui.

Lemma alert_repeats_every_cycle_witness :
  exists calls,
    MainWindow.updates
      (Monitor.trace (Monitor.ping_times env_silent 5 "10.0.0.1" monitor_with_gui))
      = calls /\
    List.length
      (alert_history
         (self (MainWindow.on_status_updates alert_env_quiet
                  (Monitor.ping_times env_silent 5 "10.0.0.1" monitor_with_gui)
                  calls {| self := manager_new; files := [] |}))) = 3.
Proof.
  destruct (alert_repeats_every_cycle alert_env_quiet env_silent cb_quiet 5
              monitor_with_gui "10.0.0.1"
              (Monitor.fresh_status "10.0.0.1" "A")
              {| self := manager_new; files := [] |} eq_refl eq_refl)
    as (calls & H1 & _ & H3).
  - reflexivity.
  - intros k _. reflexivity.
  - exists calls. split; [exact H1 | exact H3].
Defined.

End AlertMore.
